(** * StarGAN-v2 network definitions ([starganv2.py]): a shallow embedding

    The Python module builds four networks out of [torch.nn] layers.  The
    embedding keeps the structure of the source:

    - a tensor is a shape (a list of integers) together with an indexing
      function into an abstract scalar type; the scalar arithmetic of the
      tensor runtime is an interface ([Scalar]), so nothing below depends on
      floating-point rounding;
    - a Python exception is an error value; a [forward] method returns a
      [result];
    - a constructor runs in a state-and-error monad whose state counts the
      parameter tensors allocated so far, so that every layer owns its own
      parameters;
    - the layers of the runtime ([Conv2d], [Linear], [InstanceNorm2d],
      pooling, interpolation, [view], [chunk], [stack], indexing by integer
      tensors) are modelled with their shape rules, their failure conditions
      and their element-wise meaning. *)

From Stdlib Require Import String QArith ZArith List Lia Bool.
Import ListNotations.

Local Open Scope string_scope.
Local Open Scope list_scope.
Local Open Scope Z_scope.

Set Implicit Arguments.

(* ------------------------------------------------------------------ *)
(** ** Exceptions and the two monads *)

Inductive PyErr : Type :=
| NameError (name : string)
| UnboundLocalError (name : string)
| AttributeError (name : string)
| IndexError
| RuntimeError
| ValueError
| TypeError
| OverflowError
| ZeroDivisionError.

Inductive result (A : Type) : Type :=
| Ok (a : A)
| Err (e : PyErr).

Arguments Ok {A} a.
Arguments Err {A} e.

Definition bind {A B : Type} (r : result A) (k : A -> result B) : result B :=
  match r with
  | Ok a => k a
  | Err e => Err e
  end.

Declare Scope py_scope.
Delimit Scope py_scope with py.
Notation "x <- e ;; k" := (bind e (fun x => k))
  (at level 100, e at next level, right associativity) : py_scope.
Notation "' p <- e ;; k" := (bind e (fun p => k))
  (at level 100, p pattern, e at next level, right associativity) : py_scope.
Local Open Scope py_scope.

Definition is_ok {A : Type} (r : result A) : bool :=
  match r with Ok _ => true | Err _ => false end.

(** Apply [f] to every element, left to right, stopping at the first
    exception (a Python [for] loop that appends to a list). *)
Fixpoint mapM {A B : Type} (f : A -> result B) (l : list A) : result (list B) :=
  match l with
  | [] => Ok []
  | a :: l' => b <- f a ;; bs <- mapM f l' ;; Ok (b :: bs)
  end.

(** Thread a value through a list of modules ([for block in blocks: x = block(x)]). *)
Fixpoint foldM {A B : Type} (f : B -> A -> result A) (l : list B) (a : A) : result A :=
  match l with
  | [] => Ok a
  | b :: l' => a' <- f b a ;; foldM f l' a'
  end.

(** Constructors allocate parameter tensors: the state is the number of
    parameters allocated so far. *)
Definition M (A : Type) : Type := nat -> result (A * nat).

Definition ret {A : Type} (a : A) : M A := fun n => Ok (a, n).

Definition bindM {A B : Type} (m : M A) (k : A -> M B) : M B :=
  fun n => match m n with
           | Ok (a, n') => k a n'
           | Err e => Err e
           end.

Notation "x <~ e ;; k" := (bindM e (fun x => k))
  (at level 100, e at next level, right associativity) : py_scope.
Notation "' p <~ e ;; k" := (bindM e (fun p => k))
  (at level 100, p pattern, e at next level, right associativity) : py_scope.

Definition lift {A : Type} (r : result A) : M A :=
  fun n => match r with Ok a => Ok (a, n) | Err e => Err e end.

(* ------------------------------------------------------------------ *)
(** ** Python names

    A name that is not assigned in a function body is looked up in the
    module's globals and then in the builtins; a local name read before its
    first assignment raises [UnboundLocalError]. *)

Inductive PyObject : Type :=
| PyModule (name : string)
| PyClass (name : string)
| PyInstance (name : string)
| PyBuiltin (name : string).

(** The names bound at the top level of [starganv2.py] (imports and class
    statements), in order. *)
Definition module_globals : list (string * PyObject) :=
  [ ("nn", PyModule "torch.nn");
    ("torch", PyModule "torch");
    ("F", PyModule "torch.nn.functional");
    ("np", PyModule "numpy");
    ("math", PyModule "math");
    ("AdaptiveInstanceNorm", PyClass "AdaptiveInstanceNorm");
    ("AdaResBlock", PyClass "AdaResBlock");
    ("ResBlock", PyClass "ResBlock");
    ("Discriminator", PyClass "Discriminator");
    ("StyleEncoder", PyClass "StyleEncoder");
    ("MappingNetwork", PyClass "MappingNetwork");
    ("Generator", PyClass "Generator") ].

(** The names bound by the [__main__] block when the file is run as a script. *)
Definition main_globals : list string :=
  [ "device"; "inp"; "style_code"; "latent_space";
    "generator"; "mapping"; "style"; "disc"; "out" ].

(** The builtins the file uses. *)
Definition builtins : list string :=
  [ "super"; "range"; "int"; "min"; "print" ].

Fixpoint assoc {A : Type} (k : string) (l : list (string * A)) : option A :=
  match l with
  | [] => None
  | (k', v) :: l' => if String.eqb k k' then Some v else assoc k l'
  end.

Definition load_global (name : string) : result PyObject :=
  match assoc name module_globals with
  | Some o => Ok o
  | None =>
      if existsb (String.eqb name) main_globals then Ok (PyInstance name)
      else if existsb (String.eqb name) builtins then Ok (PyBuiltin name)
      else Err (NameError name)
  end.

(** No global of this file can stand for a list of layers: iterating over a
    module, a class, a network or a function is a [TypeError], and the rows
    of a tensor cannot be called. *)
Definition py_iter {A : Type} (o : PyObject) : result (list A) := Err TypeError.

Definition load_local {A : Type} (name : string) (v : option A) : result A :=
  match v with
  | Some a => Ok a
  | None => Err (UnboundLocalError name)
  end.

(** [2**14 // img_size] *)
Definition floordiv (a b : Z) : result Z :=
  if b =? 0 then Err ZeroDivisionError else Ok (a / b).

(** [int(np.log2(n))]: the logarithm of a non-positive number is [-inf] or
    [nan], which [int] refuses.  For a positive [n] the source truncates a
    double-precision logarithm; the embedding takes the integer logarithm,
    the same number wherever the double is exact to the unit, which covers
    the image sizes up to 2^14 (beyond them [2**14 // img_size] is 0 and the
    stem of each network has no channel left).  The statements about what
    the networks are made of and what they return bound the image size by
    2^14. *)
Definition int_log2 (n : Z) : result Z :=
  if n =? 0 then Err OverflowError
  else if n <? 0 then Err ValueError
  else Ok (Z.log2 n).

(* ------------------------------------------------------------------ *)
(** ** Scalars and tensors *)

(** The arithmetic of tensor elements.  No law is assumed of it. *)
Class Scalar (R : Type) : Type := {
  szero : R;
  sadd : R -> R -> R;
  ssub : R -> R -> R;
  smul : R -> R -> R;
  sdiv : R -> R -> R;
  ssqrt : R -> R;
  sltb : R -> R -> bool;
  of_Z : Z -> R;
  of_Q : Q -> R
}.

Definition numel (s : list Z) : Z := fold_right Z.mul 1 s.

(** [range(n)] *)
Definition zrange (n : Z) : list Z := map Z.of_nat (seq 0 (Z.to_nat n)).

(** Row-major offset of an index in a shape, and back. *)
Fixpoint ravel (s idx : list Z) : Z :=
  match s, idx with
  | _ :: s', i :: idx' => i * numel s' + ravel s' idx'
  | _, _ => 0
  end.

Fixpoint unravel (s : list Z) (off : Z) : list Z :=
  match s with
  | [] => []
  | _ :: s' => off / numel s' :: unravel s' (off mod numel s')
  end.

(** Broadcasting of two shapes, aligned at the last axis. *)
Definition bdim (a b : Z) : result Z :=
  if a =? b then Ok a
  else if a =? 1 then Ok b
  else if b =? 1 then Ok a
  else Err RuntimeError.

Fixpoint bshape_rev (a b : list Z) : result (list Z) :=
  match a, b with
  | [], _ => Ok b
  | _, [] => Ok a
  | x :: a', y :: b' => d <- bdim x y ;; r <- bshape_rev a' b' ;; Ok (d :: r)
  end.

Definition broadcast_shapes (s1 s2 : list Z) : result (list Z) :=
  r <- bshape_rev (rev s1) (rev s2) ;; Ok (rev r).

Fixpoint bindex_aux (s idx : list Z) : list Z :=
  match s, idx with
  | d :: s', i :: idx' => (if d =? 1 then 0 else i) :: bindex_aux s' idx'
  | _, _ => []
  end.

(** The index read in an operand of shape [s] for the index [idx] of the
    broadcast result. *)
Definition bindex (s idx : list Z) : list Z :=
  bindex_aux s (skipn (length idx - length s) idx).

(** Advanced indexing accepts [-d <= i < d] along an axis of size [d] and
    counts a negative index from the end. *)
Definition index_in_range (d i : Z) : bool := (- d <=? i) && (i <? d).

Definition wrap_index (d i : Z) : Z := if i <? 0 then i + d else i.

(** [view] with at most one [-1] among the requested sizes. *)
Definition resolve_view (n : Z) (req : list Z) : result (list Z) :=
  if existsb (fun d => d <? -1) req then Err RuntimeError
  else
    match count_occ Z.eq_dec req (-1) with
    | O => if numel req =? n then Ok req else Err RuntimeError
    | S O =>
        let p := numel (map (fun d => if d =? -1 then 1 else d) req) in
        if p =? 0 then Err RuntimeError
        else if n mod p =? 0
             then Ok (map (fun d => if d =? -1 then n / p else d) req)
             else Err RuntimeError
    | _ => Err RuntimeError
    end.

Section Tensors.

Context {R : Type} `{Scalar R}.

Record Tensor : Type := mkTensor {
  shape : list Z;
  get : list Z -> R
}.

(** [t.size(k)] *)
Definition size (t : Tensor) (k : nat) : result Z :=
  match nth_error (shape t) k with
  | Some d => Ok d
  | None => Err IndexError
  end.

Definition ssum (l : list R) : R := fold_left sadd l szero.

Definition tmap (f : R -> R) (t : Tensor) : Tensor :=
  {| shape := shape t; get := fun idx => f (get t idx) |}.

Definition tbinop (f : R -> R -> R) (a b : Tensor) : result Tensor :=
  s <- broadcast_shapes (shape a) (shape b) ;;
  Ok {| shape := s;
        get := fun idx => f (get a (bindex (shape a) idx))
                            (get b (bindex (shape b) idx)) |}.

Definition tadd : Tensor -> Tensor -> result Tensor := tbinop sadd.
Definition tmul : Tensor -> Tensor -> result Tensor := tbinop smul.

(** [1 + t] and [t / math.sqrt(2)] with a Python number. *)
Definition add_scalar (c : R) (t : Tensor) : Tensor := tmap (sadd c) t.
Definition div_scalar (t : Tensor) (c : R) : Tensor := tmap (fun v => sdiv v c) t.

Definition sqrt2 : R := ssqrt (of_Z 2).

(** [t.view] with the requested sizes *)
Definition view (t : Tensor) (req : list Z) : result Tensor :=
  s <- resolve_view (numel (shape t)) req ;;
  Ok {| shape := s; get := fun idx => get t (unravel (shape t) (ravel s idx)) |}.

(** [a, b = torch.chunk(t, chunks = 2, dim = 1)]: pieces of [ceil(n/2)]
    entries along axis 1; a single piece cannot be unpacked into two names. *)
Definition chunk2_dim1 (t : Tensor) : result (Tensor * Tensor) :=
  match shape t with
  | d0 :: n :: rest =>
      if n =? 1 then Err ValueError
      else
        let n1 := (n + 1) / 2 in
        Ok ({| shape := d0 :: n1 :: rest; get := get t |},
            {| shape := d0 :: (n - n1) :: rest;
               get := fun idx =>
                        match idx with
                        | i :: j :: r => get t (i :: (j + n1) :: r)
                        | _ => get t idx
                        end |})
  | _ => Err IndexError
  end.

(** [torch.stack(ts, dim = 1)] *)
Definition stack_dim1 (ts : list Tensor) : result Tensor :=
  match ts with
  | [] => Err RuntimeError
  | t0 :: _ =>
      match shape t0 with
      | [] => Err IndexError
      | d0 :: rest =>
          if forallb (fun t => if list_eq_dec Z.eq_dec (shape t) (shape t0)
                               then true else false) ts
          then Ok {| shape := d0 :: Z.of_nat (length ts) :: rest;
                     get := fun idx =>
                              match idx with
                              | i :: k :: r => get (nth (Z.to_nat k) ts t0) (i :: r)
                              | _ => get t0 idx
                              end |}
          else Err RuntimeError
      end
  end.

(** [t[rows, cols]] with two one-dimensional integer tensors. *)
Definition index2 (t : Tensor) (rows cols : list Z) : result Tensor :=
  match shape t with
  | d0 :: d1 :: rest =>
      if negb (length rows =? length cols)%nat then Err IndexError
      else if forallb (index_in_range d0) rows && forallb (index_in_range d1) cols
      then Ok {| shape := Z.of_nat (length rows) :: rest;
                 get := fun idx =>
                          match idx with
                          | i :: r =>
                              get t (wrap_index d0 (nth (Z.to_nat i) rows 0)
                                     :: wrap_index d1 (nth (Z.to_nat i) cols 0) :: r)
                          | [] => get t []
                          end |}
      else Err IndexError
  | _ => Err IndexError
  end.

(* ------------------------------------------------------------------ *)
(** ** The layers of [torch.nn] that the file uses

    Convolutions, pooling and interpolation take batched rank-4 tensors.  A
    convolution without output channels cannot be applied.  [InstanceNorm2d]
    checks the channel count only when it has affine parameters, and refuses
    a map with a single spatial position, over which there are no statistics
    to compute; both are [ValueError]s.  Devices, memory layout and
    gradients are not modelled; a one-dimensional integer tensor (the domain
    indices [y]) is a list of integers. *)

Inductive Activation : Type :=
| LeakyReLU (negative_slope : Q)
| ReLU.

Definition Activation_forward (a : Activation) (x : Tensor) : Tensor :=
  match a with
  | LeakyReLU slope =>
      tmap (fun v => if sltb v szero then smul (of_Q slope) v else v) x
  | ReLU => tmap (fun v => if sltb v szero then szero else v) x
  end.

Record Conv2d : Type := mkConv2d {
  in_channels : Z;
  out_channels : Z;
  kernel_size : Z;
  stride : Z;
  padding : Z;
  conv_weight : Tensor;
  conv_bias : option Tensor
}.

Definition conv_out_size (h k s p : Z) : result Z :=
  if h + 2 * p - k <? 0 then Err RuntimeError
  else Ok ((h + 2 * p - k) / s + 1).

(** Reading the zero-padded input. *)
Definition get_padded (x : Tensor) (h w b c i j : Z) : R :=
  if (0 <=? i) && (i <? h) && (0 <=? j) && (j <? w)
  then get x [b; c; i; j] else szero.

Definition Conv2d_forward (c : Conv2d) (x : Tensor) : result Tensor :=
  match shape x with
  | [n; ch; h; w] =>
      if out_channels c <? 1 then Err RuntimeError
      else if ch =? in_channels c then
        h' <- conv_out_size h (kernel_size c) (stride c) (padding c) ;;
        w' <- conv_out_size w (kernel_size c) (stride c) (padding c) ;;
        Ok {| shape := [n; out_channels c; h'; w'];
              get := fun idx =>
                match idx with
                | [b; o; i; j] =>
                    let acc :=
                      ssum (map (fun ci =>
                        ssum (map (fun u =>
                          ssum (map (fun v =>
                            smul (get (conv_weight c) [o; ci; u; v])
                                 (get_padded x h w b ci
                                    (i * stride c + u - padding c)
                                    (j * stride c + v - padding c)))
                            (zrange (kernel_size c))))
                          (zrange (kernel_size c))))
                        (zrange (in_channels c))) in
                    match conv_bias c with
                    | Some bs => sadd acc (get bs [o])
                    | None => acc
                    end
                | _ => szero
                end |}
      else Err RuntimeError
  | _ => Err RuntimeError
  end.

Record Linear : Type := mkLinear {
  in_features : Z;
  out_features : Z;
  lin_weight : Tensor;
  lin_bias : Tensor
}.

(** [nn.Linear] acts on the last axis, whatever the rank of its input. *)
Definition Linear_forward (l : Linear) (x : Tensor) : result Tensor :=
  match rev (shape x) with
  | [] => Err RuntimeError
  | d :: pre =>
      if d =? in_features l then
        Ok {| shape := rev pre ++ [out_features l];
              get := fun idx =>
                let o := last idx 0 in
                sadd (ssum (map (fun k =>
                              smul (get x (removelast idx ++ [k]))
                                   (get (lin_weight l) [o; k]))
                            (zrange (in_features l))))
                     (get (lin_bias l) [o]) |}
      else Err RuntimeError
  end.

(** Normalisation of every channel of every example to zero mean and unit
    variance over its spatial positions, nothing learned. *)
Definition instance_normalize (eps : Q) (x : Tensor) (h w : Z) (idx : list Z) : R :=
  match idx with
  | [b; c; _; _] =>
      let vals := flat_map (fun i => map (fun j => get x [b; c; i; j]) (zrange w))
                           (zrange h) in
      let cnt := of_Z (h * w) in
      let mean := sdiv (ssum vals) cnt in
      let var := sdiv (ssum (map (fun v => smul (ssub v mean) (ssub v mean)) vals)) cnt in
      sdiv (ssub (get x idx) mean) (ssqrt (sadd var (of_Q eps)))
  | _ => szero
  end.

Record InstanceNorm2d : Type := mkInstanceNorm2d {
  num_features : Z;
  norm_eps : Q;
  norm_affine : option (Tensor * Tensor)
}.

Definition InstanceNorm2d_forward (m : InstanceNorm2d) (x : Tensor) : result Tensor :=
  match shape x with
  | [n; c; h; w] =>
      match norm_affine m with
      | Some (g, bt) =>
          if c =? num_features m then
            if h * w =? 1 then Err ValueError
            else
              Ok {| shape := [n; c; h; w];
                    get := fun idx =>
                      sadd (smul (instance_normalize (norm_eps m) x h w idx)
                                 (get g [nth 1 idx 0]))
                           (get bt [nth 1 idx 0]) |}
          else Err ValueError
      | None =>
          if h * w =? 1 then Err ValueError
          else
            Ok {| shape := [n; c; h; w];
                  get := instance_normalize (norm_eps m) x h w |}
      end
  | _ => Err ValueError
  end.

(** [F.avg_pool2d(x, k)] *)
Definition avg_pool2d (x : Tensor) (k : Z) : result Tensor :=
  match shape x with
  | [n; c; h; w] =>
      if (h <? k) || (w <? k) then Err RuntimeError
      else Ok {| shape := [n; c; h / k; w / k];
                 get := fun idx =>
                   match idx with
                   | [b; ch; i; j] =>
                       sdiv (ssum (flat_map (fun u =>
                                     map (fun v => get x [b; ch; k * i + u; k * j + v])
                                         (zrange k))
                                   (zrange k)))
                            (of_Z (k * k))
                   | _ => szero
                   end |}
  | _ => Err RuntimeError
  end.

(** [F.interpolate(x, scale_factor = k, mode = 'nearest')] *)
Definition interpolate_nearest (x : Tensor) (k : Z) : result Tensor :=
  match shape x with
  | [n; c; h; w] =>
      Ok {| shape := [n; c; h * k; w * k];
            get := fun idx =>
              match idx with
              | [b; ch; i; j] => get x [b; ch; i / k; j / k]
              | _ => szero
              end |}
  | _ => Err RuntimeError
  end.

End Tensors.

Arguments Tensor R : clear implicits.
Arguments Conv2d R : clear implicits.
Arguments Linear R : clear implicits.
Arguments InstanceNorm2d R : clear implicits.

(* ------------------------------------------------------------------ *)
(** ** Constructing the layers

    [param n idx] is the value of the [n]-th parameter tensor at [idx]: its
    initial value, or the value an optimiser has left there. *)

Section LayerInit.

Context {R : Type} `{Scalar R}.
Variable param : nat -> list Z -> R.

Definition alloc (s : list Z) : M (Tensor R) :=
  fun n => if existsb (fun d => d <? 0) s then Err RuntimeError
           else Ok ({| shape := s; get := param n |}, S n).

Definition Conv2d_init (cin cout k s p : Z) (bias : bool) : M (Conv2d R) :=
  w <~ alloc [cout; cin; k; k] ;;
  b <~ (if bias then (t <~ alloc [cout] ;; ret (Some t)) else ret None) ;;
  ret (mkConv2d cin cout k s p w b).

Definition Linear_init (n_in n_out : Z) : M (Linear R) :=
  w <~ alloc [n_out; n_in] ;;
  b <~ alloc [n_out] ;;
  ret (mkLinear n_in n_out w b).

Definition InstanceNorm2d_init (c : Z) (affine : bool) : M (InstanceNorm2d R) :=
  a <~ (if affine
        then (g <~ alloc [c] ;; b <~ alloc [c] ;; ret (Some (g, b)))
        else ret None) ;;
  ret (mkInstanceNorm2d c 1e-5%Q a).

End LayerInit.

(** Reading an attribute that the constructor set only under a condition. *)
Definition getattr {A : Type} (name : string) (v : option A) : result A :=
  match v with
  | Some a => Ok a
  | None => Err (AttributeError name)
  end.

(* ------------------------------------------------------------------ *)
(** ** [class AdaptiveInstanceNorm] *)

Module AdaptiveInstanceNorm.
Section Defs.

Context {R : Type} `{Scalar R}.
Variable param : nat -> list Z -> R.

Record t : Type := mk {
  norm : InstanceNorm2d R;
  fc : Linear R
}.

Definition __init__ (style_dim num_features : Z) : M t :=
  norm <~ InstanceNorm2d_init param num_features false ;;
  fc <~ Linear_init param style_dim (num_features * 2) ;;
  ret (mk norm fc).

Definition forward (self : t) (x s : Tensor R) : result (Tensor R) :=
  h <- Linear_forward (fc self) s ;;
  d0 <- size h 0 ;;
  d1 <- size h 1 ;;
  h <- view h [d0; d1; 1; 1] ;;
  '(gamma, beta) <- chunk2_dim1 h ;;
  let g1 := add_scalar (of_Z 1) gamma in
  n <- InstanceNorm2d_forward (norm self) x ;;
  p <- tmul g1 n ;;
  tadd p beta.

End Defs.
Arguments t R : clear implicits.
End AdaptiveInstanceNorm.

(** The default of the [activ] argument of both residual blocks. *)
Definition default_activ : Activation := LeakyReLU 0.2%Q.

(* ------------------------------------------------------------------ *)
(** ** [class AdaResBlock] *)

Module AdaResBlock.
Section Defs.

Context {R : Type} `{Scalar R}.
Variable param : nat -> list Z -> R.

Record t : Type := mk {
  activ : Activation;
  upsample : bool;
  shortcut : bool;
  conv_1 : Conv2d R;
  conv_2 : Conv2d R;
  norm_1 : AdaptiveInstanceNorm.t R;
  norm_2 : AdaptiveInstanceNorm.t R;
  conv_1x1 : option (Conv2d R)
}.

Definition __init__ (dim_in dim_out style_dim : Z) (activ : Activation)
    (upsample : bool) : M t :=
  let shortcut := negb (dim_in =? dim_out) in
  conv_1 <~ Conv2d_init param dim_in dim_out 3 1 1 true ;;
  conv_2 <~ Conv2d_init param dim_out dim_out 3 1 1 true ;;
  norm_1 <~ AdaptiveInstanceNorm.__init__ param style_dim dim_in ;;
  norm_2 <~ AdaptiveInstanceNorm.__init__ param style_dim dim_out ;;
  conv_1x1 <~ (if shortcut
               then (c <~ Conv2d_init param dim_in dim_out 1 1 0 false ;; ret (Some c))
               else ret None) ;;
  ret (mk activ upsample shortcut conv_1 conv_2 norm_1 norm_2 conv_1x1).

Definition _shortcut (self : t) (x : Tensor R) : result (Tensor R) :=
  x <- (if upsample self then interpolate_nearest x 2 else Ok x) ;;
  x <- (if shortcut self
        then (c <- getattr "conv_1x1" (conv_1x1 self) ;; Conv2d_forward c x)
        else Ok x) ;;
  Ok x.

Definition _residual (self : t) (x s : Tensor R) : result (Tensor R) :=
  x <- AdaptiveInstanceNorm.forward (norm_1 self) x s ;;
  let x := Activation_forward (activ self) x in
  x <- (if upsample self then interpolate_nearest x 2 else Ok x) ;;
  x <- Conv2d_forward (conv_1 self) x ;;
  x <- AdaptiveInstanceNorm.forward (norm_2 self) x s ;;
  let x := Activation_forward (activ self) x in
  x <- Conv2d_forward (conv_2 self) x ;;
  Ok x.

Definition forward (self : t) (x s : Tensor R) : result (Tensor R) :=
  out <- _residual self x s ;;
  sc <- _shortcut self x ;;
  sum <- tadd out sc ;;
  Ok (div_scalar sum sqrt2).

End Defs.
Arguments t R : clear implicits.
End AdaResBlock.

(* ------------------------------------------------------------------ *)
(** ** [class ResBlock] *)

Module ResBlock.
Section Defs.

Context {R : Type} `{Scalar R}.
Variable param : nat -> list Z -> R.

Record t : Type := mk {
  activ : Activation;
  downsample : bool;
  shortcut : bool;
  normalize : bool;
  conv_1 : Conv2d R;
  conv_2 : Conv2d R;
  norm_1 : option (InstanceNorm2d R);
  norm_2 : option (InstanceNorm2d R);
  conv_1x1 : option (Conv2d R)
}.

(** The [style_dim] argument of the source is accepted and never used. *)
Definition __init__ (dim_in dim_out style_dim : Z) (activ : Activation)
    (downsample normalize : bool) : M t :=
  let shortcut := negb (dim_in =? dim_out) in
  conv_1 <~ Conv2d_init param dim_in dim_in 3 1 1 true ;;
  conv_2 <~ Conv2d_init param dim_in dim_out 3 1 1 true ;;
  ' (norm_1, norm_2) <~
      (if normalize
       then (n1 <~ InstanceNorm2d_init param dim_in true ;;
             n2 <~ InstanceNorm2d_init param dim_in true ;;
             ret (Some n1, Some n2))
       else ret (None, None)) ;;
  conv_1x1 <~ (if shortcut
               then (c <~ Conv2d_init param dim_in dim_out 1 1 0 false ;; ret (Some c))
               else ret None) ;;
  ret (mk activ downsample shortcut normalize conv_1 conv_2 norm_1 norm_2 conv_1x1).

Definition _shortcut (self : t) (x : Tensor R) : result (Tensor R) :=
  x <- (if shortcut self
        then (c <- getattr "conv_1x1" (conv_1x1 self) ;; Conv2d_forward c x)
        else Ok x) ;;
  x <- (if downsample self then avg_pool2d x 2 else Ok x) ;;
  Ok x.

Definition _residual (self : t) (x : Tensor R) : result (Tensor R) :=
  x <- (if normalize self
        then (n <- getattr "norm_1" (norm_1 self) ;; InstanceNorm2d_forward n x)
        else Ok x) ;;
  let x := Activation_forward (activ self) x in
  x <- Conv2d_forward (conv_1 self) x ;;
  x <- (if downsample self then avg_pool2d x 2 else Ok x) ;;
  x <- (if normalize self
        then (n <- getattr "norm_2" (norm_2 self) ;; InstanceNorm2d_forward n x)
        else Ok x) ;;
  let x := Activation_forward (activ self) x in
  x <- Conv2d_forward (conv_2 self) x ;;
  Ok x.

Definition forward (self : t) (x : Tensor R) : result (Tensor R) :=
  out <- _residual self x ;;
  sc <- _shortcut self x ;;
  sum <- tadd out sc ;;
  Ok (div_scalar sum sqrt2).

End Defs.
Arguments t R : clear implicits.
End ResBlock.

(* ------------------------------------------------------------------ *)
(** ** [nn.Sequential] over the kinds of layer the file puts in one *)

Module Sequential.
Section Defs.

Context {R : Type} `{Scalar R}.

Inductive Layer : Type :=
| LConv2d (c : Conv2d R)
| LResBlock (b : ResBlock.t R)
| LActivation (a : Activation)
| LLinear (l : Linear R)
| LInstanceNorm2d (n : InstanceNorm2d R).

Definition t : Type := list Layer.

Definition Layer_forward (l : Layer) (x : Tensor R) : result (Tensor R) :=
  match l with
  | LConv2d c => Conv2d_forward c x
  | LResBlock b => ResBlock.forward b x
  | LActivation a => Ok (Activation_forward a x)
  | LLinear l => Linear_forward l x
  | LInstanceNorm2d n => InstanceNorm2d_forward n x
  end.

Definition forward (self : t) (x : Tensor R) : result (Tensor R) :=
  foldM Layer_forward self x.

End Defs.
Arguments Layer R : clear implicits.
Arguments t R : clear implicits.
End Sequential.
Import Sequential(Layer, LConv2d, LResBlock, LActivation, LLinear, LInstanceNorm2d).

(** [for _ in range(n): s = body(s)] inside a constructor. *)
Fixpoint for_range {S : Type} (n : nat) (body : S -> M S) (s : S) : M S :=
  match n with
  | O => ret s
  | S n' => s' <~ body s ;; for_range n' body s'
  end.

(** [indx = torch.LongTensor(range(y.size(0)))] for a one-dimensional
    integer tensor [y]. *)
Definition batch_indices (y : list Z) : list Z := zrange (Z.of_nat (length y)).

(* ------------------------------------------------------------------ *)
(** ** [class Discriminator] *)

Module Discriminator.
Section Defs.

Context {R : Type} `{Scalar R}.
Variable param : nat -> list Z -> R.

Record t : Type := mk { blocks : Sequential.t R }.

Definition __init__ (img_size num_domains max_conv_dim : Z) : M t :=
  dim_in <~ lift (floordiv (2 ^ 14) img_size) ;;
  c <~ Conv2d_init param 3 dim_in 3 1 1 true ;;
  let blocks := [LConv2d c] in
  lg <~ lift (int_log2 img_size) ;;
  let num_blocks := lg - 2 in
  ' (dim_in, dim_out, blocks) <~
      for_range (Z.to_nat num_blocks)
        (fun '(dim_in, _, blocks) =>
           let dim_out := Z.min (dim_in * 2) max_conv_dim in
           b <~ ResBlock.__init__ param dim_in dim_out 64 default_activ true false ;;
           ret (dim_out, Some dim_out, blocks ++ [LResBlock b]))
        (dim_in, None, blocks) ;;
  let blocks := blocks ++ [LActivation (LeakyReLU 0.2%Q)] in
  d <~ lift (load_local "dim_out" dim_out) ;;
  c <~ Conv2d_init param d d 4 1 0 true ;;
  let blocks := blocks ++ [LConv2d c] in
  let blocks := blocks ++ [LActivation (LeakyReLU 0.2%Q)] in
  c <~ Conv2d_init param d num_domains 1 1 0 true ;;
  let blocks := blocks ++ [LConv2d c] in
  ret (mk blocks).

Definition forward (self : t) (x : Tensor R) (y : list Z) : result (Tensor R) :=
  out <- Sequential.forward (blocks self) x ;;
  d0 <- size out 0 ;;
  out <- view out [d0; -1] ;;
  let indx := batch_indices y in
  out <- index2 out indx y ;;
  Ok out.

End Defs.
Arguments t R : clear implicits.
End Discriminator.

(* ------------------------------------------------------------------ *)
(** ** [class StyleEncoder] *)

Module StyleEncoder.
Section Defs.

Context {R : Type} `{Scalar R}.
Variable param : nat -> list Z -> R.

Record t : Type := mk {
  shared : Sequential.t R;
  unshared : list (Linear R)
}.

Definition __init__ (img_size style_dim num_domains max_conv_dim : Z) : M t :=
  dim_in <~ lift (floordiv (2 ^ 14) img_size) ;;
  c <~ Conv2d_init param 3 dim_in 3 1 1 true ;;
  let blocks := [LConv2d c] in
  lg <~ lift (int_log2 img_size) ;;
  let num_blocks := lg - 2 in
  ' (dim_in, dim_out, blocks) <~
      for_range (Z.to_nat num_blocks)
        (fun '(dim_in, _, blocks) =>
           let dim_out := Z.min (dim_in * 2) max_conv_dim in
           b <~ ResBlock.__init__ param dim_in dim_out 64 default_activ true false ;;
           ret (dim_out, Some dim_out, blocks ++ [LResBlock b]))
        (dim_in, None, blocks) ;;
  let blocks := blocks ++ [LActivation (LeakyReLU 0.2%Q)] in
  d <~ lift (load_local "dim_out" dim_out) ;;
  c <~ Conv2d_init param d d 4 1 0 true ;;
  let blocks := blocks ++ [LConv2d c] in
  let blocks := blocks ++ [LActivation (LeakyReLU 0.2%Q)] in
  let shared := blocks in
  unshared <~
      for_range (Z.to_nat num_domains)
        (fun unshared =>
           l <~ Linear_init param d style_dim ;;
           ret (unshared ++ [l]))
        [] ;;
  ret (mk shared unshared).

(** The heads are called on [x]; [h] is not read after its [view]. *)
Definition forward (self : t) (x : Tensor R) (y : list Z) : result (Tensor R) :=
  h <- Sequential.forward (shared self) x ;;
  d0 <- size h 0 ;;
  h <- view h [d0; -1] ;;
  out <- mapM (fun layer => Linear_forward layer x) (unshared self) ;;
  out <- stack_dim1 out ;;
  let indx := batch_indices y in
  out <- index2 out indx y ;;
  Ok out.

End Defs.
Arguments t R : clear implicits.
End StyleEncoder.

(* ------------------------------------------------------------------ *)
(** ** [class MappingNetwork] *)

Module MappingNetwork.
Section Defs.

Context {R : Type} `{Scalar R}.
Variable param : nat -> list Z -> R.

Record t : Type := mk {
  shared : Sequential.t R;
  unshared : list (Sequential.t R)
}.

Definition __init__ (latent_dim style_dim num_domains : Z) : M t :=
  l <~ Linear_init param latent_dim 512 ;;
  let layers := [LLinear l] in
  layers <~
      for_range 3
        (fun layers =>
           l <~ Linear_init param 512 512 ;;
           let layers := layers ++ [LLinear l] in
           let layers := layers ++ [LActivation ReLU] in
           ret layers)
        layers ;;
  let shared := layers in
  unshared <~
      for_range (Z.to_nat num_domains)
        (fun unshared =>
           l1 <~ Linear_init param 512 512 ;;
           l2 <~ Linear_init param 512 512 ;;
           l3 <~ Linear_init param 512 512 ;;
           l4 <~ Linear_init param 512 style_dim ;;
           ret (unshared ++ [[LLinear l1; LActivation ReLU;
                              LLinear l2; LActivation ReLU;
                              LLinear l3; LActivation ReLU;
                              LLinear l4]]))
        [] ;;
  ret (mk shared unshared).

(** The loop iterates over the bare name [unshared], which is neither a
    local of [forward] nor [self.unshared]. *)
Definition forward (self : t) (z : Tensor R) (y : list Z) : result (Tensor R) :=
  h <- Sequential.forward (shared self) z ;;
  unshared <- load_global "unshared" ;;
  layers <- py_iter unshared ;;
  out <- mapM (fun layer : Sequential.t R => Sequential.forward layer h) layers ;;
  out <- stack_dim1 out ;;
  let indx := batch_indices y in
  out <- index2 out indx y ;;
  Ok out.

End Defs.
Arguments t R : clear implicits.
End MappingNetwork.

(* ------------------------------------------------------------------ *)
(** ** [class Generator] *)

Module Generator.
Section Defs.

Context {R : Type} `{Scalar R}.
Variable param : nat -> list Z -> R.

Record t : Type := mk {
  conv_in : Conv2d R;
  encoder : list (ResBlock.t R);
  decoder : list (AdaResBlock.t R);
  conv_out : Sequential.t R
}.

Definition __init__ (img_size style_dim max_conv_dim : Z) : M t :=
  dim_in <~ lift (floordiv (2 ^ 14) img_size) ;;
  conv_in <~ Conv2d_init param 3 dim_in 3 1 1 true ;;
  n <~ InstanceNorm2d_init param dim_in true ;;
  c <~ Conv2d_init param dim_in 3 1 1 0 true ;;
  let conv_out := [LInstanceNorm2d n; LActivation (LeakyReLU 0.2%Q); LConv2d c] in
  lg <~ lift (int_log2 img_size) ;;
  let num_blocks := lg - 4 in
  ' (dim_in, dim_out, encoder, decoder) <~
      for_range (Z.to_nat num_blocks)
        (fun '(dim_in, _, encoder, decoder) =>
           let dim_out := Z.min (dim_in * 2) max_conv_dim in
           e <~ ResBlock.__init__ param dim_in dim_out 64 default_activ true true ;;
           d <~ AdaResBlock.__init__ param dim_out dim_in style_dim default_activ true ;;
           ret (dim_out, Some dim_out, encoder ++ [e], d :: decoder))
        (dim_in, None, [], []) ;;
  ' (encoder, decoder) <~
      for_range 2
        (fun '(encoder, decoder) =>
           d_out <~ lift (load_local "dim_out" dim_out) ;;
           e <~ ResBlock.__init__ param dim_in d_out 64 default_activ false true ;;
           d <~ AdaResBlock.__init__ param d_out dim_in style_dim default_activ false ;;
           ret (encoder ++ [e], d :: decoder))
        (encoder, decoder) ;;
  ret (mk conv_in encoder decoder conv_out).

Definition forward (self : t) (x s : Tensor R) : result (Tensor R) :=
  x <- Conv2d_forward (conv_in self) x ;;
  x <- foldM ResBlock.forward (encoder self) x ;;
  x <- foldM (fun block x => AdaResBlock.forward block x s) (decoder self) x ;;
  Sequential.forward (conv_out self) x.

End Defs.
Arguments t R : clear implicits.
End Generator.

(** The defaults of the constructors' arguments. *)
Definition default_img_size : Z := 256.
Definition default_style_dim : Z := 64.
Definition default_num_domains : Z := 2.
Definition default_max_conv_dim : Z := 512.
Definition default_latent_dim : Z := 16.

(* ------------------------------------------------------------------ *)
(** ** A scalar structure to run the definitions on

    Rationals, with the square root truncated to an integer.  It serves only
    to evaluate the networks on concrete inputs. *)

#[export] Instance Q_Scalar : Scalar Q := {|
  szero := 0%Q;
  sadd := Qplus;
  ssub := Qminus;
  smul := Qmult;
  sdiv := Qdiv;
  ssqrt := fun q => inject_Z (Z.sqrt (Qnum q / Zpos (Qden q)));
  sltb := fun a b => negb (Qle_bool b a);
  of_Z := inject_Z;
  of_Q := fun q => q
|}.

(** A tensor of the given shape filled with one value ([torch.full]). *)
Definition full {R : Type} (s : list Z) (v : R) : Tensor R :=
  {| shape := s; get := fun _ => v |}.

(** The parameters all zero. *)
Definition zero_params : nat -> list Z -> Q := fun _ _ => 0%Q.

(** The weights all zero, every bias equal to its own index. *)
Definition index_bias_params : nat -> list Z -> Q :=
  fun _ idx => match idx with [o] => inject_Z o | _ => 0%Q end.

(* ------------------------------------------------------------------ *)
(** ** Vocabulary of the statements *)

(** The call returns a tensor of shape [s]. *)
Definition returns_shape {R : Type} (r : result (Tensor R)) (s : list Z) : Prop :=
  exists t, r = Ok t /\ shape t = s.

(** [f] accepts every tensor of shape [s] and returns one of shape [s']. *)
Definition maps_shape {R : Type} (f : Tensor R -> result (Tensor R))
    (s s' : list Z) : Prop :=
  forall x, shape x = s -> returns_shape (f x) s'.

(** What a convolution built by [Conv2d_init cin cout k s p bias] looks like. *)
Definition conv_built {R : Type} (c : Conv2d R) (cin cout k s p : Z) (bias : bool) : Prop :=
  in_channels c = cin /\ out_channels c = cout /\ kernel_size c = k /\
  stride c = s /\ padding c = p /\
  (if bias then conv_bias c <> None else conv_bias c = None).

Definition linear_built {R : Type} (l : Linear R) (n_in n_out : Z) : Prop :=
  in_features l = n_in /\ out_features l = n_out.

Definition norm_built {R : Type} (m : InstanceNorm2d R) (c : Z) (affine : bool) : Prop :=
  num_features m = c /\ norm_eps m = 1e-5%Q /\
  (if affine then norm_affine m <> None else norm_affine m = None).

Definition adain_built {R : Type} (m : AdaptiveInstanceNorm.t R)
    (style_dim c : Z) : Prop :=
  norm_built (AdaptiveInstanceNorm.norm m) c false /\
  linear_built (AdaptiveInstanceNorm.fc m) style_dim (c * 2).

Definition opt_built {A : Type} (flag : bool) (o : option A) (P : A -> Prop) : Prop :=
  if flag then exists a, o = Some a /\ P a else o = None.

(** What [ResBlock(dim_in, dim_out, activ, downsample, normalize)] leaves in
    the attributes of the block. *)
Definition resblock_built {R : Type} (b : ResBlock.t R) (dim_in dim_out : Z)
    (a : Activation) (down nm : bool) : Prop :=
  ResBlock.activ b = a /\
  ResBlock.downsample b = down /\
  ResBlock.shortcut b = negb (dim_in =? dim_out) /\
  ResBlock.normalize b = nm /\
  conv_built (ResBlock.conv_1 b) dim_in dim_in 3 1 1 true /\
  conv_built (ResBlock.conv_2 b) dim_in dim_out 3 1 1 true /\
  opt_built nm (ResBlock.norm_1 b) (fun n => norm_built n dim_in true) /\
  opt_built nm (ResBlock.norm_2 b) (fun n => norm_built n dim_in true) /\
  opt_built (negb (dim_in =? dim_out)) (ResBlock.conv_1x1 b)
            (fun c => conv_built c dim_in dim_out 1 1 0 false).

(** What [AdaResBlock(dim_in, dim_out, style_dim, activ, upsample)] leaves. *)
Definition adablock_built {R : Type} (b : AdaResBlock.t R)
    (dim_in dim_out style_dim : Z) (a : Activation) (up : bool) : Prop :=
  AdaResBlock.activ b = a /\
  AdaResBlock.upsample b = up /\
  AdaResBlock.shortcut b = negb (dim_in =? dim_out) /\
  conv_built (AdaResBlock.conv_1 b) dim_in dim_out 3 1 1 true /\
  conv_built (AdaResBlock.conv_2 b) dim_out dim_out 3 1 1 true /\
  adain_built (AdaResBlock.norm_1 b) style_dim dim_in /\
  adain_built (AdaResBlock.norm_2 b) style_dim dim_out /\
  opt_built (negb (dim_in =? dim_out)) (AdaResBlock.conv_1x1 b)
            (fun c => conv_built c dim_in dim_out 1 1 0 false).

(** The channel width after [n] downsampling stages that start at width [d]:
    doubled at every stage, capped at [max_conv_dim]. *)
Fixpoint width_after (n : nat) (d max_conv_dim : Z) : Z :=
  match n with
  | O => d
  | S n' => width_after n' (Z.min (d * 2) max_conv_dim) max_conv_dim
  end.

Definition pow2 (n : nat) : Z := 2 ^ Z.of_nat n.

Definition halved (down : bool) (h : Z) : Z := if down then h / 2 else h.
Definition doubled (up : bool) (h : Z) : Z := if up then h * 2 else h.

(** The downsampling blocks that the loop of [Discriminator] and
    [StyleEncoder] appends, from width [d] on. *)
Fixpoint down_built {R : Type} (n : nat) (d max_conv_dim : Z)
    (bs : Sequential.t R) : Prop :=
  match n with
  | O => bs = []
  | S n' =>
      exists b bs',
        bs = LResBlock b :: bs' /\
        resblock_built b d (Z.min (d * 2) max_conv_dim) default_activ true false /\
        down_built n' (Z.min (d * 2) max_conv_dim) max_conv_dim bs'
  end.

(** The blocks that the first loop of [Generator] appends to the encoder
    ([E], in order) and puts in front of the decoder ([D], in order). *)
Fixpoint pyramid_built {R : Type} (n : nat) (d max_conv_dim style_dim : Z)
    (E : list (ResBlock.t R)) (D : list (AdaResBlock.t R)) : Prop :=
  match n with
  | O => E = [] /\ D = []
  | S n' =>
      exists e E' a D',
        E = e :: E' /\ D = D' ++ [a] /\
        resblock_built e d (Z.min (d * 2) max_conv_dim) default_activ true true /\
        adablock_built a (Z.min (d * 2) max_conv_dim) d style_dim default_activ true /\
        pyramid_built n' (Z.min (d * 2) max_conv_dim) max_conv_dim style_dim E' D'
  end.

(** A block seen from outside: the width it consumes, the width it emits,
    and whether it resamples. *)
Definition res_sig {R : Type} (b : ResBlock.t R) : Z * Z * bool :=
  (in_channels (ResBlock.conv_1 b), out_channels (ResBlock.conv_2 b),
   ResBlock.downsample b).

Definition ada_sig {R : Type} (b : AdaResBlock.t R) : Z * Z * bool :=
  (in_channels (AdaResBlock.conv_1 b), out_channels (AdaResBlock.conv_2 b),
   AdaResBlock.upsample b).

Definition mirror (s : Z * Z * bool) : Z * Z * bool :=
  let '(v, w, f) := s in (w, v, f).

(** The decoder block [a] undoes the encoder block [e]: it consumes what [e]
    emits, emits what [e] consumes, and upsamples exactly if [e] downsamples. *)
Definition mirrored {R : Type} (style_dim : Z) (e : ResBlock.t R)
    (a : AdaResBlock.t R) : Prop :=
  exists v w f,
    resblock_built e v w default_activ f true /\
    adablock_built a w v style_dim default_activ f.

(** The encoder the specification describes: [n] downsampling stages, the
    width doubled and capped at each, then two blocks at the bottleneck. *)
Fixpoint down_stages (n : nat) (d max_conv_dim : Z) : list (Z * Z * bool) :=
  match n with
  | O => []
  | S n' => (d, Z.min (d * 2) max_conv_dim, true)
            :: down_stages n' (Z.min (d * 2) max_conv_dim) max_conv_dim
  end.

Definition encoder_stages (n : nat) (d max_conv_dim : Z) : list (Z * Z * bool) :=
  let b := width_after n d max_conv_dim in
  down_stages n d max_conv_dim ++ [(b, b, false); (b, b, false)].

(** Every block consumes the width the block before it emits, from width
    [c] at the start to width [c_end] at the end. *)
Fixpoint chain_ok (c : Z) (sigs : list (Z * Z * bool)) (c_end : Z) : Prop :=
  match sigs with
  | [] => c = c_end
  | (i, o, _) :: rest => c = i /\ chain_ok o rest c_end
  end.

(** What [Generator(img_size, style_dim, max_conv_dim)] leaves in the
    attributes of the network, for the stem width [d0] = 2^14 // img_size and
    [n] = int(log2(img_size)) - 4 downsampling stages. *)
Definition generator_built {R : Type} (g : Generator.t R) (d0 : Z) (n : nat)
    (style_dim max_conv_dim : Z) : Prop :=
  exists E D e1 e2 a1 a2 nm c,
    conv_built (Generator.conv_in g) 3 d0 3 1 1 true /\
    Generator.encoder g = E ++ [e1; e2] /\
    Generator.decoder g = [a2; a1] ++ D /\
    pyramid_built n d0 max_conv_dim style_dim E D /\
    (let b := width_after n d0 max_conv_dim in
     resblock_built e1 b b default_activ false true /\
     resblock_built e2 b b default_activ false true /\
     adablock_built a1 b b style_dim default_activ false /\
     adablock_built a2 b b style_dim default_activ false) /\
    Generator.conv_out g
      = [LInstanceNorm2d nm; LActivation (LeakyReLU 0.2%Q); LConv2d c] /\
    norm_built nm d0 true /\
    conv_built c d0 3 1 1 0 true.

Definition discriminator_built {R : Type} (d : Discriminator.t R) (d0 : Z) (n : nat)
    (num_domains max_conv_dim : Z) : Prop :=
  exists c0 bs c1 c2,
    Discriminator.blocks d
      = [LConv2d c0] ++ bs ++
        [LActivation (LeakyReLU 0.2%Q); LConv2d c1;
         LActivation (LeakyReLU 0.2%Q); LConv2d c2] /\
    conv_built c0 3 d0 3 1 1 true /\
    down_built n d0 max_conv_dim bs /\
    (let b := width_after n d0 max_conv_dim in
     conv_built c1 b b 4 1 0 true /\
     conv_built c2 b num_domains 1 1 0 true).

Definition styleencoder_built {R : Type} (m : StyleEncoder.t R) (d0 : Z) (n : nat)
    (style_dim num_domains max_conv_dim : Z) : Prop :=
  exists c0 bs c1,
    StyleEncoder.shared m
      = [LConv2d c0] ++ bs ++
        [LActivation (LeakyReLU 0.2%Q); LConv2d c1; LActivation (LeakyReLU 0.2%Q)] /\
    conv_built c0 3 d0 3 1 1 true /\
    down_built n d0 max_conv_dim bs /\
    (let b := width_after n d0 max_conv_dim in
     conv_built c1 b b 4 1 0 true /\
     length (StyleEncoder.unshared m) = Z.to_nat num_domains /\
     Forall (fun l => linear_built l b style_dim) (StyleEncoder.unshared m)).

(** The per-domain selection the three [forward] methods end with:
    every head is run on [input], the outputs are stacked along a new axis 1,
    and example [i] keeps the output of head [y[i]]. *)
Definition heads_on {R : Type} `{Scalar R} (heads : list (Linear R))
    (input : Tensor R) (y : list Z) : result (Tensor R) :=
  outs <- mapM (fun head => Linear_forward head input) heads ;;
  stacked <- stack_dim1 outs ;;
  index2 stacked (batch_indices y) y.

(** *** The residual block as the specification words it *)

Section ResBlockSpec.

Context {R : Type} `{Scalar R}.

(** A stage that is present only when [flag] is set. *)
Definition optional (flag : bool) (stage : Tensor R -> result (Tensor R))
    (x : Tensor R) : result (Tensor R) :=
  if flag then stage x else Ok x.

(** Stages applied one after the other. *)
Definition pipeline (stages : list (Tensor R -> result (Tensor R)))
    (x : Tensor R) : result (Tensor R) :=
  foldM (fun stage x => stage x) stages x.

(** The learned tensors are those of the block [b]; everything else is what
    the sentence says. *)
Definition spec_residual (dim_in dim_out : Z) (down nm : bool) (b : ResBlock.t R)
    : Tensor R -> result (Tensor R) :=
  let instance_norm name o x :=
    n <- getattr name o ;;
    InstanceNorm2d_forward (mkInstanceNorm2d dim_in 1e-5%Q (norm_affine n)) x in
  let activation x := Ok (Activation_forward (LeakyReLU 0.2%Q) x) in
  let conv3x3 c_out c :=
    Conv2d_forward (mkConv2d dim_in c_out 3 1 1 (conv_weight c) (conv_bias c)) in
  pipeline
    [ optional nm (instance_norm "norm_1" (ResBlock.norm_1 b));
      activation;
      conv3x3 dim_in (ResBlock.conv_1 b);
      optional down (fun x => avg_pool2d x 2);
      optional nm (instance_norm "norm_2" (ResBlock.norm_2 b));
      activation;
      conv3x3 dim_out (ResBlock.conv_2 b) ].

Definition spec_shortcut (dim_in dim_out : Z) (down : bool) (b : ResBlock.t R)
    : Tensor R -> result (Tensor R) :=
  let projection x :=
    if dim_in =? dim_out then Ok x
    else c <- getattr "conv_1x1" (ResBlock.conv_1x1 b) ;;
         Conv2d_forward (mkConv2d dim_in dim_out 1 1 0 (conv_weight c) None) x in
  pipeline [ projection; optional down (fun x => avg_pool2d x 2) ].

Definition spec_forward (dim_in dim_out : Z) (down nm : bool) (b : ResBlock.t R)
    (x : Tensor R) : result (Tensor R) :=
  r <- spec_residual dim_in dim_out down nm b x ;;
  s <- spec_shortcut dim_in dim_out down b x ;;
  sum <- tadd r s ;;
  Ok (div_scalar sum (ssqrt (of_Z 2))).

End ResBlockSpec.

(** Image sizes for which the constructors are defined and the pyramids end
    where the rest of the network expects them.  The generator halves the
    image [int(log2(img_size)) - 4] times and doubles it as often, so that
    power of two has to divide [img_size]; the discriminator and the style
    encoder have to arrive at a 4 x 4 map, so [img_size] is a power of two.
    At most [2**14], so that the stem has at least one channel. *)
Definition generator_size (img_size : Z) : Prop :=
  32 <= img_size <= 2 ^ 14 /\ (2 ^ (Z.log2 img_size - 4) | img_size).

Definition pyramid_size (img_size : Z) : Prop :=
  8 <= img_size <= 2 ^ 14 /\ img_size = 2 ^ Z.log2 img_size.

(** The network a constructor returns when it starts from an empty parameter
    store, or [dflt] if it raises. *)
Definition constructed {A : Type} (m : M A) (dflt : A) : A :=
  match m 0%nat with
  | Ok (a, _) => a
  | Err _ => dflt
  end.

(** A style encoder for 512 x 512 images, the size at which the rows of
    the image are as wide as the heads' input. *)
Definition style_encoder_512 : StyleEncoder.t Q :=
  constructed (StyleEncoder.__init__ zero_params 512 64 2 512)
              (StyleEncoder.mk [] []).

(** A generator for 33 x 33 images. *)
Definition generator_33 : Generator.t Q :=
  constructed (Generator.__init__ zero_params 33 64 512)
              (Generator.mk (mkConv2d 0 0 0 0 0 (full [] 0%Q) None) [] [] []).

Definition shape_of {R : Type} (r : result (Tensor R)) : option (list Z) :=
  match r with
  | Ok t => Some (shape t)
  | Err _ => None
  end.

(** The default discriminator. *)
Definition discriminator_256 : Discriminator.t Q :=
  constructed (Discriminator.__init__ zero_params default_img_size
                 default_num_domains default_max_conv_dim)
              (Discriminator.mk []).

(* ------------------------------------------------------------------ *)
(** ** Vocabulary of the further properties *)

(** One head of the mapping network: three linear layers of width 512, each
    followed by a ReLU, and a linear layer to the style code. *)
Definition mapping_head_built {R : Type} (head : Sequential.t R) (style_dim : Z) : Prop :=
  exists l1 l2 l3 l4,
    head = [LLinear l1; LActivation ReLU; LLinear l2; LActivation ReLU;
            LLinear l3; LActivation ReLU; LLinear l4] /\
    linear_built l1 512 512 /\ linear_built l2 512 512 /\
    linear_built l3 512 512 /\ linear_built l4 512 style_dim.

(** The largest multiple of [p] that is at most [h]. *)
Definition round_down (h p : Z) : Z := h / p * p.

(* ================================================================== *)
(** * Properties *)

Unset Implicit Arguments.

Lemma pos_nonneg (x : Z) : 1 <= x -> 0 <= x.
Proof. lia. Qed.

(** ** The monads *)

Lemma bindM_ok {A B : Type} {m : M A} (k : A -> M B) {n a n'} :
  m n = Ok (a, n') -> bindM m k n = k a n'.
Proof. unfold bindM; intros ->; reflexivity. Qed.

Lemma bindM_assoc {A B C : Type} (m : M A) (f : A -> M B) (g : B -> M C) n :
  bindM (bindM m f) g n = bindM m (fun a => bindM (f a) g) n.
Proof. unfold bindM; destruct (m n) as [[a n']|e]; reflexivity. Qed.

Lemma bindM_ret {A B : Type} (a : A) (k : A -> M B) n : bindM (ret a) k n = k a n.
Proof. reflexivity. Qed.

Lemma bindM_inv {A B : Type} (m : M A) (k : A -> M B) n r :
  bindM m k n = Ok r -> exists a n', m n = Ok (a, n') /\ k a n' = Ok r.
Proof.
  unfold bindM; destruct (m n) as [[a n']|e]; [eauto | discriminate].
Qed.

Lemma bind_inv {A B : Type} (r : result A) (k : A -> result B) b :
  bind r k = Ok b -> exists a, r = Ok a /\ k a = Ok b.
Proof. destruct r; simpl; [eauto | discriminate]. Qed.

Lemma ret_inv {A : Type} (a b : A) n n' : ret a n = Ok (b, n') -> b = a /\ n' = n.
Proof. unfold ret; intros E; inversion E; auto. Qed.

Lemma foldM_app {A B : Type} (f : B -> A -> result A) l1 l2 a :
  foldM f (l1 ++ l2) a = bind (foldM f l1 a) (foldM f l2).
Proof.
  revert a; induction l1 as [|b l1 IH]; intros a; simpl; [reflexivity|].
  destruct (f b a); simpl; auto.
Qed.

Lemma for_range_S {S : Type} n (body : S -> M S) s :
  for_range (Datatypes.S n) body s = bindM (body s) (for_range n body).
Proof. reflexivity. Qed.

(** Run the first statement of a constructor with a lemma that says it
    succeeds. *)
Ltac step_with L :=
  let a := fresh "v" in let n := fresh "n" in
  let E := fresh "E" in let B := fresh "B" in
  destruct L as (a & n & E & B);
  rewrite (bindM_ok _ E); cbv beta.

(** ** Shapes *)

Lemma returns_shape_bind {R : Type} (r : result (Tensor R))
    (k : Tensor R -> result (Tensor R)) s s' :
  returns_shape r s ->
  (forall t, shape t = s -> returns_shape (k t) s') ->
  returns_shape (bind r k) s'.
Proof. intros (t & -> & Hs) Hk; simpl; auto. Qed.

Lemma maps_shape_app {R : Type} {B : Type} (f : B -> Tensor R -> result (Tensor R))
    l1 l2 s s' s'' :
  maps_shape (foldM f l1) s s' -> maps_shape (foldM f l2) s' s'' ->
  maps_shape (foldM f (l1 ++ l2)) s s''.
Proof.
  intros H1 H2 x Hx; rewrite foldM_app.
  eapply returns_shape_bind; [apply H1, Hx | apply H2].
Qed.

Lemma maps_shape_nil {R : Type} {B : Type} (f : B -> Tensor R -> result (Tensor R)) s :
  maps_shape (foldM f []) s s.
Proof. intros x Hx; exists x; auto. Qed.

Lemma maps_shape_one {R : Type} {B : Type} (f : B -> Tensor R -> result (Tensor R))
    b s s' :
  maps_shape (f b) s s' -> maps_shape (foldM f [b]) s s'.
Proof.
  intros Hb x Hx; simpl. destruct (Hb x Hx) as (t & -> & Ht); simpl; exists t; auto.
Qed.

Lemma bshape_rev_refl s : bshape_rev s s = Ok s.
Proof.
  induction s as [|d s IH]; simpl; [reflexivity|].
  unfold bdim; rewrite Z.eqb_refl; simpl; rewrite IH; reflexivity.
Qed.

Lemma broadcast_shapes_refl s : broadcast_shapes s s = Ok s.
Proof.
  unfold broadcast_shapes; rewrite bshape_rev_refl; simpl; rewrite rev_involutive.
  reflexivity.
Qed.

Lemma bdim_one_l d : bdim 1 d = Ok d.
Proof.
  unfold bdim; destruct (1 =? d) eqn:E; [apply Z.eqb_eq in E; subst|]; reflexivity.
Qed.

Lemma bdim_one_r d : bdim d 1 = Ok d.
Proof.
  unfold bdim; destruct (d =? 1) eqn:E; [reflexivity|]; reflexivity.
Qed.

Lemma bdim_refl d : bdim d d = Ok d.
Proof. unfold bdim; rewrite Z.eqb_refl; reflexivity. Qed.

Section ShapeLemmas.

Context {R : Type} `{Scalar R}.

Lemma tadd_same_shape (a b : Tensor R) s :
  shape a = s -> shape b = s -> returns_shape (tadd a b) s.
Proof.
  intros Ha Hb; unfold tadd, tbinop; rewrite Ha, Hb, broadcast_shapes_refl; simpl.
  eexists; split; reflexivity.
Qed.

Lemma Activation_forward_shape a (x : Tensor R) :
  shape (Activation_forward a x) = shape x.
Proof. destruct a; reflexivity. Qed.

Lemma conv_out_size_ok h k p : 0 <= h + 2 * p - k ->
  conv_out_size h k 1 p = Ok (h + 2 * p - k + 1).
Proof.
  intros Hh; unfold conv_out_size.
  destruct (h + 2 * p - k <? 0) eqn:E; [apply Z.ltb_lt in E; lia|].
  rewrite Z.div_1_r; reflexivity.
Qed.

Lemma has_outputs (c : Conv2d R) cout :
  out_channels c = cout -> 1 <= cout -> (out_channels c <? 1) = false.
Proof. intros -> Ho; apply Z.ltb_ge; exact Ho. Qed.

Lemma Conv2d_forward_shape (c : Conv2d R) cin cout k p bias (x : Tensor R) n h w :
  conv_built c cin cout k 1 p bias -> 1 <= cout ->
  shape x = [n; cin; h; w] ->
  0 <= h + 2 * p - k -> 0 <= w + 2 * p - k ->
  returns_shape (Conv2d_forward c x)
                [n; cout; h + 2 * p - k + 1; w + 2 * p - k + 1].
Proof.
  intros (Hi & Ho & Hk & Hs & Hp & _) Hc Hx Hh Hw.
  unfold Conv2d_forward; rewrite Hx, (has_outputs c cout Ho Hc), Hi, Z.eqb_refl, Hk, Hs, Hp.
  rewrite !conv_out_size_ok by assumption; simpl.
  eexists; split; [reflexivity|]; simpl; rewrite Ho; reflexivity.
Qed.

(** A convolution without output channels raises on every batch. *)
Lemma Conv2d_forward_no_outputs (c : Conv2d R) (x : Tensor R) n ch h w :
  shape x = [n; ch; h; w] -> out_channels c < 1 ->
  Conv2d_forward c x = Err RuntimeError.
Proof.
  intros Hx Ho; unfold Conv2d_forward; rewrite Hx.
  replace (out_channels c <? 1) with true by (symmetry; apply Z.ltb_lt; exact Ho).
  reflexivity.
Qed.

Lemma several_positions h w : 1 < h * w -> (h * w =? 1) = false.
Proof. intros Hhw; apply Z.eqb_neq; lia. Qed.

Lemma InstanceNorm2d_forward_shape (m : InstanceNorm2d R) c affine (x : Tensor R) n h w :
  norm_built m c affine -> shape x = [n; c; h; w] -> 1 < h * w ->
  returns_shape (InstanceNorm2d_forward m x) [n; c; h; w].
Proof.
  intros (Hc & _ & _) Hx Hhw; unfold InstanceNorm2d_forward; rewrite Hx.
  rewrite (several_positions h w Hhw).
  destruct (norm_affine m) as [[g bt]|].
  - rewrite Hc, Z.eqb_refl; eexists; split; reflexivity.
  - eexists; split; reflexivity.
Qed.

(** A normalisation raises on a map with a single spatial position. *)
Lemma InstanceNorm2d_forward_one_position (m : InstanceNorm2d R) (x : Tensor R) n c h w :
  shape x = [n; c; h; w] -> h * w = 1 ->
  InstanceNorm2d_forward m x = Err ValueError.
Proof.
  intros Hx Hhw; unfold InstanceNorm2d_forward; rewrite Hx, Hhw.
  destruct (norm_affine m) as [[g bt]|]; [|reflexivity].
  destruct (c =? num_features m); reflexivity.
Qed.

Lemma avg_pool2d_shape (x : Tensor R) n c h w :
  shape x = [n; c; h; w] -> 2 <= h -> 2 <= w ->
  returns_shape (avg_pool2d x 2) [n; c; h / 2; w / 2].
Proof.
  intros Hx Hh Hw; unfold avg_pool2d; rewrite Hx.
  destruct (h <? 2) eqn:E1; [apply Z.ltb_lt in E1; lia|].
  destruct (w <? 2) eqn:E2; [apply Z.ltb_lt in E2; lia|].
  simpl; eexists; split; reflexivity.
Qed.

Lemma interpolate_nearest_shape (x : Tensor R) n c h w :
  shape x = [n; c; h; w] ->
  returns_shape (interpolate_nearest x 2) [n; c; h * 2; w * 2].
Proof.
  intros Hx; unfold interpolate_nearest; rewrite Hx; eexists; split; reflexivity.
Qed.

Lemma Linear_forward_shape (l : Linear R) n_in n_out (x : Tensor R) pre :
  linear_built l n_in n_out -> shape x = pre ++ [n_in] ->
  returns_shape (Linear_forward l x) (pre ++ [n_out]).
Proof.
  intros (Hi & Ho) Hx; unfold Linear_forward.
  rewrite Hx, rev_app_distr; simpl; rewrite Hi, Z.eqb_refl.
  eexists; split; [reflexivity|]; simpl; rewrite rev_involutive, Ho; reflexivity.
Qed.

Lemma Linear_forward_bad_width (l : Linear R) (x : Tensor R) pre d :
  shape x = pre ++ [d] -> d <> in_features l ->
  Linear_forward l x = Err RuntimeError.
Proof.
  intros Hx Hd; unfold Linear_forward; rewrite Hx, rev_app_distr; simpl.
  destruct (d =? in_features l) eqn:E; [apply Z.eqb_eq in E; contradiction|].
  reflexivity.
Qed.

End ShapeLemmas.

(** ** Constructors succeed on non-negative widths and set what they say *)

Section InitLemmas.

Context {R : Type} `{Scalar R}.
Variable param : nat -> list Z -> R.

Lemma alloc_ok s n : Forall (fun d => 0 <= d) s ->
  alloc param s n = Ok ({| shape := s; get := param n |}, S n).
Proof.
  intros Hs; unfold alloc.
  replace (existsb (fun d => d <? 0) s) with false; [reflexivity|].
  symmetry; induction Hs as [|d s Hd _ IH]; simpl; [reflexivity|].
  rewrite IH, orb_false_r; apply Z.ltb_ge; assumption.
Qed.

Lemma alloc_negative s n d : In d s -> d < 0 -> alloc param s n = Err RuntimeError.
Proof.
  intros Hin Hd; unfold alloc.
  replace (existsb (fun d => d <? 0) s) with true; [reflexivity|].
  symmetry; apply existsb_exists; exists d; split; [assumption|].
  apply Z.ltb_lt; assumption.
Qed.

Lemma Conv2d_init_ok cin cout k s p bias n :
  0 <= cin -> 0 <= cout -> 0 <= k ->
  exists c n', Conv2d_init param cin cout k s p bias n = Ok (c, n') /\
               conv_built c cin cout k s p bias.
Proof.
  intros Hi Ho Hk; unfold Conv2d_init.
  rewrite (bindM_ok _ (alloc_ok [cout; cin; k; k] n ltac:(repeat constructor; assumption))).
  destruct bias.
  - rewrite (bindM_ok _ (a := Some {| shape := [cout]; get := param (S n) |})
                      (n' := S (S n))).
    + eexists _, _; split; [reflexivity|]; repeat split; simpl; discriminate.
    + rewrite (bindM_ok _ (alloc_ok [cout] (S n) ltac:(repeat constructor; assumption))).
      reflexivity.
  - eexists _, _; split; [reflexivity|]; repeat split.
Qed.

Lemma Conv2d_init_negative cin cout k s p bias n :
  cout < 0 -> Conv2d_init param cin cout k s p bias n = Err RuntimeError.
Proof.
  intros Ho; unfold Conv2d_init, bindM.
  rewrite (alloc_negative [cout; cin; k; k] n cout); simpl; auto.
Qed.

Lemma Linear_init_ok n_in n_out n :
  0 <= n_in -> 0 <= n_out ->
  exists l n', Linear_init param n_in n_out n = Ok (l, n') /\ linear_built l n_in n_out.
Proof.
  intros Hi Ho; unfold Linear_init.
  rewrite (bindM_ok _ (alloc_ok [n_out; n_in] n ltac:(repeat constructor; assumption))).
  rewrite (bindM_ok _ (alloc_ok [n_out] (S n) ltac:(repeat constructor; assumption))).
  eexists _, _; split; [reflexivity|]; split; reflexivity.
Qed.

Lemma InstanceNorm2d_init_ok c affine n :
  0 <= c ->
  exists m n', InstanceNorm2d_init param c affine n = Ok (m, n') /\ norm_built m c affine.
Proof.
  intros Hc; unfold InstanceNorm2d_init; destruct affine.
  - rewrite (bindM_ok _ (a := Some ({| shape := [c]; get := param n |},
                                    {| shape := [c]; get := param (S n) |}))
                      (n' := S (S n))).
    + eexists _, _; split; [reflexivity|]; repeat split; simpl; discriminate.
    + rewrite (bindM_ok _ (alloc_ok [c] n ltac:(repeat constructor; assumption))).
      rewrite (bindM_ok _ (alloc_ok [c] (S n) ltac:(repeat constructor; assumption))).
      reflexivity.
  - eexists _, _; split; [reflexivity|]; repeat split.
Qed.

Lemma AdaptiveInstanceNorm_init_ok style_dim c n :
  0 <= style_dim -> 0 <= c ->
  exists m n', AdaptiveInstanceNorm.__init__ param style_dim c n = Ok (m, n') /\
               adain_built m style_dim c.
Proof.
  intros Hs Hc; unfold AdaptiveInstanceNorm.__init__.
  step_with (InstanceNorm2d_init_ok c false n Hc).
  step_with (Linear_init_ok style_dim (c * 2) n0 Hs (ltac:(lia) : 0 <= c * 2)).
  eexists _, _; split; [reflexivity|]; split; assumption.
Qed.

(** The optional 1x1 convolution of both residual blocks. *)
Lemma conv_1x1_init_ok (flag : bool) dim_in dim_out n :
  0 <= dim_in -> 0 <= dim_out ->
  exists o n',
    (if flag
     then (c <~ Conv2d_init param dim_in dim_out 1 1 0 false ;; ret (Some c))
     else ret None) n = Ok (o, n') /\
    opt_built flag o (fun c => conv_built c dim_in dim_out 1 1 0 false).
Proof.
  intros Hi Ho; destruct flag.
  - step_with (Conv2d_init_ok dim_in dim_out 1 1 0 false n Hi Ho (ltac:(lia) : 0 <= 1)).
    eexists _, _; split; [reflexivity|]; exists v; auto.
  - eexists _, _; split; [reflexivity|]; reflexivity.
Qed.

Lemma ResBlock_init_ok dim_in dim_out style_dim a down nm n :
  0 <= dim_in -> 0 <= dim_out ->
  exists b n', ResBlock.__init__ param dim_in dim_out style_dim a down nm n = Ok (b, n') /\
               resblock_built b dim_in dim_out a down nm.
Proof.
  intros Hi Ho; unfold ResBlock.__init__.
  step_with (Conv2d_init_ok dim_in dim_in 3 1 1 true n Hi Hi (ltac:(lia) : 0 <= 3)).
  step_with (Conv2d_init_ok dim_in dim_out 3 1 1 true n0 Hi Ho (ltac:(lia) : 0 <= 3)).
  assert (Hn : exists p n',
             (if nm
              then (n1 <~ InstanceNorm2d_init param dim_in true ;;
                    n2 <~ InstanceNorm2d_init param dim_in true ;;
                    ret (Some n1, Some n2))
              else ret (None, None)) n1 = Ok (p, n') /\
             opt_built nm (fst p) (fun m => norm_built m dim_in true) /\
             opt_built nm (snd p) (fun m => norm_built m dim_in true)).
  { destruct nm.
    - step_with (InstanceNorm2d_init_ok dim_in true n1 Hi).
      step_with (InstanceNorm2d_init_ok dim_in true n2 Hi).
      eexists _, _; split; [reflexivity|]; split; eexists; split; simpl; eauto.
    - eexists _, _; split; [reflexivity|]; split; reflexivity. }
  destruct Hn as ([o1 o2] & n2 & En & Bn1 & Bn2); simpl in Bn1, Bn2.
  rewrite (bindM_ok _ En); cbv beta iota.
  step_with (conv_1x1_init_ok (negb (dim_in =? dim_out)) dim_in dim_out n2 Hi Ho).
  eexists _, _; split; [reflexivity|]; repeat split; simpl; try assumption;
    try apply B; try apply B0.
Qed.

Lemma AdaResBlock_init_ok dim_in dim_out style_dim a up n :
  0 <= dim_in -> 0 <= dim_out -> 0 <= style_dim ->
  exists b n', AdaResBlock.__init__ param dim_in dim_out style_dim a up n = Ok (b, n') /\
               adablock_built b dim_in dim_out style_dim a up.
Proof.
  intros Hi Ho Hs; unfold AdaResBlock.__init__.
  step_with (Conv2d_init_ok dim_in dim_out 3 1 1 true n Hi Ho (ltac:(lia) : 0 <= 3)).
  step_with (Conv2d_init_ok dim_out dim_out 3 1 1 true n0 Ho Ho (ltac:(lia) : 0 <= 3)).
  step_with (AdaptiveInstanceNorm_init_ok style_dim dim_in n1 Hs Hi).
  step_with (AdaptiveInstanceNorm_init_ok style_dim dim_out n2 Hs Ho).
  step_with (conv_1x1_init_ok (negb (dim_in =? dim_out)) dim_in dim_out n3 Hi Ho).
  eexists _, _; split; [reflexivity|]; repeat split; simpl; try assumption;
    try apply B; try apply B0; try apply B1; try apply B2.
Qed.

End InitLemmas.

(** ** [view], [chunk] and broadcasting on the shapes the networks meet *)

Lemma existsb_lt_m1_nonneg req :
  Forall (fun d => 0 <= d) req -> existsb (fun d => d <? -1) req = false.
Proof.
  induction 1 as [|d req Hd _ IH]; simpl; [reflexivity|].
  rewrite IH, orb_false_r; apply Z.ltb_ge; lia.
Qed.

Lemma count_m1_nonneg req :
  Forall (fun d => 0 <= d) req -> count_occ Z.eq_dec req (-1) = 0%nat.
Proof.
  induction 1 as [|d req Hd _ IH]; simpl; [reflexivity|].
  destruct (Z.eq_dec d (-1)); [lia | assumption].
Qed.

Lemma resolve_view_exact n req :
  Forall (fun d => 0 <= d) req -> numel req = n -> resolve_view n req = Ok req.
Proof.
  intros Hreq Hn; unfold resolve_view.
  rewrite existsb_lt_m1_nonneg, count_m1_nonneg by assumption.
  rewrite Hn, Z.eqb_refl; reflexivity.
Qed.

Lemma resolve_view_flatten d0 m :
  1 <= d0 -> resolve_view (d0 * m) [d0; -1] = Ok [d0; m].
Proof.
  intros Hd; unfold resolve_view; simpl existsb.
  replace (d0 <? -1) with false by (symmetry; apply Z.ltb_ge; lia).
  simpl; destruct (Z.eq_dec d0 (-1)) as [|_]; [lia|].
  replace (d0 =? -1) with false by (symmetry; apply Z.eqb_neq; lia).
  replace (d0 * 1) with d0 by lia.
  replace (d0 =? 0) with false by (symmetry; apply Z.eqb_neq; lia).
  rewrite Z.mul_comm, Z.mod_mul, Z.div_mul by lia; reflexivity.
Qed.

Section ViewLemmas.

Context {R : Type} `{Scalar R}.

Lemma view_exact (t : Tensor R) req :
  Forall (fun d => 0 <= d) req -> numel req = numel (shape t) ->
  view t req = Ok {| shape := req;
                     get := fun idx => get t (unravel (shape t) (ravel req idx)) |}.
Proof.
  intros Hreq Hn; unfold view; rewrite resolve_view_exact by assumption; reflexivity.
Qed.

Lemma view_flatten (t : Tensor R) d0 rest :
  shape t = d0 :: rest -> 1 <= d0 ->
  view t [d0; -1] =
    Ok {| shape := [d0; numel rest];
          get := fun idx => get t (unravel (shape t) (ravel [d0; numel rest] idx)) |}.
Proof.
  intros Ht Hd; unfold view; rewrite Ht; simpl numel.
  rewrite resolve_view_flatten by assumption; reflexivity.
Qed.

End ViewLemmas.

(** The offset of [[b; c]] in a [n x m] matrix, read back in [n x m x 1 x 1],
    and the other way round. *)
Lemma unravel_ravel_2_4 n m b c : 0 <= c < m ->
  unravel [n; m; 1; 1] (ravel [n; m] [b; c]) = [b; c; 0; 0].
Proof.
  intros Hc; cbn [unravel ravel numel fold_right].
  rewrite ?Z.mul_1_r, ?Z.add_0_r.
  replace (b * m + c) with (c + b * m) by lia.
  rewrite Z.div_add, Z.mod_add by lia.
  rewrite Z.div_small, Z.mod_small by lia.
  rewrite Z.add_0_l, Z.div_1_r, !Z.mod_1_r, Z.div_1_r; reflexivity.
Qed.

Lemma unravel_ravel_4_2 n m b c : 0 <= c < m ->
  unravel [n; m] (ravel [n; m; 1; 1] [b; c; 0; 0]) = [b; c].
Proof.
  intros Hc; cbn [unravel ravel numel fold_right].
  rewrite ?Z.mul_1_r, ?Z.mul_0_l, ?Z.add_0_r.
  replace (b * m + c) with (c + b * m) by lia.
  rewrite Z.div_add, Z.mod_add by lia.
  rewrite Z.div_small, Z.mod_small by lia.
  rewrite Z.add_0_l, Z.div_1_r; reflexivity.
Qed.

Lemma broadcast_shapes_spatial n c h w :
  broadcast_shapes [n; c; 1; 1] [n; c; h; w] = Ok [n; c; h; w].
Proof.
  unfold broadcast_shapes; simpl.
  rewrite !bdim_one_l, !bdim_refl; reflexivity.
Qed.

Lemma broadcast_shapes_spatial_r n c h w :
  broadcast_shapes [n; c; h; w] [n; c; 1; 1] = Ok [n; c; h; w].
Proof.
  unfold broadcast_shapes; simpl.
  rewrite !bdim_one_r, !bdim_refl; reflexivity.
Qed.

Lemma pick_in_range d i : 0 <= i < d -> (if d =? 1 then 0 else i) = i.
Proof.
  intros Hi; destruct (d =? 1) eqn:E; [apply Z.eqb_eq in E; lia | reflexivity].
Qed.

Lemma bindex_full n c h w b ch i j :
  0 <= b < n -> 0 <= ch < c -> 0 <= i < h -> 0 <= j < w ->
  bindex [n; c; h; w] [b; ch; i; j] = [b; ch; i; j].
Proof.
  intros; unfold bindex; simpl; rewrite !pick_in_range by assumption; reflexivity.
Qed.

Lemma bindex_spatial n c b ch i j :
  0 <= b < n -> 0 <= ch < c ->
  bindex [n; c; 1; 1] [b; ch; i; j] = [b; ch; 0; 0].
Proof.
  intros; unfold bindex; simpl; rewrite !pick_in_range by assumption; reflexivity.
Qed.

Lemma half_of_double c : (c * 2 + 1) / 2 = c.
Proof.
  replace (c * 2 + 1) with (1 + c * 2) by lia.
  rewrite Z.div_add by lia; reflexivity.
Qed.

(** ** Adaptive instance normalisation *)

Section AdaIN.

Context {R : Type} `{Scalar R}.

Lemma AdaptiveInstanceNorm_forward_spec (m : AdaptiveInstanceNorm.t R)
    style_dim c (x s : Tensor R) n h w :
  adain_built m style_dim c -> 0 <= n -> 0 <= c ->
  shape x = [n; c; h; w] -> shape s = [n; style_dim] -> 1 < h * w ->
  exists hfc out,
    Linear_forward (AdaptiveInstanceNorm.fc m) s = Ok hfc /\
    shape hfc = [n; c * 2] /\
    AdaptiveInstanceNorm.forward m x s = Ok out /\
    shape out = [n; c; h; w] /\
    forall b ch i j,
      0 <= b < n -> 0 <= ch < c -> 0 <= i < h -> 0 <= j < w ->
      get out [b; ch; i; j] =
        sadd (smul (sadd (of_Z 1) (get hfc [b; ch]))
                   (instance_normalize 1e-5%Q x h w [b; ch; i; j]))
             (get hfc [b; ch + c]).
Proof.
  intros ((Hnc & Heps & Haff) & Hfc) Hn Hc Hx Hs Hhw.
  destruct (Linear_forward_shape _ _ _ s [n] Hfc Hs) as (hfc & Efc & Shfc).
  simpl in Shfc.
  exists hfc; unfold AdaptiveInstanceNorm.forward.
  rewrite Efc; cbn [bind]; unfold size; rewrite Shfc; cbn [nth_error bind].
  rewrite view_exact;
    [| repeat constructor; lia | rewrite Shfc; cbn [numel fold_right]; lia].
  cbn [bind]; unfold chunk2_dim1; cbn [shape].
  replace (c * 2 =? 1) with false by (symmetry; apply Z.eqb_neq; lia).
  rewrite half_of_double; replace (c * 2 - c) with c by lia.
  cbn [bind]; unfold InstanceNorm2d_forward.
  rewrite Hx, Haff, Heps, (several_positions h w Hhw).
  cbn [bind]; unfold tmul, tbinop, add_scalar, tmap; cbn [shape].
  rewrite broadcast_shapes_spatial; cbn [bind].
  unfold tadd, tbinop; cbn [shape]; rewrite broadcast_shapes_spatial_r; cbn [bind].
  eexists; repeat split; try exact Shfc.
  intros b ch i j Hb Hch Hi Hj; cbn [get].
  rewrite (bindex_full n c h w) by assumption.
  rewrite (bindex_spatial n c) by assumption.
  cbn [get]; rewrite Shfc.
  rewrite (unravel_ravel_4_2 n (c * 2) b ch) by lia.
  rewrite (unravel_ravel_4_2 n (c * 2) b (ch + c)) by lia.
  rewrite ?(bindex_full n c h w) by assumption.
  reflexivity.
Qed.

Lemma AdaptiveInstanceNorm_forward_shape (m : AdaptiveInstanceNorm.t R)
    style_dim c (x s : Tensor R) n h w :
  adain_built m style_dim c -> 0 <= n -> 0 <= c ->
  shape x = [n; c; h; w] -> shape s = [n; style_dim] -> 1 < h * w ->
  returns_shape (AdaptiveInstanceNorm.forward m x s) [n; c; h; w].
Proof.
  intros Hm Hn Hc Hx Hs Hhw.
  destruct (AdaptiveInstanceNorm_forward_spec m style_dim c x s n h w Hm Hn Hc Hx Hs Hhw)
    as (_ & out & _ & _ & E & S & _).
  exists out; auto.
Qed.

End AdaIN.

(** ** The two residual blocks *)

Section Blocks.

Context {R : Type} `{Scalar R}.

Lemma conv3x3_shape (c : Conv2d R) cin cout bias (x : Tensor R) n h w :
  conv_built c cin cout 3 1 1 bias -> shape x = [n; cin; h; w] ->
  1 <= h -> 1 <= w -> 1 <= cout ->
  returns_shape (Conv2d_forward c x) [n; cout; h; w].
Proof.
  intros Hc Hx Hh Hw Ho.
  pose proof (Conv2d_forward_shape c cin cout 3 1 bias x n h w Hc Ho Hx) as P.
  replace (h + 2 * 1 - 3 + 1) with h in P by lia.
  replace (w + 2 * 1 - 3 + 1) with w in P by lia.
  apply P; lia.
Qed.

Lemma conv1x1_shape (c : Conv2d R) cin cout bias (x : Tensor R) n h w :
  conv_built c cin cout 1 1 0 bias -> shape x = [n; cin; h; w] ->
  1 <= h -> 1 <= w -> 1 <= cout ->
  returns_shape (Conv2d_forward c x) [n; cout; h; w].
Proof.
  intros Hc Hx Hh Hw Ho.
  pose proof (Conv2d_forward_shape c cin cout 1 0 bias x n h w Hc Ho Hx) as P.
  replace (h + 2 * 0 - 1 + 1) with h in P by lia.
  replace (w + 2 * 0 - 1 + 1) with w in P by lia.
  apply P; lia.
Qed.

Lemma conv4x4_shape (c : Conv2d R) cin cout bias (x : Tensor R) n h w :
  conv_built c cin cout 4 1 0 bias -> shape x = [n; cin; h; w] ->
  4 <= h -> 4 <= w -> 1 <= cout ->
  returns_shape (Conv2d_forward c x) [n; cout; h - 3; w - 3].
Proof.
  intros Hc Hx Hh Hw Ho.
  pose proof (Conv2d_forward_shape c cin cout 4 0 bias x n h w Hc Ho Hx) as P.
  replace (h + 2 * 0 - 4 + 1) with (h - 3) in P by lia.
  replace (w + 2 * 0 - 4 + 1) with (w - 3) in P by lia.
  apply P; lia.
Qed.

Lemma half_ge_1 h : 2 <= h -> 1 <= h / 2.
Proof. intros Hh; apply Z.div_le_lower_bound; lia. Qed.

(** The optional 1x1 projection of a shortcut. *)
Lemma projection_shape (o : option (Conv2d R)) dim_in dim_out (x : Tensor R) n h w :
  opt_built (negb (dim_in =? dim_out)) o
            (fun c => conv_built c dim_in dim_out 1 1 0 false) ->
  shape x = [n; dim_in; h; w] -> 1 <= h -> 1 <= w -> 1 <= dim_out ->
  returns_shape
    (x' <- (if negb (dim_in =? dim_out)
            then (c <- getattr "conv_1x1" o ;; Conv2d_forward c x)
            else Ok x) ;; Ok x')
    [n; dim_out; h; w].
Proof.
  intros Ho Hx Hh Hw Hd; unfold opt_built in Ho.
  destruct (dim_in =? dim_out) eqn:E; simpl in *.
  - apply Z.eqb_eq in E; subst dim_out; exists x; auto.
  - destruct Ho as (c & -> & Hc); simpl.
    eapply returns_shape_bind; [eapply conv1x1_shape; eauto|].
    intros t Ht; exists t; auto.
Qed.

Lemma optional_norm_shape nm (o : option (InstanceNorm2d R)) name c (x : Tensor R) n h w :
  opt_built nm o (fun m => norm_built m c true) ->
  shape x = [n; c; h; w] -> (nm = true -> 1 < h * w) ->
  returns_shape
    (if nm then (m <- getattr name o ;; InstanceNorm2d_forward m x) else Ok x)
    [n; c; h; w].
Proof.
  intros Ho Hx Hhw; destruct nm; simpl in *.
  - destruct Ho as (m & -> & Hm); simpl.
    eapply InstanceNorm2d_forward_shape; eauto.
  - exists x; auto.
Qed.

Lemma optional_pool_shape (down : bool) (x : Tensor R) n c h w :
  shape x = [n; c; h; w] -> (down = true -> 2 <= h /\ 2 <= w) ->
  returns_shape (if down then avg_pool2d x 2 else Ok x)
                [n; c; halved down h; halved down w].
Proof.
  intros Hx Hd; destruct down; simpl.
  - destruct (Hd eq_refl); apply avg_pool2d_shape; auto.
  - exists x; auto.
Qed.

Lemma halved_ge_1 down h : 1 <= h -> (down = true -> 2 <= h) -> 1 <= halved down h.
Proof.
  intros Hh Hd; destruct down; simpl; [apply half_ge_1; auto | assumption].
Qed.

Lemma halved_le down h : 0 <= h -> halved down h <= h.
Proof.
  intros Hh; destruct down; simpl; [|lia].
  apply Z.div_le_upper_bound; lia.
Qed.

(** More than one position after the optional pooling: more than one
    before it. *)
Lemma positions_before_pool down h w :
  1 <= h -> 1 <= w -> (down = true -> 2 <= h /\ 2 <= w) ->
  1 < halved down h * halved down w -> 1 < h * w.
Proof.
  intros Hh Hw Hd Hp.
  pose proof (halved_le down h ltac:(lia)).
  pose proof (halved_le down w ltac:(lia)).
  pose proof (halved_ge_1 down h Hh ltac:(intros E; apply Hd, E)).
  pose proof (halved_ge_1 down w Hw ltac:(intros E; apply Hd, E)).
  nia.
Qed.

Lemma ResBlock_residual_shape (b : ResBlock.t R) dim_in dim_out a down nm
    (x : Tensor R) n h w :
  resblock_built b dim_in dim_out a down nm ->
  shape x = [n; dim_in; h; w] -> 1 <= h -> 1 <= w ->
  (down = true -> 2 <= h /\ 2 <= w) ->
  1 <= dim_in -> 1 <= dim_out ->
  (nm = true -> 1 < halved down h * halved down w) ->
  returns_shape (ResBlock._residual b x) [n; dim_out; halved down h; halved down w].
Proof.
  intros (Ha & Hd & Hs & Hn & Hc1 & Hc2 & Hn1 & Hn2 & Hp) Hx Hh Hw Hdown Hi Ho Hpos.
  unfold ResBlock._residual; rewrite Hn, Hd.
  eapply returns_shape_bind.
  { eapply optional_norm_shape; eauto.
    intros E; apply (positions_before_pool down h w Hh Hw Hdown (Hpos E)). }
  intros x1 Hx1; cbv zeta.
  eapply returns_shape_bind.
  { apply (conv3x3_shape _ dim_in dim_in true _ n h w Hc1);
      [rewrite Activation_forward_shape; exact Hx1 | assumption | assumption
      | assumption]. }
  intros x2 Hx2.
  eapply returns_shape_bind; [eapply optional_pool_shape; eauto|].
  intros x3 Hx3.
  eapply returns_shape_bind; [eapply optional_norm_shape; eauto|].
  intros x4 Hx4.
  assert (1 <= halved down h) by (apply halved_ge_1; auto; intros E; apply Hdown, E).
  assert (1 <= halved down w) by (apply halved_ge_1; auto; intros E; apply Hdown, E).
  eapply returns_shape_bind.
  { apply (conv3x3_shape _ dim_in dim_out true _ n (halved down h) (halved down w) Hc2);
      [rewrite Activation_forward_shape; exact Hx4 | assumption | assumption
      | assumption]. }
  intros x5 Hx5; exists x5; auto.
Qed.

Lemma ResBlock_shortcut_shape (b : ResBlock.t R) dim_in dim_out a down nm
    (x : Tensor R) n h w :
  resblock_built b dim_in dim_out a down nm ->
  shape x = [n; dim_in; h; w] -> 1 <= h -> 1 <= w ->
  (down = true -> 2 <= h /\ 2 <= w) -> 1 <= dim_out ->
  returns_shape (ResBlock._shortcut b x) [n; dim_out; halved down h; halved down w].
Proof.
  intros (Ha & Hd & Hs & Hn & Hc1 & Hc2 & Hn1 & Hn2 & Hp) Hx Hh Hw Hdown Ho.
  unfold ResBlock._shortcut; rewrite Hs, Hd.
  destruct (projection_shape _ _ _ x n h w Hp Hx Hh Hw Ho) as (x1 & E1 & Hx1).
  apply bind_inv in E1; destruct E1 as (x1' & E1 & E1'); inversion E1'; subst x1'.
  rewrite E1; cbn [bind].
  eapply returns_shape_bind; [eapply optional_pool_shape; eauto|].
  intros x2 Hx2; exists x2; auto.
Qed.

Lemma ResBlock_forward_shape (b : ResBlock.t R) dim_in dim_out a down nm
    (x : Tensor R) n h w :
  resblock_built b dim_in dim_out a down nm ->
  shape x = [n; dim_in; h; w] -> 1 <= h -> 1 <= w ->
  (down = true -> 2 <= h /\ 2 <= w) ->
  1 <= dim_in -> 1 <= dim_out ->
  (nm = true -> 1 < halved down h * halved down w) ->
  returns_shape (ResBlock.forward b x) [n; dim_out; halved down h; halved down w].
Proof.
  intros Hb Hx Hh Hw Hdown Hi Ho Hpos; unfold ResBlock.forward.
  destruct (ResBlock_residual_shape b _ _ _ _ _ x n h w Hb Hx Hh Hw Hdown Hi Ho Hpos)
    as (out & -> & Hout).
  destruct (ResBlock_shortcut_shape b _ _ _ _ _ x n h w Hb Hx Hh Hw Hdown Ho)
    as (sc & -> & Hsc).
  cbn [bind].
  destruct (tadd_same_shape out sc _ Hout Hsc) as (sum & -> & Hsum).
  cbn [bind]; eexists; split; [reflexivity | exact Hsum].
Qed.

Lemma optional_upsample_shape (up : bool) (x : Tensor R) n c h w :
  shape x = [n; c; h; w] ->
  returns_shape (if up then interpolate_nearest x 2 else Ok x)
                [n; c; doubled up h; doubled up w].
Proof.
  intros Hx; destruct up; simpl.
  - apply interpolate_nearest_shape; auto.
  - exists x; auto.
Qed.

Lemma doubled_ge_1 up h : 1 <= h -> 1 <= doubled up h.
Proof. destruct up; simpl; lia. Qed.

Lemma positions_after_upsample up h w :
  1 <= h -> 1 <= w -> 1 < h * w -> 1 < doubled up h * doubled up w.
Proof. destruct up; simpl; nia. Qed.

Lemma AdaResBlock_residual_shape (b : AdaResBlock.t R) dim_in dim_out style_dim a up
    (x s : Tensor R) n h w :
  adablock_built b dim_in dim_out style_dim a up ->
  0 <= n -> 1 <= dim_in -> 1 <= dim_out ->
  shape x = [n; dim_in; h; w] -> shape s = [n; style_dim] -> 1 <= h -> 1 <= w ->
  1 < h * w ->
  returns_shape (AdaResBlock._residual b x s)
                [n; dim_out; doubled up h; doubled up w].
Proof.
  intros (Ha & Hu & Hs & Hc1 & Hc2 & Hn1 & Hn2 & Hp) Hn Hi Ho Hx Hst Hh Hw Hhw.
  unfold AdaResBlock._residual; rewrite Hu.
  eapply returns_shape_bind;
    [apply (AdaptiveInstanceNorm_forward_shape _ style_dim dim_in x s n h w);
       try assumption; lia|].
  intros x1 Hx1; cbv zeta.
  eapply returns_shape_bind.
  { apply (optional_upsample_shape up _ n dim_in h w).
    rewrite Activation_forward_shape; exact Hx1. }
  intros x2 Hx2.
  pose proof (doubled_ge_1 up h Hh); pose proof (doubled_ge_1 up w Hw).
  pose proof (positions_after_upsample up h w Hh Hw Hhw).
  eapply returns_shape_bind;
    [apply (conv3x3_shape _ dim_in dim_out true x2 n _ _ Hc1 Hx2); assumption|].
  intros x3 Hx3.
  eapply returns_shape_bind;
    [apply (AdaptiveInstanceNorm_forward_shape _ style_dim dim_out x3 s n
              (doubled up h) (doubled up w)); try assumption; lia|].
  intros x4 Hx4.
  eapply returns_shape_bind.
  { apply (conv3x3_shape _ dim_out dim_out true _ n (doubled up h) (doubled up w) Hc2);
      [rewrite Activation_forward_shape; exact Hx4 | assumption | assumption
      | assumption]. }
  intros x5 Hx5; exists x5; auto.
Qed.

Lemma AdaResBlock_shortcut_shape (b : AdaResBlock.t R) dim_in dim_out style_dim a up
    (x : Tensor R) n h w :
  adablock_built b dim_in dim_out style_dim a up ->
  shape x = [n; dim_in; h; w] -> 1 <= h -> 1 <= w -> 1 <= dim_out ->
  returns_shape (AdaResBlock._shortcut b x)
                [n; dim_out; doubled up h; doubled up w].
Proof.
  intros (Ha & Hu & Hs & Hc1 & Hc2 & Hn1 & Hn2 & Hp) Hx Hh Hw Ho.
  unfold AdaResBlock._shortcut; rewrite Hs, Hu.
  destruct (optional_upsample_shape up x n dim_in h w Hx) as (x1 & -> & Hx1).
  cbn [bind].
  apply (projection_shape _ _ _ x1 n _ _ Hp Hx1);
    [apply doubled_ge_1; assumption | apply doubled_ge_1; assumption | exact Ho].
Qed.

Lemma AdaResBlock_forward_shape (b : AdaResBlock.t R) dim_in dim_out style_dim a up
    (x s : Tensor R) n h w :
  adablock_built b dim_in dim_out style_dim a up ->
  0 <= n -> 1 <= dim_in -> 1 <= dim_out ->
  shape x = [n; dim_in; h; w] -> shape s = [n; style_dim] -> 1 <= h -> 1 <= w ->
  1 < h * w ->
  returns_shape (AdaResBlock.forward b x s)
                [n; dim_out; doubled up h; doubled up w].
Proof.
  intros Hb Hn Hi Ho Hx Hs Hh Hw Hhw; unfold AdaResBlock.forward.
  destruct (AdaResBlock_residual_shape b _ _ _ _ _ x s n h w Hb Hn Hi Ho Hx Hs Hh Hw Hhw)
    as (out & -> & Hout).
  destruct (AdaResBlock_shortcut_shape b _ _ _ _ _ x n h w Hb Hx Hh Hw Ho)
    as (sc & -> & Hsc).
  cbn [bind].
  destruct (tadd_same_shape out sc _ Hout Hsc) as (sum & -> & Hsum).
  cbn [bind]; eexists; split; [reflexivity | exact Hsum].
Qed.

End Blocks.

(** ** The loops of the constructors *)

Lemma pow2_S n : pow2 (S n) = pow2 n * 2.
Proof. unfold pow2; rewrite Nat2Z.inj_succ, Z.pow_succ_r by lia; lia. Qed.

Lemma pow2_pos n : 1 <= pow2 n.
Proof. unfold pow2; pose proof (Z.pow_pos_nonneg 2 (Z.of_nat n)); lia. Qed.

Lemma width_after_nonneg n d mx : 0 <= d -> 0 <= mx -> 0 <= width_after n d mx.
Proof.
  revert d; induction n as [|n IH]; intros d Hd Hm; simpl; [assumption|].
  apply IH; lia.
Qed.

Lemma width_after_pos n d mx : 1 <= d -> 1 <= mx -> 1 <= width_after n d mx.
Proof.
  revert d; induction n as [|n IH]; intros d Hd Hm; simpl; [assumption|].
  apply IH; lia.
Qed.

Section Loops.

Context {R : Type} `{Scalar R}.
Variable param : nat -> list Z -> R.

(** The loop of [Discriminator.__init__] and [StyleEncoder.__init__]. *)
Lemma down_loop_ok max_conv_dim n : forall d o (blocks : Sequential.t R) st,
  0 <= d -> 0 <= max_conv_dim ->
  exists bs st',
    for_range n
      (fun '(dim_in, _, blocks) =>
         let dim_out := Z.min (dim_in * 2) max_conv_dim in
         b <~ ResBlock.__init__ param dim_in dim_out 64 default_activ true false ;;
         ret (dim_out, Some dim_out, blocks ++ [LResBlock b]))
      (d, o, blocks) st
    = Ok ((width_after n d max_conv_dim,
           match n with O => o | S _ => Some (width_after n d max_conv_dim) end,
           blocks ++ bs), st') /\
    down_built n d max_conv_dim bs.
Proof.
  induction n as [|n IH]; intros d o blocks st Hd Hm.
  - exists [], st; rewrite app_nil_r; split; reflexivity.
  - rewrite for_range_S.
    destruct (ResBlock_init_ok param d (Z.min (d * 2) max_conv_dim) 64
                default_activ true false st Hd ltac:(lia)) as (b & st1 & E & B).
    rewrite (bindM_ok _ (a := (Z.min (d * 2) max_conv_dim,
                               Some (Z.min (d * 2) max_conv_dim),
                               blocks ++ [LResBlock b])) (n' := st1));
      [| cbv beta iota zeta; rewrite (bindM_ok _ E); reflexivity].
    destruct (IH (Z.min (d * 2) max_conv_dim) (Some (Z.min (d * 2) max_conv_dim))
                 (blocks ++ [LResBlock b]) st1 ltac:(lia) Hm) as (bs & st' & E' & B').
    exists (LResBlock b :: bs), st'; split.
    + refine (eq_trans E' _); rewrite <- app_assoc; simpl. destruct n; reflexivity.
    + exists b, bs; auto.
Qed.

(** The first loop of [Generator.__init__]. *)
Lemma pyramid_loop_ok max_conv_dim style_dim n :
  forall d o (enc : list (ResBlock.t R)) (dec : list (AdaResBlock.t R)) st,
  0 <= d -> 0 <= max_conv_dim -> 0 <= style_dim ->
  exists E D st',
    for_range n
      (fun '(dim_in, _, encoder, decoder) =>
         let dim_out := Z.min (dim_in * 2) max_conv_dim in
         e <~ ResBlock.__init__ param dim_in dim_out 64 default_activ true true ;;
         d <~ AdaResBlock.__init__ param dim_out dim_in style_dim default_activ true ;;
         ret (dim_out, Some dim_out, encoder ++ [e], d :: decoder))
      (d, o, enc, dec) st
    = Ok ((width_after n d max_conv_dim,
           match n with O => o | S _ => Some (width_after n d max_conv_dim) end,
           enc ++ E, D ++ dec), st') /\
    pyramid_built n d max_conv_dim style_dim E D.
Proof.
  induction n as [|n IH]; intros d o enc dec st Hd Hm Hs.
  - exists [], [], st; rewrite app_nil_r; split; [reflexivity | split; reflexivity].
  - rewrite for_range_S.
    destruct (ResBlock_init_ok param d (Z.min (d * 2) max_conv_dim) 64
                default_activ true true st Hd ltac:(lia)) as (e & st1 & Ee & Be).
    destruct (AdaResBlock_init_ok param (Z.min (d * 2) max_conv_dim) d style_dim
                default_activ true st1 ltac:(lia) Hd Hs) as (a & st2 & Ea & Ba).
    rewrite (bindM_ok _ (a := (Z.min (d * 2) max_conv_dim,
                               Some (Z.min (d * 2) max_conv_dim),
                               enc ++ [e], a :: dec)) (n' := st2));
      [| cbv beta iota zeta; rewrite (bindM_ok _ Ee), (bindM_ok _ Ea); reflexivity].
    destruct (IH (Z.min (d * 2) max_conv_dim) (Some (Z.min (d * 2) max_conv_dim))
                 (enc ++ [e]) (a :: dec) st2 ltac:(lia) Hm Hs)
      as (E & D & st' & E' & B').
    exists (e :: E), (D ++ [a]), st'; split.
    + refine (eq_trans E' _); rewrite <- !app_assoc; simpl. destruct n; reflexivity.
    + exists e, E, a, D; auto.
Qed.

End Loops.

(** ** What the pyramids do to shapes *)

Section Pyramids.

Context {R : Type} `{Scalar R}.

Lemma down_built_shape max_conv_dim n : forall d (bs : Sequential.t R) B h w,
  down_built n d max_conv_dim bs -> 1 <= h -> 1 <= w ->
  1 <= d -> 1 <= max_conv_dim ->
  maps_shape (Sequential.forward bs)
             [B; d; h * pow2 n; w * pow2 n]
             [B; width_after n d max_conv_dim; h; w].
Proof.
  induction n as [|n IH]; intros d bs B h w Hb Hh Hw Hd Hm.
  - simpl in Hb; subst bs; change (pow2 0) with 1; rewrite !Z.mul_1_r.
    exact (maps_shape_nil Sequential.Layer_forward _).
  - destruct Hb as (b & bs' & -> & Bb & Bbs).
    intros x Hx; unfold Sequential.forward; cbn [foldM Sequential.Layer_forward].
    pose proof (pow2_pos n) as Hp.
    eapply returns_shape_bind.
    + apply (ResBlock_forward_shape b _ _ _ _ _ x B _ _ Bb Hx);
        rewrite ?pow2_S; try nia; try lia; discriminate.
    + intros t Ht; simpl width_after.
      apply (IH _ bs' B h w Bbs Hh Hw); [lia | lia |].
      rewrite Ht; unfold halved.
      rewrite !pow2_S, !Z.mul_assoc, !Z.div_mul by lia; reflexivity.
Qed.

Lemma pyramid_built_encoder max_conv_dim style_dim n :
  forall d (E : list (ResBlock.t R)) D B h w,
  pyramid_built n d max_conv_dim style_dim E D -> 1 <= h -> 1 <= w ->
  1 <= d -> 1 <= max_conv_dim -> 1 < h * w ->
  maps_shape (foldM ResBlock.forward E)
             [B; d; h * pow2 n; w * pow2 n]
             [B; width_after n d max_conv_dim; h; w].
Proof.
  induction n as [|n IH]; intros d E D B h w Hb Hh Hw Hd Hm Hhw.
  - destruct Hb as [-> _]; change (pow2 0) with 1; rewrite !Z.mul_1_r.
    apply maps_shape_nil.
  - destruct Hb as (e & E' & a & D' & -> & -> & Be & Ba & Bp).
    intros x Hx; cbn [foldM].
    pose proof (pow2_pos n) as Hp.
    eapply returns_shape_bind.
    + apply (ResBlock_forward_shape e _ _ _ _ _ x B _ _ Be Hx);
        rewrite ?pow2_S; try nia; try lia.
      intros _; unfold halved.
      rewrite !Z.mul_assoc, !Z.div_mul by lia; nia.
    + intros t Ht; simpl width_after.
      apply (IH _ E' D' B h w Bp Hh Hw); [lia | lia | exact Hhw |].
      rewrite Ht; unfold halved.
      rewrite !pow2_S, !Z.mul_assoc, !Z.div_mul by lia; reflexivity.
Qed.

Lemma pyramid_built_decoder max_conv_dim style_dim n :
  forall d (E : list (ResBlock.t R)) D (s : Tensor R) B h w,
  pyramid_built n d max_conv_dim style_dim E D ->
  1 <= d -> 1 <= max_conv_dim -> 0 <= B -> shape s = [B; style_dim] ->
  1 <= h -> 1 <= w -> 1 < h * w ->
  maps_shape (foldM (fun block x => AdaResBlock.forward block x s) D)
             [B; width_after n d max_conv_dim; h; w]
             [B; d; h * pow2 n; w * pow2 n].
Proof.
  induction n as [|n IH]; intros d E D s B h w Hb Hd Hm HB Hs Hh Hw Hhw.
  - destruct Hb as [_ ->]; change (pow2 0) with 1; rewrite !Z.mul_1_r.
    apply maps_shape_nil.
  - destruct Hb as (e & E' & a & D' & -> & -> & Be & Ba & Bp).
    pose proof (pow2_pos n) as Hp.
    eapply maps_shape_app.
    + simpl width_after.
      apply (IH _ E' D' s B h w Bp); auto; lia.
    + apply maps_shape_one; intros x Hx.
      pose proof (AdaResBlock_forward_shape a _ _ _ _ _ x s B _ _ Ba HB
                    ltac:(lia) Hd Hx Hs ltac:(nia) ltac:(nia) ltac:(nia)) as P.
      unfold doubled in P; rewrite !pow2_S, !Z.mul_assoc; exact P.
Qed.

End Pyramids.

(** ** The constructors of the networks *)

Lemma lift_ok {A : Type} (r : result A) a n : r = Ok a -> lift r n = Ok (a, n).
Proof. intros ->; reflexivity. Qed.

Lemma floordiv_ok a b : b <> 0 -> floordiv a b = Ok (a / b).
Proof.
  intros Hb; unfold floordiv.
  destruct (b =? 0) eqn:E; [apply Z.eqb_eq in E; contradiction | reflexivity].
Qed.

Lemma int_log2_ok n : 1 <= n -> int_log2 n = Ok (Z.log2 n).
Proof.
  intros Hn; unfold int_log2.
  destruct (n =? 0) eqn:E; [apply Z.eqb_eq in E; lia|].
  destruct (n <? 0) eqn:E'; [apply Z.ltb_lt in E'; lia | reflexivity].
Qed.

Lemma stem_width_nonneg img : 1 <= img -> 0 <= 2 ^ 14 / img.
Proof. intros Hi; apply Z.div_pos; lia. Qed.

Lemma stem_width_pos img : 1 <= img <= 2 ^ 14 -> 1 <= 2 ^ 14 / img.
Proof.
  change (2 ^ 14) with 16384; intros [Hlo Hhi].
  apply Z.div_le_lower_bound; lia.
Qed.

Lemma div_pos_neg a b : 0 < a -> b < 0 -> a / b < 0.
Proof.
  intros Ha Hb.
  pose proof (Z.div_mod a b ltac:(lia)).
  pose proof (Z.mod_neg_bound a b Hb).
  nia.
Qed.

Ltac step_lift L := rewrite (bindM_ok _ (lift_ok _ _ _ L)); cbv beta.

Section NetworkInit.

Context {R : Type} `{Scalar R}.
Variable param : nat -> list Z -> R.

(** One turn of the second loop of [Generator.__init__], once the first loop
    has left [dim_in = dim_out = b]. *)
Lemma bottleneck_step_ok b style_dim (enc : list (ResBlock.t R))
    (dec : list (AdaResBlock.t R)) st :
  0 <= b -> 0 <= style_dim ->
  exists e a st',
    (d_out <~ lift (load_local "dim_out" (Some b)) ;;
     e <~ ResBlock.__init__ param b d_out 64 default_activ false true ;;
     d <~ AdaResBlock.__init__ param d_out b style_dim default_activ false ;;
     ret (enc ++ [e], d :: dec)) st
    = Ok ((enc ++ [e], a :: dec), st') /\
    resblock_built e b b default_activ false true /\
    adablock_built a b b style_dim default_activ false.
Proof.
  intros Hb Hs.
  step_lift (eq_refl : load_local "dim_out" (Some b) = Ok b).
  step_with (ResBlock_init_ok param b b 64 default_activ false true st Hb Hb).
  step_with (AdaResBlock_init_ok param b b style_dim default_activ false n Hb Hb Hs).
  exists v, v0, n0; auto.
Qed.

Lemma Generator_init_ok img_size style_dim max_conv_dim st :
  1 <= img_size -> 1 <= Z.log2 img_size - 4 ->
  0 <= style_dim -> 0 <= max_conv_dim ->
  exists g st',
    Generator.__init__ param img_size style_dim max_conv_dim st = Ok (g, st') /\
    generator_built g (2 ^ 14 / img_size) (Z.to_nat (Z.log2 img_size - 4))
                    style_dim max_conv_dim.
Proof.
  intros Hi Hn Hs Hm; unfold Generator.__init__.
  pose proof (stem_width_nonneg img_size Hi) as Hd.
  step_lift (floordiv_ok (2 ^ 14) img_size ltac:(lia)).
  step_with (Conv2d_init_ok param 3 (2 ^ 14 / img_size) 3 1 1 true st
               ltac:(lia) Hd ltac:(lia)).
  step_with (InstanceNorm2d_init_ok param (2 ^ 14 / img_size) true n Hd).
  step_with (Conv2d_init_ok param (2 ^ 14 / img_size) 3 1 1 0 true n0
               Hd ltac:(lia) ltac:(lia)).
  step_lift (int_log2_ok img_size Hi).
  cbv zeta.
  destruct (Z.to_nat (Z.log2 img_size - 4)) as [|k] eqn:Ek; [lia|].
  destruct (pyramid_loop_ok param max_conv_dim style_dim (S k)
              (2 ^ 14 / img_size) None [] [] n1 Hd Hm Hs)
    as (Es & Ds & st1 & El & Bl).
  rewrite (bindM_ok _ El); cbv beta iota.
  set (b := width_after (S k) (2 ^ 14 / img_size) max_conv_dim) in *.
  assert (Hb : 0 <= b) by (apply width_after_nonneg; assumption).
  rewrite !for_range_S; cbn [for_range].
  destruct (bottleneck_step_ok b style_dim ([] ++ Es) (Ds ++ []) st1 Hb Hs)
    as (e1 & a1 & st2 & Eq1 & Be1 & Ba1).
  rewrite bindM_assoc, (bindM_ok _ Eq1); cbv beta iota.
  rewrite bindM_assoc.
  destruct (bottleneck_step_ok b style_dim (([] ++ Es) ++ [e1]) (a1 :: Ds ++ []) st2 Hb Hs)
    as (e2 & a2 & st3 & Eq2 & Be2 & Ba2).
  rewrite (bindM_ok _ Eq2); cbv beta iota.
  rewrite bindM_ret; cbv beta iota.
  eexists _, _; split; [reflexivity|].
  exists Es, Ds, e1, e2, a1, a2, v0, v1; cbn [Generator.conv_in Generator.encoder
    Generator.decoder Generator.conv_out].
  rewrite app_nil_r, <- app_assoc; simpl app.
  exact (conj B (conj eq_refl (conj eq_refl (conj Bl
           (conj (conj Be1 (conj Be2 (conj Ba1 Ba2)))
                 (conj eq_refl (conj B0 B1))))))).
Qed.

Lemma Generator_init_unbound img_size style_dim max_conv_dim st :
  1 <= img_size -> Z.log2 img_size - 4 < 1 ->
  Generator.__init__ param img_size style_dim max_conv_dim st
  = Err (UnboundLocalError "dim_out").
Proof.
  intros Hi Hn; unfold Generator.__init__.
  pose proof (stem_width_nonneg img_size Hi) as Hd.
  step_lift (floordiv_ok (2 ^ 14) img_size ltac:(lia)).
  step_with (Conv2d_init_ok param 3 (2 ^ 14 / img_size) 3 1 1 true st
               ltac:(lia) Hd ltac:(lia)).
  step_with (InstanceNorm2d_init_ok param (2 ^ 14 / img_size) true n Hd).
  step_with (Conv2d_init_ok param (2 ^ 14 / img_size) 3 1 1 0 true n0
               Hd ltac:(lia) ltac:(lia)).
  step_lift (int_log2_ok img_size Hi).
  cbv zeta.
  replace (Z.to_nat (Z.log2 img_size - 4)) with 0%nat by lia.
  reflexivity.
Qed.

Lemma Generator_init_nonpositive img_size style_dim max_conv_dim st :
  img_size <= 0 ->
  is_ok (Generator.__init__ param img_size style_dim max_conv_dim st) = false.
Proof.
  intros Hi; unfold Generator.__init__.
  destruct (Z.eq_dec img_size 0) as [->|Hz]; [reflexivity|].
  step_lift (floordiv_ok (2 ^ 14) img_size Hz).
  unfold bindM at 1.
  rewrite Conv2d_init_negative; [reflexivity|].
  apply div_pos_neg; lia.
Qed.

Lemma Discriminator_init_ok img_size num_domains max_conv_dim st :
  1 <= img_size -> 1 <= Z.log2 img_size - 2 ->
  0 <= num_domains -> 0 <= max_conv_dim ->
  exists d st',
    Discriminator.__init__ param img_size num_domains max_conv_dim st = Ok (d, st') /\
    discriminator_built d (2 ^ 14 / img_size) (Z.to_nat (Z.log2 img_size - 2))
                        num_domains max_conv_dim.
Proof.
  intros Hi Hn Hs Hm; unfold Discriminator.__init__.
  pose proof (stem_width_nonneg img_size Hi) as Hd.
  step_lift (floordiv_ok (2 ^ 14) img_size ltac:(lia)).
  step_with (Conv2d_init_ok param 3 (2 ^ 14 / img_size) 3 1 1 true st
               ltac:(lia) Hd ltac:(lia)).
  step_lift (int_log2_ok img_size Hi).
  cbv zeta.
  destruct (Z.to_nat (Z.log2 img_size - 2)) as [|k] eqn:Ek; [lia|].
  destruct (down_loop_ok param max_conv_dim (S k)
              (2 ^ 14 / img_size) None [LConv2d v] n Hd Hm)
    as (bs & st1 & El & Bl).
  rewrite (bindM_ok _ El); cbv beta iota.
  set (b := width_after (S k) (2 ^ 14 / img_size) max_conv_dim) in *.
  assert (Hb : 0 <= b) by (apply width_after_nonneg; assumption).
  step_lift (eq_refl : load_local "dim_out" (Some b) = Ok b).
  step_with (Conv2d_init_ok param b b 4 1 0 true st1 Hb Hb ltac:(lia)).
  step_with (Conv2d_init_ok param b num_domains 1 1 0 true n0 Hb Hs ltac:(lia)).
  eexists _, _; split; [reflexivity|].
  exists v, bs, v0, v1; cbn [Discriminator.blocks].
  rewrite <- !app_assoc; simpl app.
  exact (conj eq_refl (conj B (conj Bl (conj B0 B1)))).
Qed.

Lemma Discriminator_init_unbound img_size num_domains max_conv_dim st :
  1 <= img_size -> Z.log2 img_size - 2 < 1 ->
  Discriminator.__init__ param img_size num_domains max_conv_dim st
  = Err (UnboundLocalError "dim_out").
Proof.
  intros Hi Hn; unfold Discriminator.__init__.
  pose proof (stem_width_nonneg img_size Hi) as Hd.
  step_lift (floordiv_ok (2 ^ 14) img_size ltac:(lia)).
  step_with (Conv2d_init_ok param 3 (2 ^ 14 / img_size) 3 1 1 true st
               ltac:(lia) Hd ltac:(lia)).
  step_lift (int_log2_ok img_size Hi).
  cbv zeta.
  replace (Z.to_nat (Z.log2 img_size - 2)) with 0%nat by lia.
  reflexivity.
Qed.

Lemma Discriminator_init_nonpositive img_size num_domains max_conv_dim st :
  img_size <= 0 ->
  is_ok (Discriminator.__init__ param img_size num_domains max_conv_dim st) = false.
Proof.
  intros Hi; unfold Discriminator.__init__.
  destruct (Z.eq_dec img_size 0) as [->|Hz]; [reflexivity|].
  step_lift (floordiv_ok (2 ^ 14) img_size Hz).
  unfold bindM at 1.
  rewrite Conv2d_init_negative; [reflexivity|].
  apply div_pos_neg; lia.
Qed.

(** The loop that builds the heads of [StyleEncoder]. *)
Lemma heads_loop_ok d style_dim n : forall (acc : list (Linear R)) st,
  0 <= d -> 0 <= style_dim ->
  exists ls st',
    for_range n
      (fun unshared => l <~ Linear_init param d style_dim ;; ret (unshared ++ [l]))
      acc st
    = Ok (acc ++ ls, st') /\
    length ls = n /\ Forall (fun l => linear_built l d style_dim) ls.
Proof.
  induction n as [|n IH]; intros acc st Hd Hs.
  - exists [], st; rewrite app_nil_r; repeat split; constructor.
  - destruct (Linear_init_ok param d style_dim st Hd Hs) as (l & st1 & El & Bl).
    destruct (IH (acc ++ [l]) st1 Hd Hs) as (ls & st' & E' & Hlen & Hall).
    exists (l :: ls), st'; split; [|split].
    + rewrite for_range_S, bindM_assoc, (bindM_ok _ El); cbv beta.
      rewrite bindM_ret; refine (eq_trans E' _); rewrite <- app_assoc; reflexivity.
    + simpl; congruence.
    + constructor; assumption.
Qed.

Lemma StyleEncoder_init_ok img_size style_dim num_domains max_conv_dim st :
  1 <= img_size -> 1 <= Z.log2 img_size - 2 ->
  0 <= style_dim -> 0 <= num_domains -> 0 <= max_conv_dim ->
  exists m st',
    StyleEncoder.__init__ param img_size style_dim num_domains max_conv_dim st
    = Ok (m, st') /\
    styleencoder_built m (2 ^ 14 / img_size) (Z.to_nat (Z.log2 img_size - 2))
                       style_dim num_domains max_conv_dim.
Proof.
  intros Hi Hn Hs Hnd Hm; unfold StyleEncoder.__init__.
  pose proof (stem_width_nonneg img_size Hi) as Hd.
  step_lift (floordiv_ok (2 ^ 14) img_size ltac:(lia)).
  step_with (Conv2d_init_ok param 3 (2 ^ 14 / img_size) 3 1 1 true st
               ltac:(lia) Hd ltac:(lia)).
  step_lift (int_log2_ok img_size Hi).
  cbv zeta.
  destruct (Z.to_nat (Z.log2 img_size - 2)) as [|k] eqn:Ek; [lia|].
  destruct (down_loop_ok param max_conv_dim (S k)
              (2 ^ 14 / img_size) None [LConv2d v] n Hd Hm)
    as (bs & st1 & El & Bl).
  rewrite (bindM_ok _ El); cbv beta iota.
  set (b := width_after (S k) (2 ^ 14 / img_size) max_conv_dim) in *.
  assert (Hb : 0 <= b) by (apply width_after_nonneg; assumption).
  step_lift (eq_refl : load_local "dim_out" (Some b) = Ok b).
  step_with (Conv2d_init_ok param b b 4 1 0 true st1 Hb Hb ltac:(lia)).
  destruct (heads_loop_ok b style_dim (Z.to_nat num_domains) [] n0 Hb Hs)
    as (ls & st2 & Eh & Hlen & Hall).
  rewrite (bindM_ok _ Eh); cbv beta.
  eexists _, _; split; [reflexivity|].
  exists v, bs, v0; cbn [StyleEncoder.shared StyleEncoder.unshared].
  rewrite <- !app_assoc; simpl app.
  exact (conj eq_refl (conj B (conj Bl (conj B0 (conj Hlen Hall))))).
Qed.

Lemma StyleEncoder_init_unbound img_size style_dim num_domains max_conv_dim st :
  1 <= img_size -> Z.log2 img_size - 2 < 1 ->
  StyleEncoder.__init__ param img_size style_dim num_domains max_conv_dim st
  = Err (UnboundLocalError "dim_out").
Proof.
  intros Hi Hn; unfold StyleEncoder.__init__.
  pose proof (stem_width_nonneg img_size Hi) as Hd.
  step_lift (floordiv_ok (2 ^ 14) img_size ltac:(lia)).
  step_with (Conv2d_init_ok param 3 (2 ^ 14 / img_size) 3 1 1 true st
               ltac:(lia) Hd ltac:(lia)).
  step_lift (int_log2_ok img_size Hi).
  cbv zeta.
  replace (Z.to_nat (Z.log2 img_size - 2)) with 0%nat by lia.
  reflexivity.
Qed.

Lemma StyleEncoder_init_nonpositive img_size style_dim num_domains max_conv_dim st :
  img_size <= 0 ->
  is_ok (StyleEncoder.__init__ param img_size style_dim num_domains max_conv_dim st)
  = false.
Proof.
  intros Hi; unfold StyleEncoder.__init__.
  destruct (Z.eq_dec img_size 0) as [->|Hz]; [reflexivity|].
  step_lift (floordiv_ok (2 ^ 14) img_size Hz).
  unfold bindM at 1.
  rewrite Conv2d_init_negative; [reflexivity|].
  apply div_pos_neg; lia.
Qed.

End NetworkInit.

(** ** Selecting one output per example *)

Lemma zrange_length n : length (zrange n) = Z.to_nat n.
Proof. unfold zrange; rewrite length_map, length_seq; reflexivity. Qed.

Lemma zrange_In n i : In i (zrange n) -> 0 <= i < n.
Proof.
  unfold zrange; rewrite in_map_iff; intros (k & <- & Hk).
  apply in_seq in Hk; lia.
Qed.

Lemma zrange_nth n k : (k < Z.to_nat n)%nat -> nth k (zrange n) 0 = Z.of_nat k.
Proof.
  intros Hk; unfold zrange.
  change 0 with (Z.of_nat 0); rewrite map_nth, seq_nth by assumption; reflexivity.
Qed.

Lemma batch_indices_length y : length (batch_indices y) = length y.
Proof. unfold batch_indices; rewrite zrange_length, Nat2Z.id; reflexivity. Qed.

Lemma batch_indices_nth y k :
  0 <= k < Z.of_nat (length y) -> nth (Z.to_nat k) (batch_indices y) 0 = k.
Proof.
  intros Hk; unfold batch_indices; rewrite zrange_nth by lia; lia.
Qed.

Lemma batch_indices_in_range y B :
  Z.of_nat (length y) <= B -> forallb (index_in_range B) (batch_indices y) = true.
Proof.
  intros Hy; apply forallb_forall; intros i Hi.
  apply zrange_In in Hi; unfold index_in_range.
  apply andb_true_intro; split; [apply Z.leb_le | apply Z.ltb_lt]; lia.
Qed.

Lemma index_in_range_spec d i : index_in_range d i = true <-> - d <= i < d.
Proof.
  unfold index_in_range; rewrite andb_true_iff, Z.leb_le, Z.ltb_lt; reflexivity.
Qed.

Lemma wrap_index_nonneg d i : 0 <= i -> wrap_index d i = i.
Proof.
  intros Hi; unfold wrap_index.
  destruct (i <? 0) eqn:E; [apply Z.ltb_lt in E; lia | reflexivity].
Qed.

Section Selection.

Context {R : Type} `{Scalar R}.

(** Every index within [-D, D): one entry per example, a negative index
    counted from the last domain. *)
Lemma index2_batch_ok (t : Tensor R) B D rest y :
  shape t = B :: D :: rest -> Z.of_nat (length y) <= B ->
  Forall (fun i => - D <= i < D) y ->
  exists out,
    index2 t (batch_indices y) y = Ok out /\
    shape out = Z.of_nat (length y) :: rest /\
    forall k r, 0 <= k < Z.of_nat (length y) ->
      get out (k :: r) = get t (k :: wrap_index D (nth (Z.to_nat k) y 0) :: r).
Proof.
  intros Ht Hy Hall; unfold index2; rewrite Ht.
  rewrite batch_indices_length, Nat.eqb_refl; cbn [negb].
  rewrite batch_indices_in_range by assumption.
  replace (forallb (index_in_range D) y) with true.
  2:{ symmetry; apply forallb_forall; intros i Hi.
      apply index_in_range_spec; rewrite Forall_forall in Hall; auto. }
  cbn [andb]; eexists; split; [reflexivity|]; split; [reflexivity|].
  intros k r Hk; cbn [get].
  rewrite batch_indices_nth by assumption.
  rewrite (wrap_index_nonneg B k) by lia; reflexivity.
Qed.

(** Some index outside [-D, D): [IndexError]. *)
Lemma index2_batch_err (t : Tensor R) B D rest y :
  shape t = B :: D :: rest ->
  Exists (fun i => ~ (- D <= i < D)) y ->
  index2 t (batch_indices y) y = Err IndexError.
Proof.
  intros Ht Hex; unfold index2; rewrite Ht.
  rewrite batch_indices_length, Nat.eqb_refl; cbn [negb].
  replace (forallb (index_in_range D) y) with false;
    [rewrite andb_false_r; reflexivity|].
  symmetry; apply not_true_is_false; intros Hf.
  rewrite forallb_forall in Hf; apply Exists_exists in Hex.
  destruct Hex as (i & Hi & Hout); apply Hout, index_in_range_spec, Hf, Hi.
Qed.

End Selection.

(** ** The forward passes *)

Lemma pow2_log2 img k : 0 <= k -> 1 <= Z.log2 img - k ->
  pow2 (Z.to_nat (Z.log2 img - k)) = 2 ^ (Z.log2 img - k).
Proof. intros Hk Hl; unfold pow2; rewrite Z2Nat.id by lia; reflexivity. Qed.

Lemma log2_ge img k : 0 <= k -> 2 ^ k <= img -> k <= Z.log2 img.
Proof.
  intros Hk Hi; apply Z.log2_le_pow2; [|assumption].
  pose proof (Z.pow_pos_nonneg 2 k ltac:(lia) Hk); lia.
Qed.

Section Forward.

Context {R : Type} `{Scalar R}.

Lemma Sequential_forward_app (l1 l2 : Sequential.t R) s s' s'' :
  maps_shape (Sequential.forward l1) s s' ->
  maps_shape (Sequential.forward l2) s' s'' ->
  maps_shape (Sequential.forward (l1 ++ l2)) s s''.
Proof. apply (maps_shape_app Sequential.Layer_forward). Qed.

Lemma Sequential_forward_cons l (ls : Sequential.t R) s s' s'' :
  maps_shape (Sequential.Layer_forward l) s s' ->
  maps_shape (Sequential.forward ls) s' s'' ->
  maps_shape (Sequential.forward (l :: ls)) s s''.
Proof.
  intros Hl Hls; apply (Sequential_forward_app [l] ls s s' s''); [|assumption].
  apply (maps_shape_one Sequential.Layer_forward); assumption.
Qed.

Lemma Sequential_forward_nil s : maps_shape (Sequential.forward ([] : Sequential.t R)) s s.
Proof. exact (maps_shape_nil Sequential.Layer_forward s). Qed.

Lemma activation_layer_shape a s :
  maps_shape (Sequential.Layer_forward (LActivation a : Layer R)) s s.
Proof.
  intros x Hx; simpl; eexists; split; [reflexivity|].
  rewrite Activation_forward_shape; assumption.
Qed.

(** The tail of the discriminator on a 4 x 4 map. *)
Lemma discriminator_tail_shape (c1 c2 : Conv2d R) b num_domains B :
  conv_built c1 b b 4 1 0 true -> conv_built c2 b num_domains 1 1 0 true ->
  1 <= b -> 1 <= num_domains ->
  maps_shape
    (Sequential.forward
       [LActivation (LeakyReLU 0.2%Q); LConv2d c1;
        LActivation (LeakyReLU 0.2%Q); LConv2d c2])
    [B; b; 4; 4] [B; num_domains; 1; 1].
Proof.
  intros H1 H2 Hb Hnd.
  eapply Sequential_forward_cons; [apply activation_layer_shape|].
  eapply Sequential_forward_cons.
  { intros x Hx; apply (conv4x4_shape c1 b b true x B 4 4 H1 Hx); lia. }
  eapply Sequential_forward_cons; [apply activation_layer_shape|].
  eapply Sequential_forward_cons; [|apply Sequential_forward_nil].
  intros x Hx; apply (conv1x1_shape c2 b num_domains true x B 1 1 H2 Hx); lia.
Qed.

Lemma Discriminator_blocks_shape (d : Discriminator.t R) d0 n num_domains max_conv_dim B :
  discriminator_built d d0 n num_domains max_conv_dim ->
  1 <= d0 -> 1 <= num_domains -> 1 <= max_conv_dim ->
  maps_shape (Sequential.forward (Discriminator.blocks d))
             [B; 3; 4 * pow2 n; 4 * pow2 n] [B; num_domains; 1; 1].
Proof.
  intros (c0 & bs & c1 & c2 & Hbl & B0 & Bbs & B1 & B2) Hd Hnd Hm; rewrite Hbl.
  pose proof (pow2_pos n) as Hp.
  pose proof (width_after_pos n d0 max_conv_dim Hd Hm) as Hb.
  eapply Sequential_forward_app.
  { apply (maps_shape_one Sequential.Layer_forward); intros x Hx.
    apply (conv3x3_shape c0 3 d0 true x B _ _ B0 Hx); lia. }
  eapply Sequential_forward_app.
  { apply (down_built_shape max_conv_dim n d0 bs B 4 4 Bbs); lia. }
  apply discriminator_tail_shape; assumption.
Qed.

Lemma StyleEncoder_shared_shape (m : StyleEncoder.t R) d0 n style_dim num_domains
    max_conv_dim B :
  styleencoder_built m d0 n style_dim num_domains max_conv_dim ->
  1 <= d0 -> 1 <= max_conv_dim ->
  maps_shape (Sequential.forward (StyleEncoder.shared m))
             [B; 3; 4 * pow2 n; 4 * pow2 n]
             [B; width_after n d0 max_conv_dim; 1; 1].
Proof.
  intros (c0 & bs & c1 & Hsh & B0 & Bbs & B1 & _) Hd Hm; rewrite Hsh.
  pose proof (pow2_pos n) as Hp.
  pose proof (width_after_pos n d0 max_conv_dim Hd Hm) as Hb.
  eapply Sequential_forward_app.
  { apply (maps_shape_one Sequential.Layer_forward); intros x Hx.
    apply (conv3x3_shape c0 3 d0 true x B _ _ B0 Hx); lia. }
  eapply Sequential_forward_app.
  { apply (down_built_shape max_conv_dim n d0 bs B 4 4 Bbs); lia. }
  eapply Sequential_forward_cons; [apply activation_layer_shape|].
  eapply Sequential_forward_cons.
  { intros x Hx; apply (conv4x4_shape c1 _ _ true x B 4 4 B1 Hx); lia. }
  eapply Sequential_forward_cons; [apply activation_layer_shape|].
  apply Sequential_forward_nil.
Qed.

Lemma Generator_forward_shape (g : Generator.t R) d0 n style_dim max_conv_dim
    (x s : Tensor R) B h w :
  generator_built g d0 n style_dim max_conv_dim ->
  1 <= d0 -> 1 <= max_conv_dim -> 0 <= B -> 1 <= h -> 1 <= w -> 1 < h * w ->
  shape x = [B; 3; h * pow2 n; w * pow2 n] -> shape s = [B; style_dim] ->
  returns_shape (Generator.forward g x s) [B; 3; h * pow2 n; w * pow2 n].
Proof.
  intros (E & D & e1 & e2 & a1 & a2 & nm & c & Bin & Henc & Hdec & Bp &
          (Be1 & Be2 & Ba1 & Ba2) & Hout & Bnm & Bc) Hd Hm HB Hh Hw Hhw Hx Hs.
  pose proof (pow2_pos n) as Hp.
  set (b := width_after n d0 max_conv_dim) in *.
  assert (Hb : 1 <= b) by (apply width_after_pos; assumption).
  unfold Generator.forward; rewrite Henc, Hdec.
  eapply returns_shape_bind.
  { apply (conv3x3_shape _ 3 d0 true x B _ _ Bin Hx); nia. }
  intros x1 Hx1.
  eapply returns_shape_bind.
  { refine (maps_shape_app ResBlock.forward E [e1; e2] _ [B; b; h; w] [B; b; h; w] _ _ x1 Hx1).
    - apply (pyramid_built_encoder max_conv_dim style_dim n d0 E D B h w Bp Hh Hw Hd Hm Hhw).
    - apply (maps_shape_app ResBlock.forward [e1] [e2] _ [B; b; h; w]);
        apply maps_shape_one; intros t Ht.
      + apply (ResBlock_forward_shape e1 b b _ false true t B h w Be1 Ht Hh Hw);
          try discriminate; try assumption; intros _; exact Hhw.
      + apply (ResBlock_forward_shape e2 b b _ false true t B h w Be2 Ht Hh Hw);
          try discriminate; try assumption; intros _; exact Hhw. }
  intros x2 Hx2.
  eapply returns_shape_bind.
  { refine (maps_shape_app (fun block x => AdaResBlock.forward block x s)
              [a2; a1] D _ [B; b; h; w] [B; d0; h * pow2 n; w * pow2 n] _ _ x2 Hx2).
    - apply (maps_shape_app (fun block x => AdaResBlock.forward block x s)
               [a2] [a1] _ [B; b; h; w]);
        apply maps_shape_one; intros t Ht.
      + apply (AdaResBlock_forward_shape a2 b b style_dim _ false t s B h w
                 Ba2 HB Hb Hb Ht Hs Hh Hw Hhw).
      + apply (AdaResBlock_forward_shape a1 b b style_dim _ false t s B h w
                 Ba1 HB Hb Hb Ht Hs Hh Hw Hhw).
    - apply (pyramid_built_decoder max_conv_dim style_dim n d0 E D s B h w Bp);
        assumption. }
  intros x3 Hx3; rewrite Hout.
  refine (Sequential_forward_cons _ _ _ [B; d0; h * pow2 n; w * pow2 n] _ _ _ x3 Hx3).
  { intros t Ht; apply (InstanceNorm2d_forward_shape nm d0 true t B _ _ Bnm Ht); nia. }
  eapply Sequential_forward_cons; [apply activation_layer_shape|].
  eapply Sequential_forward_cons; [|apply Sequential_forward_nil].
  intros t Ht; apply (conv1x1_shape c d0 3 true t B _ _ Bc Ht); nia.
Qed.

End Forward.

(** ** The discriminator keeps one logit per example *)

Lemma pyramid_size_facts img :
  pyramid_size img ->
  1 <= img /\ 1 <= Z.log2 img - 2 /\ img = 4 * pow2 (Z.to_nat (Z.log2 img - 2)).
Proof.
  intros ((Hlo & Hhi) & Hpow).
  assert (3 <= Z.log2 img) by (apply log2_ge; simpl; lia).
  repeat split; try lia.
  rewrite pow2_log2 by lia.
  replace 4 with (2 ^ 2) by reflexivity.
  rewrite <- Z.pow_add_r by lia.
  replace (2 + (Z.log2 img - 2)) with (Z.log2 img) by lia; assumption.
Qed.

Lemma pyramid_size_stem img : pyramid_size img -> 1 <= 2 ^ 14 / img.
Proof. intros ((Hlo & Hhi) & _); apply stem_width_pos; lia. Qed.

Section DiscriminatorForward.

Context {R : Type} `{Scalar R}.

(** Once the pyramid has produced a [B x D x 1 x 1] tensor of logits, the
    rest of [forward] depends on the indices only. *)
Lemma Discriminator_forward_select (d : Discriminator.t R) (x logits : Tensor R) y D :
  Sequential.forward (Discriminator.blocks d) x = Ok logits ->
  shape logits = [Z.of_nat (length y); D; 1; 1] -> (1 <= length y)%nat ->
  (Exists (fun i => ~ (- D <= i < D)) y ->
   Discriminator.forward d x y = Err IndexError) /\
  (Forall (fun i => - D <= i < D) y ->
   exists out,
     Discriminator.forward d x y = Ok out /\
     shape out = [Z.of_nat (length y)] /\
     forall k, 0 <= k < Z.of_nat (length y) ->
       get out [k] = get logits [k; wrap_index D (nth (Z.to_nat k) y 0); 0; 0]).
Proof.
  intros El Hl Hy; unfold Discriminator.forward; rewrite El; cbn [bind].
  unfold size; rewrite Hl; cbn [nth_error bind].
  rewrite (view_flatten logits (Z.of_nat (length y)) [D; 1; 1] Hl) by lia.
  cbn [bind numel fold_right]; rewrite !Z.mul_1_r.
  set (v := {| shape := [Z.of_nat (length y); D]; get := _ |}).
  split.
  - intros Hex.
    rewrite (index2_batch_err v (Z.of_nat (length y)) D [] y eq_refl Hex).
    reflexivity.
  - intros Hall.
    destruct (index2_batch_ok v (Z.of_nat (length y)) D [] y eq_refl ltac:(lia) Hall)
      as (out & -> & Hs & Hg).
    cbn [bind]; exists out; split; [reflexivity|]; split; [exact Hs|].
    intros k Hk; rewrite (Hg k [] Hk); unfold v; cbn [get]; rewrite Hl.
    assert (Hw : 0 <= wrap_index D (nth (Z.to_nat k) y 0) < D).
    { rewrite Forall_forall in Hall.
      assert (Hin : In (nth (Z.to_nat k) y 0) y) by (apply nth_In; lia).
      specialize (Hall _ Hin); unfold wrap_index.
      destruct (nth (Z.to_nat k) y 0 <? 0) eqn:E;
        [apply Z.ltb_lt in E | apply Z.ltb_ge in E]; lia. }
    rewrite (unravel_ravel_2_4 (Z.of_nat (length y)) D k _ Hw); reflexivity.
Qed.

End DiscriminatorForward.

(** ** The style encoder's selection, relative to a call that succeeded *)

Lemma mapM_length {A B : Type} (f : A -> result B) l bs :
  mapM f l = Ok bs -> length bs = length l.
Proof.
  revert bs; induction l as [|a l IH]; intros bs Hm; simpl in Hm.
  - inversion Hm; reflexivity.
  - apply bind_inv in Hm; destruct Hm as (b & _ & Hm).
    apply bind_inv in Hm; destruct Hm as (bs' & Hbs & Hm).
    inversion Hm; subst; simpl; rewrite (IH bs' Hbs); reflexivity.
Qed.

Section StyleEncoderForward.

Context {R : Type} `{Scalar R}.

Lemma stack_dim1_inv (ts : list (Tensor R)) t :
  stack_dim1 ts = Ok t ->
  exists t0 d0 rest,
    shape t = d0 :: Z.of_nat (length ts) :: rest /\
    Forall (fun o => shape o = d0 :: rest) ts /\
    forall i k r, get t (i :: k :: r) = get (nth (Z.to_nat k) ts t0) (i :: r).
Proof.
  unfold stack_dim1; destruct ts as [|t0 ts']; [discriminate|].
  destruct (shape t0) as [|d0 rest] eqn:E0; [discriminate|].
  destruct (forallb _ _) eqn:Ef; [|discriminate].
  intros E; inversion E; subst; clear E.
  exists t0, d0, rest; split; [reflexivity|]; split; [|reflexivity].
  apply Forall_forall; intros o Ho.
  rewrite forallb_forall in Ef; specialize (Ef o Ho).
  destruct (list_eq_dec Z.eq_dec (shape o) (d0 :: rest)); [assumption | discriminate].
Qed.

Lemma index2_ok_shape (t : Tensor R) rows cols out :
  index2 t rows cols = Ok out ->
  exists B D rest,
    shape t = B :: D :: rest /\ length rows = length cols /\
    forallb (index_in_range B) rows = true /\
    shape out = Z.of_nat (length rows) :: rest.
Proof.
  unfold index2; destruct (shape t) as [|B [|D rest]]; try discriminate.
  destruct (length rows =? length cols)%nat eqn:El; [|discriminate].
  cbn [negb]; destruct (forallb (index_in_range B) rows) eqn:Er; [|discriminate].
  destruct (forallb (index_in_range D) cols); [|discriminate].
  cbn [andb]; intros E; inversion E; subst; clear E.
  exists B, D, rest; split; [reflexivity|]; split; [apply Nat.eqb_eq; assumption|].
  split; [assumption | reflexivity].
Qed.

Lemma batch_indices_bound y B :
  (1 <= length y)%nat ->
  forallb (index_in_range B) (batch_indices y) = true ->
  Z.of_nat (length y) <= B.
Proof.
  intros Hy Hf; rewrite forallb_forall in Hf.
  assert (Hin : In (Z.of_nat (length y) - 1) (batch_indices y)).
  { rewrite <- (batch_indices_nth y (Z.of_nat (length y) - 1)) at 1 by lia.
    apply nth_In; rewrite batch_indices_length; lia. }
  apply Hf, index_in_range_spec in Hin; lia.
Qed.

(** A call of the style encoder that succeeded fixes everything but the
    selection: with as many indices, the call fails exactly when an index is
    out of range, and otherwise example [k] keeps the output of the head its
    index selects. *)
Lemma StyleEncoder_forward_select_heads (m : StyleEncoder.t R) (x : Tensor R) y0 :
  is_ok (StyleEncoder.forward m x y0) = true -> (1 <= length y0)%nat ->
  exists outs,
    mapM (fun head => Linear_forward head x) (StyleEncoder.unshared m) = Ok outs /\
    length outs = length (StyleEncoder.unshared m) /\
    forall y, length y = length y0 ->
      (Exists (fun i => ~ (- Z.of_nat (length outs) <= i < Z.of_nat (length outs))) y ->
       StyleEncoder.forward m x y = Err IndexError) /\
      (Forall (fun i => - Z.of_nat (length outs) <= i < Z.of_nat (length outs)) y ->
       exists out,
         StyleEncoder.forward m x y = Ok out /\
         Forall (fun o => shape out = Z.of_nat (length y) :: tl (shape o)) outs /\
         forall k r, 0 <= k < Z.of_nat (length y) ->
           exists o,
             nth_error outs
               (Z.to_nat (wrap_index (Z.of_nat (length outs)) (nth (Z.to_nat k) y 0)))
             = Some o /\
             get out (k :: r) = get o (k :: r)).
Proof.
  intros Hok Hy0.
  destruct (StyleEncoder.forward m x y0) as [out0|] eqn:H0; [clear Hok | discriminate].
  revert H0; unfold StyleEncoder.forward; intros H0.
  apply bind_inv in H0; destruct H0 as (h & Eh & H0).
  apply bind_inv in H0; destruct H0 as (d0 & Ed & H0).
  apply bind_inv in H0; destruct H0 as (h' & Ev & H0).
  apply bind_inv in H0; destruct H0 as (outs & Eouts & H0).
  apply bind_inv in H0; destruct H0 as (stacked & Est & H0).
  apply bind_inv in H0; destruct H0 as (out & Eidx & H0).
  inversion H0; subst out0; clear H0.
  exists outs; split; [exact Eouts|]; split; [exact (mapM_length _ _ _ Eouts)|].
  intros y Hlen.
  rewrite Eh; cbn [bind]; rewrite Ed; cbn [bind]; rewrite Ev; cbn [bind].
  rewrite Eouts; cbn [bind]; rewrite Est; cbn [bind].
  destruct (index2_ok_shape _ _ _ _ Eidx) as (B & D & rest & Hs & Hl & Hrows & Hso).
  destruct (stack_dim1_inv _ _ Est) as (t0 & d0' & rest' & Hs' & Hshapes & Hget).
  rewrite Hs in Hs'; inversion Hs'; subst d0' D rest'; clear Hs'.
  rewrite batch_indices_length in Hso.
  pose proof (batch_indices_bound y0 B Hy0 Hrows) as HB.
  split.
  - intros Hex; rewrite (index2_batch_err stacked B _ rest y Hs Hex); reflexivity.
  - intros Hall.
    destruct (index2_batch_ok stacked B _ rest y Hs ltac:(lia) Hall)
      as (o2 & -> & Hs2 & Hg2).
    cbn [bind]; exists o2; split; [reflexivity|].
    split.
    { eapply Forall_impl; [|exact Hshapes].
      intros o Ho; cbv beta in Ho; rewrite Hs2, Ho; reflexivity. }
    intros k r Hk.
    assert (Hw : 0 <= wrap_index (Z.of_nat (length outs)) (nth (Z.to_nat k) y 0)
                 < Z.of_nat (length outs)).
    { rewrite Forall_forall in Hall.
      assert (Hin : In (nth (Z.to_nat k) y 0) y) by (apply nth_In; lia).
      specialize (Hall _ Hin); unfold wrap_index.
      destruct (nth (Z.to_nat k) y 0 <? 0) eqn:E;
        [apply Z.ltb_lt in E | apply Z.ltb_ge in E]; lia. }
    exists (nth (Z.to_nat (wrap_index (Z.of_nat (length outs)) (nth (Z.to_nat k) y 0)))
                outs t0).
    split; [apply nth_error_nth'; lia|].
    rewrite (Hg2 k r Hk), Hget; reflexivity.
Qed.

End StyleEncoderForward.

(** ** The generator's pyramid, seen as a list of stages *)

Lemma generator_size_facts img :
  generator_size img ->
  1 <= img /\ 1 <= Z.log2 img - 4 /\
  exists m, 1 <= m /\ img = m * pow2 (Z.to_nat (Z.log2 img - 4)).
Proof.
  intros ((Hlo & Hhi) & (m & Hm)).
  assert (5 <= Z.log2 img) by (apply log2_ge; simpl; lia).
  repeat split; try lia.
  exists m; rewrite pow2_log2 by lia; split; [|assumption].
  pose proof (Z.pow_pos_nonneg 2 (Z.log2 img - 4) ltac:(lia) ltac:(lia)); nia.
Qed.

Lemma generator_size_side img m :
  generator_size img -> img = m * pow2 (Z.to_nat (Z.log2 img - 4)) -> 16 <= m.
Proof.
  intros ((Hlo & Hhi) & _) Hm.
  assert (5 <= Z.log2 img) by (apply log2_ge; simpl; lia).
  rewrite pow2_log2 in Hm by lia.
  destruct (Z.log2_spec img ltac:(lia)) as (Hl & _).
  replace (Z.log2 img) with (4 + (Z.log2 img - 4)) in Hl at 1 by lia.
  rewrite Z.pow_add_r in Hl by lia.
  change (2 ^ 4) with 16 in Hl.
  pose proof (Z.pow_pos_nonneg 2 (Z.log2 img - 4) ltac:(lia) ltac:(lia)); nia.
Qed.

Section Stages.

Context {R : Type} `{Scalar R}.

Lemma res_sig_built (b : ResBlock.t R) v w a f nm :
  resblock_built b v w a f nm -> res_sig b = (v, w, f).
Proof.
  intros (_ & Hd & _ & _ & (Hi & _) & (_ & Ho & _) & _).
  unfold res_sig; rewrite Hi, Ho, Hd; reflexivity.
Qed.

Lemma ada_sig_built (b : AdaResBlock.t R) v w sd a f :
  adablock_built b v w sd a f -> ada_sig b = (v, w, f).
Proof.
  intros (_ & Hu & _ & (Hi & _) & (_ & Ho & _) & _).
  unfold ada_sig; rewrite Hi, Ho, Hu; reflexivity.
Qed.

Lemma pyramid_built_sigs max_conv_dim style_dim n :
  forall d (E : list (ResBlock.t R)) D,
    pyramid_built n d max_conv_dim style_dim E D ->
    map res_sig E = down_stages n d max_conv_dim /\
    map ada_sig D = rev (map mirror (down_stages n d max_conv_dim)) /\
    Forall2 (mirrored style_dim) E (rev D).
Proof.
  induction n as [|n IH]; intros d E D Hb.
  - destruct Hb as [-> ->]; repeat split; constructor.
  - destruct Hb as (e & E' & a & D' & -> & -> & Be & Ba & Bp).
    destruct (IH _ E' D' Bp) as (IHe & IHd & IHm).
    cbn [map down_stages rev]; rewrite map_app, rev_app_distr, IHe, IHd.
    cbn [map rev app mirror].
    rewrite (res_sig_built e _ _ _ _ _ Be), (ada_sig_built a _ _ _ _ _ Ba).
    repeat split.
    constructor; [|assumption].
    exists d, (Z.min (d * 2) max_conv_dim), true; auto.
Qed.

End Stages.

Lemma chain_ok_app c s1 s2 c_mid c_end :
  chain_ok c s1 c_mid -> chain_ok c_mid s2 c_end -> chain_ok c (s1 ++ s2) c_end.
Proof.
  revert c; induction s1 as [|[[i o] f] s1 IH]; intros c H1 H2; simpl in *.
  - subst; assumption.
  - destruct H1 as [-> H1]; split; [reflexivity | apply IH; assumption].
Qed.

Lemma chain_ok_down n : forall d mx,
  chain_ok d (down_stages n d mx) (width_after n d mx).
Proof.
  induction n as [|n IH]; intros d mx; simpl; [reflexivity|].
  split; [reflexivity | apply IH].
Qed.

Lemma chain_ok_up n : forall d mx,
  chain_ok (width_after n d mx) (rev (map mirror (down_stages n d mx))) d.
Proof.
  induction n as [|n IH]; intros d mx; simpl; [reflexivity|].
  eapply chain_ok_app; [apply IH|]; simpl; auto.
Qed.

(** ** The style encoder and the mapping network *)

Section Heads.

Context {R : Type} `{Scalar R}.

Lemma mapM_first_err {A B : Type} (f : A -> result B) a l e :
  f a = Err e -> mapM f (a :: l) = Err e.
Proof. intros Hf; simpl; rewrite Hf; reflexivity. Qed.

Lemma linear_layer_shape (l : Linear R) n_in n_out pre :
  linear_built l n_in n_out ->
  maps_shape (Sequential.Layer_forward (LLinear l)) (pre ++ [n_in]) (pre ++ [n_out]).
Proof. intros Hl x Hx; apply (Linear_forward_shape l n_in n_out x pre Hl Hx). Qed.

End Heads.

Section MappingInit.

Context {R : Type} `{Scalar R}.
Variable param : nat -> list Z -> R.

(** The trunk of the mapping network, whatever becomes of the heads. *)
Lemma MappingNetwork_init_shared latent_dim style_dim num_domains st m st' :
  MappingNetwork.__init__ param latent_dim style_dim num_domains st = Ok (m, st') ->
  0 <= latent_dim ->
  exists l0 l1 l2 l3,
    MappingNetwork.shared m
    = [LLinear l0; LLinear l1; LActivation ReLU; LLinear l2; LActivation ReLU;
       LLinear l3; LActivation ReLU] /\
    linear_built l0 latent_dim 512 /\ linear_built l1 512 512 /\
    linear_built l2 512 512 /\ linear_built l3 512 512.
Proof.
  unfold MappingNetwork.__init__; intros Hinit Hl.
  destruct (Linear_init_ok param latent_dim 512 st Hl ltac:(lia)) as (l0 & n0 & E0 & B0).
  rewrite (bindM_ok _ E0) in Hinit; cbv beta zeta in Hinit.
  rewrite !for_range_S in Hinit; cbn [for_range] in Hinit.
  destruct (Linear_init_ok param 512 512 n0 ltac:(lia) ltac:(lia)) as (l1 & n1 & E1 & B1).
  destruct (Linear_init_ok param 512 512 n1 ltac:(lia) ltac:(lia)) as (l2 & n2 & E2 & B2).
  destruct (Linear_init_ok param 512 512 n2 ltac:(lia) ltac:(lia)) as (l3 & n3 & E3 & B3).
  rewrite !bindM_assoc, (bindM_ok _ E1) in Hinit; cbv beta in Hinit.
  rewrite bindM_ret, !bindM_assoc, (bindM_ok _ E2) in Hinit; cbv beta in Hinit.
  rewrite bindM_ret, !bindM_assoc, (bindM_ok _ E3) in Hinit; cbv beta in Hinit.
  rewrite !bindM_ret in Hinit.
  apply bindM_inv in Hinit; destruct Hinit as (heads & n4 & _ & Hret).
  apply ret_inv in Hret; destruct Hret as [-> _].
  exists l0, l1, l2, l3; cbn [MappingNetwork.shared app]; auto.
Qed.

Lemma mapping_heads_loop_ok style_dim n : forall (acc : list (Sequential.t R)) st,
  0 <= style_dim ->
  exists heads st',
    for_range n
      (fun unshared =>
         l1 <~ Linear_init param 512 512 ;;
         l2 <~ Linear_init param 512 512 ;;
         l3 <~ Linear_init param 512 512 ;;
         l4 <~ Linear_init param 512 style_dim ;;
         ret (unshared ++ [[LLinear l1; LActivation ReLU;
                            LLinear l2; LActivation ReLU;
                            LLinear l3; LActivation ReLU;
                            LLinear l4]]))
      acc st
    = Ok (heads, st').
Proof.
  induction n as [|n IH]; intros acc st Hs; [eexists _, _; reflexivity|].
  destruct (Linear_init_ok param 512 512 st ltac:(lia) ltac:(lia)) as (h1 & m1 & F1 & _).
  destruct (Linear_init_ok param 512 512 m1 ltac:(lia) ltac:(lia)) as (h2 & m2 & F2 & _).
  destruct (Linear_init_ok param 512 512 m2 ltac:(lia) ltac:(lia)) as (h3 & m3 & F3 & _).
  destruct (Linear_init_ok param 512 style_dim m3 ltac:(lia) Hs) as (h4 & m4 & F4 & _).
  rewrite for_range_S, !bindM_assoc.
  rewrite (bindM_ok _ F1); cbv beta; rewrite !bindM_assoc, (bindM_ok _ F2); cbv beta.
  rewrite !bindM_assoc, (bindM_ok _ F3); cbv beta.
  rewrite !bindM_assoc, (bindM_ok _ F4); cbv beta.
  rewrite bindM_ret; apply IH; assumption.
Qed.

Lemma MappingNetwork_init_ok latent_dim style_dim num_domains st :
  0 <= latent_dim -> 0 <= style_dim ->
  is_ok (MappingNetwork.__init__ param latent_dim style_dim num_domains st) = true.
Proof.
  intros Hl Hs; unfold MappingNetwork.__init__.
  destruct (Linear_init_ok param latent_dim 512 st Hl ltac:(lia)) as (l0 & n0 & E0 & B0).
  rewrite (bindM_ok _ E0); cbv beta zeta.
  rewrite !for_range_S; cbn [for_range].
  destruct (Linear_init_ok param 512 512 n0 ltac:(lia) ltac:(lia)) as (l1 & n1 & E1 & B1).
  destruct (Linear_init_ok param 512 512 n1 ltac:(lia) ltac:(lia)) as (l2 & n2 & E2 & B2).
  destruct (Linear_init_ok param 512 512 n2 ltac:(lia) ltac:(lia)) as (l3 & n3 & E3 & B3).
  rewrite !bindM_assoc, (bindM_ok _ E1); cbv beta.
  rewrite bindM_ret, !bindM_assoc, (bindM_ok _ E2); cbv beta.
  rewrite bindM_ret, !bindM_assoc, (bindM_ok _ E3); cbv beta.
  rewrite !bindM_ret.
  destruct (mapping_heads_loop_ok style_dim (Z.to_nat num_domains) [] n3 Hs)
    as (heads & st' & Eh).
  rewrite (bindM_ok _ Eh); reflexivity.
Qed.

Lemma MappingNetwork_shared_shape (m : MappingNetwork.t R) latent_dim l0 l1 l2 l3 B :
  MappingNetwork.shared m
  = [LLinear l0; LLinear l1; LActivation ReLU; LLinear l2; LActivation ReLU;
     LLinear l3; LActivation ReLU] ->
  linear_built l0 latent_dim 512 -> linear_built l1 512 512 ->
  linear_built l2 512 512 -> linear_built l3 512 512 ->
  maps_shape (Sequential.forward (MappingNetwork.shared m)) [B; latent_dim] [B; 512].
Proof.
  intros -> B0 B1 B2 B3.
  apply (Sequential_forward_cons _ _ _ [B; 512]);
    [exact (linear_layer_shape l0 latent_dim 512 [B] B0)|].
  apply (Sequential_forward_cons _ _ _ [B; 512]);
    [exact (linear_layer_shape l1 512 512 [B] B1)|].
  apply (Sequential_forward_cons _ _ _ [B; 512]); [apply activation_layer_shape|].
  apply (Sequential_forward_cons _ _ _ [B; 512]);
    [exact (linear_layer_shape l2 512 512 [B] B2)|].
  apply (Sequential_forward_cons _ _ _ [B; 512]); [apply activation_layer_shape|].
  apply (Sequential_forward_cons _ _ _ [B; 512]);
    [exact (linear_layer_shape l3 512 512 [B] B3)|].
  apply (Sequential_forward_cons _ _ _ [B; 512]); [apply activation_layer_shape|].
  apply Sequential_forward_nil.
Qed.

End MappingInit.

(** ** The residual block against its description *)

Section ResBlockRefinement.

Context {R : Type} `{Scalar R}.

Lemma Conv2d_forward_fields (c : Conv2d R) cin cout k s p bias :
  conv_built c cin cout k s p bias ->
  Conv2d_forward c
  = Conv2d_forward (mkConv2d cin cout k s p (conv_weight c) (conv_bias c)).
Proof.
  destruct c; unfold conv_built; simpl.
  intros (-> & -> & -> & -> & -> & _); reflexivity.
Qed.

Lemma Conv2d_forward_fields_no_bias (c : Conv2d R) cin cout k s p :
  conv_built c cin cout k s p false ->
  Conv2d_forward c = Conv2d_forward (mkConv2d cin cout k s p (conv_weight c) None).
Proof.
  destruct c; unfold conv_built; simpl.
  intros (-> & -> & -> & -> & -> & ->); reflexivity.
Qed.

Lemma InstanceNorm2d_forward_fields (n : InstanceNorm2d R) c affine :
  norm_built n c affine ->
  InstanceNorm2d_forward n
  = InstanceNorm2d_forward (mkInstanceNorm2d c 1e-5%Q (norm_affine n)).
Proof.
  destruct n; unfold norm_built; simpl.
  intros (-> & -> & _); reflexivity.
Qed.

Lemma ResBlock_forward_spec (b : ResBlock.t R) dim_in dim_out down nm :
  resblock_built b dim_in dim_out default_activ down nm ->
  forall x, ResBlock.forward b x = spec_forward dim_in dim_out down nm b x.
Proof.
  intros (Ha & Hd & Hs & Hn & Hc1 & Hc2 & Hn1 & Hn2 & Hp) x.
  unfold ResBlock.forward, spec_forward.
  assert (Hres : ResBlock._residual b x = spec_residual dim_in dim_out down nm b x).
  { unfold ResBlock._residual, spec_residual, pipeline, optional; cbn [foldM].
    rewrite Ha, Hd, Hn.
    rewrite (Conv2d_forward_fields _ _ _ _ _ _ _ Hc1).
    rewrite (Conv2d_forward_fields _ _ _ _ _ _ _ Hc2).
    unfold opt_built in Hn1, Hn2.
    destruct nm.
    - destruct Hn1 as (n1 & -> & B1); destruct Hn2 as (n2 & -> & B2).
      cbn [getattr bind].
      rewrite (InstanceNorm2d_forward_fields _ _ _ B1).
      rewrite (InstanceNorm2d_forward_fields _ _ _ B2).
      reflexivity.
    - reflexivity. }
  assert (Hsc : ResBlock._shortcut b x = spec_shortcut dim_in dim_out down b x).
  { unfold ResBlock._shortcut, spec_shortcut, pipeline, optional; cbn [foldM].
    rewrite Hs, Hd; unfold opt_built in Hp.
    destruct (dim_in =? dim_out); cbn [negb] in *.
    - reflexivity.
    - destruct Hp as (c & -> & Bc); cbn [getattr bind].
      rewrite (Conv2d_forward_fields_no_bias _ _ _ _ _ _ Bc); reflexivity. }
  rewrite Hres, Hsc; reflexivity.
Qed.

End ResBlockRefinement.

(* ================================================================== *)
(** * Further lemmas on the blocks and the networks *)

(** ** The residual blocks outside their comfortable range *)

Lemma foldM_app_err {A B : Type} (f : B -> A -> result A) l1 l2 a e :
  foldM f l1 a = Err e -> foldM f (l1 ++ l2) a = Err e.
Proof. intros H1; rewrite foldM_app, H1; reflexivity. Qed.

Lemma foldM_app_ok {A B : Type} (f : B -> A -> result A) l1 l2 a a' :
  foldM f l1 a = Ok a' -> foldM f (l1 ++ l2) a = foldM f l2 a'.
Proof. intros H1; rewrite foldM_app, H1; reflexivity. Qed.

Section BlockErrors.

Context {R : Type} `{Scalar R}.

Lemma Conv2d_forward_wrong_channels (c : Conv2d R) (x : Tensor R) n ch h w :
  shape x = [n; ch; h; w] -> ch <> in_channels c ->
  Conv2d_forward c x = Err RuntimeError.
Proof.
  intros Hx Hc; unfold Conv2d_forward; rewrite Hx.
  destruct (out_channels c <? 1); [reflexivity|].
  destruct (ch =? in_channels c) eqn:E; [apply Z.eqb_eq in E; contradiction|].
  reflexivity.
Qed.

Lemma avg_pool2d_too_small (x : Tensor R) n c h w :
  shape x = [n; c; h; w] -> h < 2 \/ w < 2 ->
  avg_pool2d x 2 = Err RuntimeError.
Proof.
  intros Hx Hs; unfold avg_pool2d; rewrite Hx.
  replace ((h <? 2) || (w <? 2)) with true; [reflexivity|].
  symmetry; apply orb_true_iff; rewrite !Z.ltb_lt; assumption.
Qed.

(** A downsampling block on a map with a side of one pixel: the pooling of
    the residual path has nothing to average. *)
Lemma ResBlock_forward_too_small (b : ResBlock.t R) dim_in dim_out a nm
    (x : Tensor R) n h w :
  resblock_built b dim_in dim_out a true nm ->
  shape x = [n; dim_in; h; w] -> 1 <= h -> 1 <= w -> h < 2 \/ w < 2 ->
  1 <= dim_in -> (nm = true -> 1 < h * w) ->
  ResBlock.forward b x = Err RuntimeError.
Proof.
  intros (Ha & Hd & Hs & Hn & Hc1 & Hc2 & Hn1 & Hn2 & Hp) Hx Hh Hw Hsmall Hi Hpos.
  unfold ResBlock.forward, ResBlock._residual; rewrite Hn, Hd.
  destruct (optional_norm_shape nm (ResBlock.norm_1 b) "norm_1" dim_in x n h w Hn1 Hx Hpos)
    as (x1 & -> & Hx1).
  cbn [bind].
  destruct (conv3x3_shape (ResBlock.conv_1 b) dim_in dim_in true
              (Activation_forward (ResBlock.activ b) x1) n h w Hc1
              ltac:(rewrite Activation_forward_shape; exact Hx1) Hh Hw Hi)
    as (x2 & -> & Hx2).
  cbn [bind].
  rewrite (avg_pool2d_too_small x2 n dim_in h w Hx2 Hsmall); reflexivity.
Qed.

(** A normalising block on a map with a single position: the first
    normalisation has no statistics to compute. *)
Lemma ResBlock_forward_one_position (b : ResBlock.t R) dim_in dim_out a down
    (x : Tensor R) n h w :
  resblock_built b dim_in dim_out a down true ->
  shape x = [n; dim_in; h; w] -> h * w = 1 ->
  ResBlock.forward b x = Err ValueError.
Proof.
  intros (Ha & Hd & Hs & Hn & Hc1 & Hc2 & Hn1 & Hn2 & Hp) Hx Hhw.
  unfold ResBlock.forward, ResBlock._residual; rewrite Hn.
  destruct Hn1 as (n1 & -> & _); cbn [getattr bind].
  rewrite (InstanceNorm2d_forward_one_position n1 x n dim_in h w Hx Hhw).
  reflexivity.
Qed.

(** A normalising, downsampling block on a map of which the pooling leaves
    a single position: the second normalisation has no statistics to
    compute. *)
Lemma ResBlock_forward_one_position_left (b : ResBlock.t R) dim_in dim_out a
    (x : Tensor R) n h w :
  resblock_built b dim_in dim_out a true true ->
  shape x = [n; dim_in; h; w] -> 2 <= h -> 2 <= w -> (h / 2) * (w / 2) = 1 ->
  1 <= dim_in ->
  ResBlock.forward b x = Err ValueError.
Proof.
  intros (Ha & Hd & Hs & Hn & Hc1 & Hc2 & Hn1 & Hn2 & Hp) Hx Hh Hw Hone Hi.
  unfold ResBlock.forward, ResBlock._residual; rewrite Hn, Hd.
  destruct (optional_norm_shape true (ResBlock.norm_1 b) "norm_1" dim_in x n h w Hn1 Hx
              ltac:(intros _; nia)) as (x1 & -> & Hx1).
  cbn [bind].
  destruct (conv3x3_shape (ResBlock.conv_1 b) dim_in dim_in true
              (Activation_forward (ResBlock.activ b) x1) n h w Hc1
              ltac:(rewrite Activation_forward_shape; exact Hx1)
              ltac:(lia) ltac:(lia) Hi)
    as (x2 & -> & Hx2).
  cbn [bind].
  destruct (avg_pool2d_shape x2 n dim_in h w Hx2 Hh Hw) as (x3 & -> & Hx3).
  cbn [bind].
  destruct Hn2 as (n2 & -> & _); cbn [getattr bind].
  rewrite (InstanceNorm2d_forward_one_position n2 x3 n dim_in _ _ Hx3 Hone).
  reflexivity.
Qed.

(** A block on a map with the wrong number of channels: the first layer that
    has weights refuses it, a normalisation with [ValueError], a convolution
    with [RuntimeError]. *)
Lemma ResBlock_forward_wrong_channels (b : ResBlock.t R) dim_in dim_out a down nm
    (x : Tensor R) n c h w :
  resblock_built b dim_in dim_out a down nm ->
  shape x = [n; c; h; w] -> c <> dim_in ->
  ResBlock.forward b x = Err (if nm then ValueError else RuntimeError).
Proof.
  intros (Ha & Hd & Hs & Hn & Hc1 & Hc2 & Hn1 & Hn2 & Hp) Hx Hc.
  unfold ResBlock.forward, ResBlock._residual; rewrite Hn.
  unfold opt_built in Hn1; destruct nm.
  - destruct Hn1 as (n1 & -> & (Hf & _ & Haff)); cbn [getattr bind].
    unfold InstanceNorm2d_forward; rewrite Hx.
    destruct (norm_affine n1) as [[g bt]|]; [|contradiction].
    rewrite Hf.
    destruct (c =? dim_in) eqn:E; [apply Z.eqb_eq in E; contradiction|].
    reflexivity.
  - cbn [bind].
    rewrite (Conv2d_forward_wrong_channels (ResBlock.conv_1 b)
               (Activation_forward (ResBlock.activ b) x) n c h w).
    + reflexivity.
    + rewrite Activation_forward_shape; exact Hx.
    + destruct Hc1 as (-> & _); exact Hc.
Qed.

End BlockErrors.

(** ** The pyramids on maps of any size *)

Lemma halving_step h n : pow2 (S n) <= h -> 2 <= h /\ pow2 n <= h / 2.
Proof.
  rewrite pow2_S; pose proof (pow2_pos n); intros Hh; split; [lia|].
  apply Z.div_le_lower_bound; lia.
Qed.

Lemma halving_div h n : h / 2 / pow2 n = h / pow2 (S n).
Proof.
  pose proof (pow2_pos n).
  rewrite pow2_S, Z.div_div by lia; f_equal; lia.
Qed.

Lemma halving_small h n : 2 <= h -> h < pow2 (S n) -> h / 2 < pow2 n.
Proof.
  rewrite pow2_S; intros Hh Hlt; apply Z.div_lt_upper_bound; lia.
Qed.

Section PyramidsAnySize.

Context {R : Type} `{Scalar R}.

Lemma down_built_floor max_conv_dim n : forall d (bs : Sequential.t R) B h w,
  down_built n d max_conv_dim bs -> pow2 n <= h -> pow2 n <= w ->
  1 <= d -> 1 <= max_conv_dim ->
  maps_shape (Sequential.forward bs)
             [B; d; h; w]
             [B; width_after n d max_conv_dim; h / pow2 n; w / pow2 n].
Proof.
  induction n as [|n IH]; intros d bs B h w Hb Hh Hw Hd Hm.
  - simpl in Hb; subst bs; change (pow2 0) with 1; rewrite !Z.div_1_r.
    exact (maps_shape_nil Sequential.Layer_forward _).
  - destruct Hb as (b & bs' & -> & Bb & Bbs).
    destruct (halving_step h n Hh) as [Hh2 Hh'].
    destruct (halving_step w n Hw) as [Hw2 Hw'].
    intros x Hx; unfold Sequential.forward; cbn [foldM Sequential.Layer_forward].
    eapply returns_shape_bind.
    + apply (ResBlock_forward_shape b _ _ _ _ _ x B h w Bb Hx);
        try lia; auto; discriminate.
    + intros t Ht; simpl width_after; rewrite <- !halving_div.
      apply (IH _ bs' B (h / 2) (w / 2) Bbs Hh' Hw'); [lia | lia | exact Ht].
Qed.

Lemma down_built_too_small max_conv_dim n : forall d (bs : Sequential.t R) B h w x,
  down_built n d max_conv_dim bs -> 1 <= h -> 1 <= w ->
  h < pow2 n \/ w < pow2 n ->
  shape x = [B; d; h; w] -> 1 <= d -> 1 <= max_conv_dim ->
  Sequential.forward bs x = Err RuntimeError.
Proof.
  induction n as [|n IH]; intros d bs B h w x Hb Hh Hw Hsmall Hx Hd Hm.
  - change (pow2 0) with 1 in Hsmall; lia.
  - destruct Hb as (b & bs' & -> & Bb & Bbs).
    unfold Sequential.forward; cbn [foldM Sequential.Layer_forward].
    destruct (Z_lt_le_dec h 2) as [Hh2|Hh2].
    { rewrite (ResBlock_forward_too_small b _ _ _ _ x B h w Bb Hx Hh Hw (or_introl Hh2)
                 Hd ltac:(discriminate)).
      reflexivity. }
    destruct (Z_lt_le_dec w 2) as [Hw2|Hw2].
    { rewrite (ResBlock_forward_too_small b _ _ _ _ x B h w Bb Hx Hh Hw (or_intror Hw2)
                 Hd ltac:(discriminate)).
      reflexivity. }
    destruct (ResBlock_forward_shape b _ _ _ _ _ x B h w Bb Hx Hh Hw
                (fun _ => conj Hh2 Hw2) Hd ltac:(lia) ltac:(discriminate))
      as (t & -> & Ht).
    cbn [bind].
    apply (IH _ bs' B (h / 2) (w / 2) t Bbs).
    + apply half_ge_1; assumption.
    + apply half_ge_1; assumption.
    + destruct Hsmall as [Hs|Hs]; [left | right]; apply halving_small; assumption.
    + exact Ht.
    + lia.
    + exact Hm.
Qed.

Lemma floor_le h n : 0 <= h -> h / pow2 n <= h.
Proof.
  intros Hh; pose proof (pow2_pos n).
  apply Z.div_le_upper_bound; nia.
Qed.

Lemma pyramid_built_encoder_floor max_conv_dim style_dim n :
  forall d (E : list (ResBlock.t R)) D B h w,
  pyramid_built n d max_conv_dim style_dim E D -> pow2 n <= h -> pow2 n <= w ->
  1 <= d -> 1 <= max_conv_dim -> 1 < (h / pow2 n) * (w / pow2 n) ->
  maps_shape (foldM ResBlock.forward E)
             [B; d; h; w]
             [B; width_after n d max_conv_dim; h / pow2 n; w / pow2 n].
Proof.
  induction n as [|n IH]; intros d E D B h w Hb Hh Hw Hd Hm Hpos.
  - destruct Hb as [-> _]; change (pow2 0) with 1; rewrite !Z.div_1_r.
    apply maps_shape_nil.
  - destruct Hb as (e & E' & a & D' & -> & -> & Be & Ba & Bp).
    destruct (halving_step h n Hh) as [Hh2 Hh'].
    destruct (halving_step w n Hw) as [Hw2 Hw'].
    rewrite <- !halving_div in Hpos.
    intros x Hx; cbn [foldM].
    eapply returns_shape_bind.
    + apply (ResBlock_forward_shape e _ _ _ _ _ x B h w Be Hx); try lia; auto.
      intros _; unfold halved.
      pose proof (floor_le (h / 2) n ltac:(apply Z.div_pos; lia)).
      pose proof (floor_le (w / 2) n ltac:(apply Z.div_pos; lia)).
      pose proof (pow2_pos n).
      assert (1 <= h / 2 / pow2 n) by (apply Z.div_le_lower_bound; lia).
      assert (1 <= w / 2 / pow2 n) by (apply Z.div_le_lower_bound; lia).
      nia.
    + intros t Ht; simpl width_after; rewrite <- !halving_div.
      apply (IH _ E' D' B (h / 2) (w / 2) Bp Hh' Hw'); [lia | lia | exact Hpos | exact Ht].
Qed.

(** On a map with a side below [pow2 n] the encoder raises: a pooling meets
    a side of one pixel, unless a normalisation met a single position
    before. *)
Lemma pyramid_built_encoder_too_small_raises max_conv_dim style_dim n :
  forall d (E : list (ResBlock.t R)) D B h w x,
  pyramid_built n d max_conv_dim style_dim E D -> 1 <= h -> 1 <= w ->
  h < pow2 n \/ w < pow2 n ->
  shape x = [B; d; h; w] -> 1 <= d -> 1 <= max_conv_dim ->
  exists e, foldM ResBlock.forward E x = Err e.
Proof.
  induction n as [|n IH]; intros d E D B h w x Hb Hh Hw Hsmall Hx Hd Hm.
  - change (pow2 0) with 1 in Hsmall; lia.
  - destruct Hb as (e & E' & a & D' & -> & -> & Be & Ba & Bp).
    cbn [foldM].
    destruct (Z.eq_dec (h * w) 1) as [Hone|Hmany].
    { rewrite (ResBlock_forward_one_position e _ _ _ _ x B h w Be Hx Hone).
      eexists; reflexivity. }
    assert (Hhw : 1 < h * w) by nia.
    destruct (Z_lt_le_dec h 2) as [Hh2|Hh2].
    { rewrite (ResBlock_forward_too_small e _ _ _ _ x B h w Be Hx Hh Hw (or_introl Hh2)
                 Hd (fun _ => Hhw)).
      eexists; reflexivity. }
    destruct (Z_lt_le_dec w 2) as [Hw2|Hw2].
    { rewrite (ResBlock_forward_too_small e _ _ _ _ x B h w Be Hx Hh Hw (or_intror Hw2)
                 Hd (fun _ => Hhw)).
      eexists; reflexivity. }
    pose proof (half_ge_1 h Hh2); pose proof (half_ge_1 w Hw2).
    destruct (Z.eq_dec ((h / 2) * (w / 2)) 1) as [Hone|Hleft].
    { rewrite (ResBlock_forward_one_position_left e _ _ _ x B h w Be Hx Hh2 Hw2 Hone Hd).
      eexists; reflexivity. }
    destruct (ResBlock_forward_shape e _ _ _ _ _ x B h w Be Hx Hh Hw
                (fun _ => conj Hh2 Hw2) Hd ltac:(lia)
                ltac:(intros _; unfold halved; nia))
      as (t & -> & Ht).
    cbn [bind].
    apply (IH _ E' D' B (h / 2) (w / 2) t Bp); try assumption; try lia.
    destruct Hsmall as [Hs|Hs]; [left | right]; apply halving_small; assumption.
Qed.

(** Where the other side is at least twice [pow2 n], every normalisation on
    the way has more than one position, and it is a pooling that raises. *)
Lemma pyramid_built_encoder_too_small max_conv_dim style_dim n :
  forall d (E : list (ResBlock.t R)) D B h w x,
  pyramid_built n d max_conv_dim style_dim E D -> 1 <= h -> 1 <= w ->
  h < pow2 n \/ w < pow2 n ->
  2 * pow2 n <= h \/ 2 * pow2 n <= w ->
  shape x = [B; d; h; w] -> 1 <= d -> 1 <= max_conv_dim ->
  foldM ResBlock.forward E x = Err RuntimeError.
Proof.
  induction n as [|n IH]; intros d E D B h w x Hb Hh Hw Hsmall Hbig Hx Hd Hm.
  - change (pow2 0) with 1 in Hsmall; lia.
  - destruct Hb as (e & E' & a & D' & -> & -> & Be & Ba & Bp).
    cbn [foldM].
    pose proof (pow2_pos n) as Hp.
    rewrite pow2_S in Hsmall, Hbig.
    assert (Hhw : 1 < h * w) by nia.
    destruct (Z_lt_le_dec h 2) as [Hh2|Hh2].
    { rewrite (ResBlock_forward_too_small e _ _ _ _ x B h w Be Hx Hh Hw (or_introl Hh2)
                 Hd (fun _ => Hhw)).
      reflexivity. }
    destruct (Z_lt_le_dec w 2) as [Hw2|Hw2].
    { rewrite (ResBlock_forward_too_small e _ _ _ _ x B h w Be Hx Hh Hw (or_intror Hw2)
                 Hd (fun _ => Hhw)).
      reflexivity. }
    pose proof (half_ge_1 h Hh2); pose proof (half_ge_1 w Hw2).
    assert (Hbig' : 2 * pow2 n <= h / 2 \/ 2 * pow2 n <= w / 2).
    { destruct Hbig as [Hb1|Hb1]; [left | right];
        apply Z.div_le_lower_bound; lia. }
    destruct (ResBlock_forward_shape e _ _ _ _ _ x B h w Be Hx Hh Hw
                (fun _ => conj Hh2 Hw2) Hd ltac:(lia)
                ltac:(intros _; unfold halved; nia))
      as (t & -> & Ht).
    cbn [bind].
    apply (IH _ E' D' B (h / 2) (w / 2) t Bp); try assumption; try lia.
    destruct Hsmall as [Hs|Hs]; [left | right];
      apply halving_small; rewrite ?pow2_S; assumption.
Qed.

End PyramidsAnySize.

(** The width the loops arrive at, in closed form. *)
Lemma width_after_closed n : forall d mx,
  0 <= d -> 0 <= mx -> (1 <= n)%nat ->
  width_after n d mx = Z.min (d * pow2 n) mx.
Proof.
  induction n as [|n IH]; intros d mx Hd Hm Hn; [lia|].
  destruct n as [|n'].
  - simpl; change (pow2 1) with 2; reflexivity.
  - change (width_after (S (S n')) d mx)
      with (width_after (S n') (Z.min (d * 2) mx) mx).
    rewrite IH by lia.
    rewrite (pow2_S (S n')).
    pose proof (pow2_pos (S n')).
    destruct (Z.min_spec (d * 2) mx) as [[? ->]|[? ->]]; nia.
Qed.

Lemma stem_times_pow2 img k j :
  0 <= j <= k -> k <= 14 -> img = 2 ^ k ->
  2 ^ 14 / img * 2 ^ (k - j) = 2 ^ (14 - j).
Proof.
  intros Hj Hk ->.
  rewrite <- Z.pow_sub_r by lia.
  rewrite <- Z.pow_add_r by lia.
  f_equal; lia.
Qed.

(** ** Adaptive instance normalisation on inputs it was not built for *)

Lemma bdim_mismatch a b : a <> b -> a <> 1 -> b <> 1 -> bdim a b = Err RuntimeError.
Proof.
  intros Hab Ha Hb; unfold bdim.
  destruct (a =? b) eqn:E1; [apply Z.eqb_eq in E1; contradiction|].
  destruct (a =? 1) eqn:E2; [apply Z.eqb_eq in E2; contradiction|].
  destruct (b =? 1) eqn:E3; [apply Z.eqb_eq in E3; contradiction|].
  reflexivity.
Qed.

Lemma broadcast_shapes_channel_mismatch n c c' h w :
  c <> c' -> c <> 1 -> c' <> 1 ->
  broadcast_shapes [n; c; 1; 1] [n; c'; h; w] = Err RuntimeError.
Proof.
  intros Hcc Hc Hc'; unfold broadcast_shapes; simpl.
  rewrite !bdim_one_l; cbn [bind].
  rewrite (bdim_mismatch c c' Hcc Hc Hc'); reflexivity.
Qed.

Lemma broadcast_shapes_one_channel n c h w :
  broadcast_shapes [n; c; 1; 1] [n; 1; h; w] = Ok [n; c; h; w].
Proof.
  unfold broadcast_shapes; simpl.
  rewrite !bdim_one_l, bdim_one_r, bdim_refl; reflexivity.
Qed.

Lemma bindex_one_channel n h w b ch i j :
  0 <= b < n -> 0 <= i < h -> 0 <= j < w ->
  bindex [n; 1; h; w] [b; ch; i; j] = [b; 0; i; j].
Proof.
  intros; unfold bindex; simpl; rewrite !pick_in_range by assumption; reflexivity.
Qed.

Section AdaINEdges.

Context {R : Type} `{Scalar R}.

(** The part of [forward] that does not look at [x]: the projection of the
    style code, reshaped and cut in two. *)
Lemma AdaptiveInstanceNorm_style_part (m : AdaptiveInstanceNorm.t R)
    style_dim c (x s : Tensor R) n :
  adain_built m style_dim c -> 0 <= n -> 0 <= c ->
  shape s = [n; style_dim] ->
  exists hfc,
    Linear_forward (AdaptiveInstanceNorm.fc m) s = Ok hfc /\
    shape hfc = [n; c * 2] /\
    AdaptiveInstanceNorm.forward m x s =
      (let hv := {| shape := [n; c * 2; 1; 1];
                    get := fun idx => get hfc (unravel (shape hfc)
                                                 (ravel [n; c * 2; 1; 1] idx)) |} in
       let gamma := {| shape := [n; c; 1; 1]; get := get hv |} in
       let beta := {| shape := [n; c; 1; 1];
                      get := fun idx => match idx with
                                        | i :: j :: r => get hv (i :: (j + c) :: r)
                                        | _ => get hv idx
                                        end |} in
       nx <- InstanceNorm2d_forward (AdaptiveInstanceNorm.norm m) x ;;
       p <- tmul (add_scalar (of_Z 1) gamma) nx ;;
       tadd p beta).
Proof.
  intros ((Hnc & Heps & Haff) & Hfc) Hn Hc Hs.
  destruct (Linear_forward_shape _ _ _ s [n] Hfc Hs) as (hfc & Efc & Shfc).
  simpl in Shfc.
  exists hfc; split; [exact Efc|]; split; [exact Shfc|].
  unfold AdaptiveInstanceNorm.forward.
  rewrite Efc; cbn [bind]; unfold size; rewrite Shfc; cbn [nth_error bind].
  rewrite view_exact;
    [| repeat constructor; lia | rewrite Shfc; cbn [numel fold_right]; lia].
  cbn [bind]; unfold chunk2_dim1; cbn [shape].
  replace (c * 2 =? 1) with false by (symmetry; apply Z.eqb_neq; lia).
  rewrite half_of_double; replace (c * 2 - c) with c by lia.
  cbn [bind]; rewrite Shfc; reflexivity.
Qed.

(** With the style projected, the normalisation is the next thing to run: on
    a map with a single spatial position it raises. *)
Lemma AdaptiveInstanceNorm_forward_one_position (m : AdaptiveInstanceNorm.t R)
    style_dim c (x s : Tensor R) n ch h w :
  adain_built m style_dim c -> 0 <= n -> 0 <= c ->
  shape s = [n; style_dim] -> shape x = [n; ch; h; w] -> h * w = 1 ->
  AdaptiveInstanceNorm.forward m x s = Err ValueError.
Proof.
  intros Bm Hn Hc Hs Hx Hhw.
  destruct (AdaptiveInstanceNorm_style_part m style_dim c x s n Bm Hn Hc Hs)
    as (hfc & _ & _ & Efwd).
  rewrite Efwd; cbv zeta.
  rewrite (InstanceNorm2d_forward_one_position _ x n ch h w Hx Hhw); reflexivity.
Qed.

End AdaINEdges.

(** ** The generator on images of any size *)

Section GeneratorAnySize.

Context {R : Type} `{Scalar R}.

(** One side of at least two cells after the division leaves more than one
    position. *)
Lemma floor_positions p h w :
  1 <= p -> p <= h -> p <= w -> 2 * p <= h \/ 2 * p <= w ->
  1 < (h / p) * (w / p).
Proof.
  intros Hp Hh Hw Hbig.
  assert (1 <= h / p) by (apply Z.div_le_lower_bound; lia).
  assert (1 <= w / p) by (apply Z.div_le_lower_bound; lia).
  destruct Hbig as [Hb|Hb].
  - assert (2 <= h / p) by (apply Z.div_le_lower_bound; lia); nia.
  - assert (2 <= w / p) by (apply Z.div_le_lower_bound; lia); nia.
Qed.

Lemma Generator_forward_floor (g : Generator.t R) d0 n style_dim max_conv_dim
    (x s : Tensor R) B h w :
  generator_built g d0 n style_dim max_conv_dim ->
  1 <= d0 -> 1 <= max_conv_dim -> 0 <= B -> pow2 n <= h -> pow2 n <= w ->
  1 < (h / pow2 n) * (w / pow2 n) ->
  shape x = [B; 3; h; w] -> shape s = [B; style_dim] ->
  returns_shape (Generator.forward g x s)
                [B; 3; round_down h (pow2 n); round_down w (pow2 n)].
Proof.
  intros (E & D & e1 & e2 & a1 & a2 & nm & c & Bin & Henc & Hdec & Bp &
          (Be1 & Be2 & Ba1 & Ba2) & Hout & Bnm & Bc) Hd Hm HB Hh Hw Hpos Hx Hs.
  pose proof (pow2_pos n) as Hp.
  set (b := width_after n d0 max_conv_dim) in *.
  assert (Hb : 1 <= b) by (apply width_after_pos; assumption).
  assert (Hh' : 1 <= h / pow2 n) by (apply Z.div_le_lower_bound; lia).
  assert (Hw' : 1 <= w / pow2 n) by (apply Z.div_le_lower_bound; lia).
  unfold Generator.forward, round_down; rewrite Henc, Hdec.
  eapply returns_shape_bind.
  { apply (conv3x3_shape _ 3 d0 true x B _ _ Bin Hx); lia. }
  intros x1 Hx1.
  eapply returns_shape_bind.
  { refine (maps_shape_app ResBlock.forward E [e1; e2] _
              [B; b; h / pow2 n; w / pow2 n] [B; b; h / pow2 n; w / pow2 n] _ _ x1 Hx1).
    - apply (pyramid_built_encoder_floor max_conv_dim style_dim n d0 E D B h w Bp Hh Hw
               Hd Hm Hpos).
    - apply (maps_shape_app ResBlock.forward [e1] [e2] _ [B; b; h / pow2 n; w / pow2 n]);
        apply maps_shape_one; intros t Ht.
      + apply (ResBlock_forward_shape e1 b b _ false true t B _ _ Be1 Ht Hh' Hw');
          try discriminate; try assumption; intros _; exact Hpos.
      + apply (ResBlock_forward_shape e2 b b _ false true t B _ _ Be2 Ht Hh' Hw');
          try discriminate; try assumption; intros _; exact Hpos. }
  intros x2 Hx2.
  eapply returns_shape_bind.
  { refine (maps_shape_app (fun block x => AdaResBlock.forward block x s)
              [a2; a1] D _ [B; b; h / pow2 n; w / pow2 n]
              [B; d0; h / pow2 n * pow2 n; w / pow2 n * pow2 n] _ _ x2 Hx2).
    - apply (maps_shape_app (fun block x => AdaResBlock.forward block x s)
               [a2] [a1] _ [B; b; h / pow2 n; w / pow2 n]);
        apply maps_shape_one; intros t Ht.
      + apply (AdaResBlock_forward_shape a2 b b style_dim _ false t s B _ _
                 Ba2 HB Hb Hb Ht Hs Hh' Hw' Hpos).
      + apply (AdaResBlock_forward_shape a1 b b style_dim _ false t s B _ _
                 Ba1 HB Hb Hb Ht Hs Hh' Hw' Hpos).
    - apply (pyramid_built_decoder max_conv_dim style_dim n d0 E D s B _ _ Bp);
        assumption. }
  intros x3 Hx3; rewrite Hout.
  refine (Sequential_forward_cons _ _ _
            [B; d0; h / pow2 n * pow2 n; w / pow2 n * pow2 n] _ _ _ x3 Hx3).
  { intros t Ht; apply (InstanceNorm2d_forward_shape nm d0 true t B _ _ Bnm Ht); nia. }
  eapply Sequential_forward_cons; [apply activation_layer_shape|].
  eapply Sequential_forward_cons; [|apply Sequential_forward_nil].
  intros t Ht; apply (conv1x1_shape c d0 3 true t B _ _ Bc Ht); nia.
Qed.

(** A generator whose stem has no channels raises at the stem. *)
Lemma Generator_forward_no_stem (g : Generator.t R) d0 n style_dim max_conv_dim
    (x s : Tensor R) B c h w :
  generator_built g d0 n style_dim max_conv_dim ->
  d0 < 1 -> shape x = [B; c; h; w] ->
  Generator.forward g x s = Err RuntimeError.
Proof.
  intros (E & D & e1 & e2 & a1 & a2 & nm & cv & (_ & Hout & _) & _) Hd Hx.
  unfold Generator.forward.
  rewrite (Conv2d_forward_no_outputs (Generator.conv_in g) x B c h w Hx);
    [reflexivity | rewrite Hout; exact Hd].
Qed.

Lemma Generator_forward_too_small_raises (g : Generator.t R) d0 n style_dim max_conv_dim
    (x s : Tensor R) B h w :
  generator_built g d0 n style_dim max_conv_dim ->
  1 <= h -> 1 <= w -> h < pow2 n \/ w < pow2 n ->
  shape x = [B; 3; h; w] -> 1 <= max_conv_dim ->
  exists e, Generator.forward g x s = Err e.
Proof.
  intros Bg Hh Hw Hsmall Hx Hm.
  destruct (Z_lt_le_dec d0 1) as [Hd|Hd].
  { rewrite (Generator_forward_no_stem g d0 n style_dim max_conv_dim x s B 3 h w Bg Hd Hx).
    eexists; reflexivity. }
  destruct Bg as (E & D & e1 & e2 & a1 & a2 & nm & c & Bin & Henc & Hdec & Bp & _).
  unfold Generator.forward; rewrite Henc.
  destruct (conv3x3_shape _ 3 d0 true x B h w Bin Hx Hh Hw Hd) as (x1 & -> & Hx1).
  cbn [bind].
  destruct (pyramid_built_encoder_too_small_raises max_conv_dim style_dim n d0 E D B h w x1
              Bp Hh Hw Hsmall Hx1 Hd Hm) as (e & Ee).
  exists e; rewrite (foldM_app_err ResBlock.forward E [e1; e2] x1 e Ee); reflexivity.
Qed.

Lemma Generator_forward_too_small (g : Generator.t R) d0 n style_dim max_conv_dim
    (x s : Tensor R) B h w :
  generator_built g d0 n style_dim max_conv_dim ->
  1 <= h -> 1 <= w -> h < pow2 n \/ w < pow2 n ->
  2 * pow2 n <= h \/ 2 * pow2 n <= w ->
  shape x = [B; 3; h; w] -> 1 <= max_conv_dim ->
  Generator.forward g x s = Err RuntimeError.
Proof.
  intros Bg Hh Hw Hsmall Hbig Hx Hm.
  destruct (Z_lt_le_dec d0 1) as [Hd|Hd].
  { exact (Generator_forward_no_stem g d0 n style_dim max_conv_dim x s B 3 h w Bg Hd Hx). }
  destruct Bg as (E & D & e1 & e2 & a1 & a2 & nm & c & Bin & Henc & Hdec & Bp & _).
  unfold Generator.forward; rewrite Henc.
  destruct (conv3x3_shape _ 3 d0 true x B h w Bin Hx Hh Hw Hd) as (x1 & -> & Hx1).
  cbn [bind].
  rewrite (foldM_app_err ResBlock.forward E [e1; e2] x1 RuntimeError);
    [reflexivity|].
  apply (pyramid_built_encoder_too_small max_conv_dim style_dim n d0 E D B h w x1
           Bp Hh Hw Hsmall Hbig Hx1 Hd Hm).
Qed.

Lemma Generator_forward_wrong_channels (g : Generator.t R) d0 n style_dim max_conv_dim
    (x s : Tensor R) B c h w :
  generator_built g d0 n style_dim max_conv_dim ->
  shape x = [B; c; h; w] -> c <> 3 ->
  Generator.forward g x s = Err RuntimeError.
Proof.
  intros (E & D & e1 & e2 & a1 & a2 & nm & cv & (Hin & _) & _) Hx Hc.
  unfold Generator.forward.
  rewrite (Conv2d_forward_wrong_channels (Generator.conv_in g) x B c h w Hx);
    [reflexivity | rewrite Hin; exact Hc].
Qed.

End GeneratorAnySize.

(** ** The discriminator on images and index vectors of other sizes *)

Section DiscriminatorEdges.

Context {R : Type} `{Scalar R}.

Lemma conv4x4_too_small (c : Conv2d R) cin cout bias (x : Tensor R) n h w :
  conv_built c cin cout 4 1 0 bias -> shape x = [n; cin; h; w] ->
  h < 4 \/ w < 4 ->
  Conv2d_forward c x = Err RuntimeError.
Proof.
  intros (Hi & _ & Hk & Hs & Hp & _) Hx Hsmall.
  unfold Conv2d_forward; rewrite Hx, Hi, Z.eqb_refl, Hk, Hs, Hp.
  destruct (out_channels c <? 1); [reflexivity|].
  unfold conv_out_size.
  destruct (h + 2 * 0 - 4 <? 0) eqn:Eh; [reflexivity|]; cbn [bind].
  destruct (w + 2 * 0 - 4 <? 0) eqn:Ew; [reflexivity|].
  apply Z.ltb_ge in Eh, Ew; lia.
Qed.

(** The layers shared by the discriminator and the style encoder up to the
    4 x 4 convolution, on an image with a side below the size they were
    built for. *)
Lemma pyramid_prefix_too_small (c0 c1 : Conv2d R) (bs rest : Sequential.t R)
    d0 n max_conv_dim (x : Tensor R) B h w :
  conv_built c0 3 d0 3 1 1 true ->
  down_built n d0 max_conv_dim bs ->
  conv_built c1 (width_after n d0 max_conv_dim) (width_after n d0 max_conv_dim)
             4 1 0 true ->
  1 <= h -> 1 <= w -> h < 4 * pow2 n \/ w < 4 * pow2 n ->
  shape x = [B; 3; h; w] -> 1 <= d0 -> 1 <= max_conv_dim ->
  Sequential.forward
    ([LConv2d c0] ++ bs ++ LActivation (LeakyReLU 0.2%Q) :: LConv2d c1 :: rest) x
  = Err RuntimeError.
Proof.
  intros B0 Bbs B1 Hh Hw Hsmall Hx Hd Hm.
  pose proof (pow2_pos n) as Hp.
  unfold Sequential.forward; cbn [app foldM Sequential.Layer_forward].
  destruct (conv3x3_shape c0 3 d0 true x B h w B0 Hx Hh Hw Hd) as (x1 & -> & Hx1).
  cbn [bind].
  destruct (Z_lt_le_dec h (pow2 n)) as [Hhs|Hhl].
  { apply foldM_app_err.
    apply (down_built_too_small max_conv_dim n d0 bs B h w x1 Bbs Hh Hw
             (or_introl Hhs) Hx1 Hd Hm). }
  destruct (Z_lt_le_dec w (pow2 n)) as [Hws|Hwl].
  { apply foldM_app_err.
    apply (down_built_too_small max_conv_dim n d0 bs B h w x1 Bbs Hh Hw
             (or_intror Hws) Hx1 Hd Hm). }
  destruct (down_built_floor max_conv_dim n d0 bs B h w Bbs Hhl Hwl Hd Hm x1 Hx1)
    as (x2 & Ex2 & Hx2).
  rewrite (foldM_app_ok Sequential.Layer_forward bs _ x1 x2 Ex2).
  cbn [foldM Sequential.Layer_forward bind].
  rewrite (conv4x4_too_small c1 _ _ true _ B (h / pow2 n) (w / pow2 n) B1);
    [reflexivity | rewrite Activation_forward_shape; exact Hx2 |].
  destruct Hsmall as [Hs|Hs]; [left | right];
    apply Z.div_lt_upper_bound; lia.
Qed.

Lemma Discriminator_forward_too_small (d : Discriminator.t R) d0 n num_domains
    max_conv_dim (x : Tensor R) y B h w :
  discriminator_built d d0 n num_domains max_conv_dim ->
  1 <= h -> 1 <= w -> h < 4 * pow2 n \/ w < 4 * pow2 n ->
  shape x = [B; 3; h; w] -> 1 <= d0 -> 1 <= max_conv_dim ->
  Discriminator.forward d x y = Err RuntimeError.
Proof.
  intros (c0 & bs & c1 & c2 & Hbl & B0 & Bbs & B1 & B2) Hh Hw Hsmall Hx Hd Hm.
  unfold Discriminator.forward; rewrite Hbl.
  rewrite (pyramid_prefix_too_small c0 c1 bs _ d0 n max_conv_dim x B h w
             B0 Bbs B1 Hh Hw Hsmall Hx Hd Hm).
  reflexivity.
Qed.

(** With the logits in hand, the number of indices decides: no more indices
    than examples, one entry per index; more, [IndexError]. *)
Lemma Discriminator_forward_lengths (d : Discriminator.t R) (x logits : Tensor R)
    y B D :
  Sequential.forward (Discriminator.blocks d) x = Ok logits ->
  shape logits = [B; D; 1; 1] -> 1 <= B ->
  Forall (fun i => - D <= i < D) y ->
  (Z.of_nat (length y) <= B ->
   exists out,
     Discriminator.forward d x y = Ok out /\
     shape out = [Z.of_nat (length y)] /\
     forall k, 0 <= k < Z.of_nat (length y) ->
       get out [k] = get logits [k; wrap_index D (nth (Z.to_nat k) y 0); 0; 0]) /\
  (B < Z.of_nat (length y) -> Discriminator.forward d x y = Err IndexError).
Proof.
  intros El Hl HB Hall; unfold Discriminator.forward; rewrite El; cbn [bind].
  unfold size; rewrite Hl; cbn [nth_error bind].
  rewrite (view_flatten logits B [D; 1; 1] Hl) by lia.
  cbn [bind numel fold_right]; rewrite !Z.mul_1_r.
  set (v := {| shape := [B; D]; get := _ |}).
  split.
  - intros Hlen.
    destruct (index2_batch_ok v B D [] y eq_refl Hlen Hall) as (out & -> & Hs & Hg).
    cbn [bind]; exists out; split; [reflexivity|]; split; [exact Hs|].
    intros k Hk; rewrite (Hg k [] Hk); unfold v; cbn [get]; rewrite Hl.
    assert (Hw : 0 <= wrap_index D (nth (Z.to_nat k) y 0) < D).
    { rewrite Forall_forall in Hall.
      assert (Hin : In (nth (Z.to_nat k) y 0) y) by (apply nth_In; lia).
      specialize (Hall _ Hin); unfold wrap_index.
      destruct (nth (Z.to_nat k) y 0 <? 0) eqn:E;
        [apply Z.ltb_lt in E | apply Z.ltb_ge in E]; lia. }
    rewrite (unravel_ravel_2_4 B D k _ Hw); reflexivity.
  - intros Hlen; unfold index2; change (shape v) with [B; D].
    rewrite batch_indices_length, Nat.eqb_refl; cbn [negb].
    replace (forallb (index_in_range B) (batch_indices y)) with false; [reflexivity|].
    symmetry; apply not_true_is_false; intros Hf.
    rewrite forallb_forall in Hf.
    assert (Hin : In B (batch_indices y)).
    { unfold batch_indices, zrange; apply in_map_iff.
      exists (Z.to_nat B); split; [lia|]; apply in_seq; lia. }
    apply Hf, index_in_range_spec in Hin; lia.
Qed.

Lemma Discriminator_forward_wrong_channels (d : Discriminator.t R) d0 n num_domains
    max_conv_dim (x : Tensor R) y B c h w :
  discriminator_built d d0 n num_domains max_conv_dim ->
  shape x = [B; c; h; w] -> c <> 3 ->
  Discriminator.forward d x y = Err RuntimeError.
Proof.
  intros (c0 & bs & c1 & c2 & Hbl & (Hin & _) & _) Hx Hc.
  unfold Discriminator.forward; rewrite Hbl.
  unfold Sequential.forward; cbn [app foldM Sequential.Layer_forward].
  rewrite (Conv2d_forward_wrong_channels c0 x B c h w Hx);
    [reflexivity | rewrite Hin; exact Hc].
Qed.

End DiscriminatorEdges.

(** ** The style encoder on images *)

Section StyleEncoderOnImages.

Context {R : Type} `{Scalar R}.

Lemma heads_on_input_shapes (heads : list (Linear R)) b style_dim (x : Tensor R) pre :
  Forall (fun l => linear_built l b style_dim) heads ->
  shape x = pre ++ [b] ->
  exists outs,
    mapM (fun l => Linear_forward l x) heads = Ok outs /\
    length outs = length heads /\
    Forall (fun t => shape t = pre ++ [style_dim]) outs.
Proof.
  intros Hall Hx; induction Hall as [|l ls Hl _ IH].
  - exists []; repeat split; constructor.
  - destruct IH as (outs & Eouts & Hlen & Hsh).
    destruct (Linear_forward_shape l b style_dim x pre Hl Hx) as (o & Eo & Ho).
    exists (o :: outs); cbn [mapM]; rewrite Eo, Eouts; cbn [bind].
    split; [reflexivity|]; split; [simpl; congruence | constructor; assumption].
Qed.

Lemma stack_dim1_same_shapes (ts : list (Tensor R)) d0 rest :
  ts <> [] -> Forall (fun t => shape t = d0 :: rest) ts ->
  exists t,
    stack_dim1 ts = Ok t /\ shape t = d0 :: Z.of_nat (length ts) :: rest.
Proof.
  intros Hne Hall; unfold stack_dim1.
  destruct ts as [|t0 ts']; [contradiction|].
  pose proof (Forall_inv Hall) as H0; simpl in H0; rewrite H0.
  replace (forallb _ (t0 :: ts')) with true.
  - eexists; split; reflexivity.
  - symmetry; apply forallb_forall; intros t Ht.
    rewrite Forall_forall in Hall; rewrite (Hall t Ht).
    destruct (list_eq_dec Z.eq_dec (d0 :: rest) (d0 :: rest)); [reflexivity | contradiction].
Qed.

Lemma StyleEncoder_forward_on_image (m : StyleEncoder.t R) d0 n style_dim num_domains
    max_conv_dim (x : Tensor R) y side :
  styleencoder_built m d0 n style_dim num_domains max_conv_dim ->
  1 <= num_domains -> (1 <= length y)%nat ->
  side = 4 * pow2 n ->
  shape x = [Z.of_nat (length y); 3; side; side] ->
  Forall (fun i => - num_domains <= i < num_domains) y ->
  1 <= d0 -> 1 <= max_conv_dim ->
  (width_after n d0 max_conv_dim <> side ->
   StyleEncoder.forward m x y = Err RuntimeError) /\
  (width_after n d0 max_conv_dim = side ->
   returns_shape (StyleEncoder.forward m x y)
                 [Z.of_nat (length y); 3; side; style_dim]).
Proof.
  intros Bm Hnd Hy Hside Hx Hall Hd Hm.
  assert (Hx' : shape x = [Z.of_nat (length y); 3; 4 * pow2 n; 4 * pow2 n])
    by (rewrite <- Hside; exact Hx).
  destruct (StyleEncoder_shared_shape m d0 n style_dim num_domains max_conv_dim
              (Z.of_nat (length y)) Bm Hd Hm x Hx') as (h & Eh & Hh).
  destruct Bm as (c0 & bs & c1 & _ & _ & _ & _ & Hlen & Hheads).
  set (b := width_after n d0 max_conv_dim) in *.
  unfold StyleEncoder.forward; rewrite Eh; cbn [bind].
  unfold size; rewrite Hh; cbn [nth_error bind].
  rewrite (view_flatten h (Z.of_nat (length y)) [b; 1; 1] Hh) by lia.
  cbn [bind].
  split.
  - intros Hne.
    destruct (StyleEncoder.unshared m) as [|l ls]; [simpl in Hlen; lia|].
    pose proof (Forall_inv Hheads) as (Hin & _).
    rewrite (mapM_first_err _ l ls RuntimeError); [reflexivity|].
    apply (Linear_forward_bad_width l x [Z.of_nat (length y); 3; side] side Hx).
    rewrite Hin; auto.
  - intros Heq.
    destruct (heads_on_input_shapes (StyleEncoder.unshared m) b style_dim x
                [Z.of_nat (length y); 3; side] Hheads
                ltac:(rewrite Heq; exact Hx)) as (outs & -> & Hlo & Hso).
    cbn [bind].
    destruct (stack_dim1_same_shapes outs (Z.of_nat (length y)) [3; side; style_dim])
      as (stacked & -> & Hst).
    + intros ->; simpl in Hlo; lia.
    + exact Hso.
    + cbn [bind]; rewrite Hlo, Hlen, Z2Nat.id in Hst by lia.
      destruct (index2_batch_ok stacked _ _ _ y Hst ltac:(lia) Hall)
        as (out & -> & Hs & _).
      cbn [bind]; exists out; split; [reflexivity | exact Hs].
Qed.

Lemma StyleEncoder_forward_wrong_channels (m : StyleEncoder.t R) d0 n style_dim
    num_domains max_conv_dim (x : Tensor R) y B c h w :
  styleencoder_built m d0 n style_dim num_domains max_conv_dim ->
  shape x = [B; c; h; w] -> c <> 3 ->
  StyleEncoder.forward m x y = Err RuntimeError.
Proof.
  intros (c0 & bs & c1 & Hsh & (Hin & _) & _) Hx Hc.
  unfold StyleEncoder.forward; rewrite Hsh.
  unfold Sequential.forward; cbn [app foldM Sequential.Layer_forward].
  rewrite (Conv2d_forward_wrong_channels c0 x B c h w Hx);
    [reflexivity | rewrite Hin; exact Hc].
Qed.

End StyleEncoderOnImages.

Lemma pyramid_width_closed img mx :
  pyramid_size img -> 0 <= mx ->
  width_after (Z.to_nat (Z.log2 img - 2)) (2 ^ 14 / img) mx = Z.min 4096 mx.
Proof.
  intros Hsz Hmx.
  destruct (pyramid_size_facts img Hsz) as (Hi & Hn & _).
  destruct Hsz as ((Hlo & Hhi) & Hpow).
  assert (Hk : Z.log2 img <= 14).
  { destruct (Z_le_gt_dec (Z.log2 img) 14) as [|Hgt]; [assumption|].
    assert (2 ^ 15 <= 2 ^ Z.log2 img) by (apply Z.pow_le_mono_r; lia).
    rewrite <- Hpow in *; simpl in *; lia. }
  rewrite width_after_closed by (try apply stem_width_nonneg; lia).
  rewrite pow2_log2 by lia.
  rewrite (stem_times_pow2 img (Z.log2 img) 2) by (try lia; exact Hpow).
  reflexivity.
Qed.

(** ** The mapping network's parts *)

Section MappingParts.

Context {R : Type} `{Scalar R}.
Variable param : nat -> list Z -> R.

Lemma mapping_heads_loop_built style_dim n : forall (acc : list (Sequential.t R)) st,
  0 <= style_dim ->
  exists heads st',
    for_range n
      (fun unshared =>
         l1 <~ Linear_init param 512 512 ;;
         l2 <~ Linear_init param 512 512 ;;
         l3 <~ Linear_init param 512 512 ;;
         l4 <~ Linear_init param 512 style_dim ;;
         ret (unshared ++ [[LLinear l1; LActivation ReLU;
                            LLinear l2; LActivation ReLU;
                            LLinear l3; LActivation ReLU;
                            LLinear l4]]))
      acc st
    = Ok (acc ++ heads, st') /\
    length heads = n /\
    Forall (fun head => mapping_head_built head style_dim) heads.
Proof.
  induction n as [|n IH]; intros acc st Hs.
  - exists [], st; rewrite app_nil_r; repeat split; constructor.
  - destruct (Linear_init_ok param 512 512 st ltac:(lia) ltac:(lia)) as (h1 & m1 & F1 & B1).
    destruct (Linear_init_ok param 512 512 m1 ltac:(lia) ltac:(lia)) as (h2 & m2 & F2 & B2).
    destruct (Linear_init_ok param 512 512 m2 ltac:(lia) ltac:(lia)) as (h3 & m3 & F3 & B3).
    destruct (Linear_init_ok param 512 style_dim m3 ltac:(lia) Hs) as (h4 & m4 & F4 & B4).
    rewrite for_range_S, !bindM_assoc.
    rewrite (bindM_ok _ F1); cbv beta; rewrite !bindM_assoc, (bindM_ok _ F2); cbv beta.
    rewrite !bindM_assoc, (bindM_ok _ F3); cbv beta.
    rewrite !bindM_assoc, (bindM_ok _ F4); cbv beta.
    rewrite bindM_ret.
    destruct (IH (acc ++ [[LLinear h1; LActivation ReLU; LLinear h2; LActivation ReLU;
                           LLinear h3; LActivation ReLU; LLinear h4]]) m4 Hs)
      as (heads & st' & E & Hlen & Hall).
    eexists (_ :: heads), st'; split; [|split].
    + refine (eq_trans E _); rewrite <- app_assoc; reflexivity.
    + simpl; congruence.
    + constructor; [|exact Hall].
      exists h1, h2, h3, h4; auto.
Qed.

Lemma MappingNetwork_init_built latent_dim style_dim num_domains st :
  0 <= latent_dim -> 0 <= style_dim ->
  exists m st',
    MappingNetwork.__init__ param latent_dim style_dim num_domains st = Ok (m, st') /\
    length (MappingNetwork.unshared m) = Z.to_nat num_domains /\
    Forall (fun head => mapping_head_built head style_dim) (MappingNetwork.unshared m).
Proof.
  intros Hl Hs; unfold MappingNetwork.__init__.
  destruct (Linear_init_ok param latent_dim 512 st Hl ltac:(lia)) as (l0 & n0 & E0 & B0).
  rewrite (bindM_ok _ E0); cbv beta zeta.
  rewrite !for_range_S; cbn [for_range].
  destruct (Linear_init_ok param 512 512 n0 ltac:(lia) ltac:(lia)) as (l1 & n1 & E1 & B1).
  destruct (Linear_init_ok param 512 512 n1 ltac:(lia) ltac:(lia)) as (l2 & n2 & E2 & B2).
  destruct (Linear_init_ok param 512 512 n2 ltac:(lia) ltac:(lia)) as (l3 & n3 & E3 & B3).
  rewrite !bindM_assoc, (bindM_ok _ E1); cbv beta.
  rewrite bindM_ret, !bindM_assoc, (bindM_ok _ E2); cbv beta.
  rewrite bindM_ret, !bindM_assoc, (bindM_ok _ E3); cbv beta.
  rewrite !bindM_ret.
  destruct (mapping_heads_loop_built style_dim (Z.to_nat num_domains) [] n3 Hs)
    as (heads & st' & Eh & Hlen & Hall).
  rewrite (bindM_ok _ Eh); cbv beta.
  eexists _, _; split; [reflexivity|].
  cbn [MappingNetwork.unshared app]; split; assumption.
Qed.

Lemma mapping_head_shape (head : Sequential.t R) style_dim B :
  mapping_head_built head style_dim ->
  maps_shape (Sequential.forward head) [B; 512] [B; style_dim].
Proof.
  intros (l1 & l2 & l3 & l4 & -> & B1 & B2 & B3 & B4).
  apply (Sequential_forward_cons _ _ _ [B; 512]);
    [exact (linear_layer_shape l1 512 512 [B] B1)|].
  apply (Sequential_forward_cons _ _ _ [B; 512]); [apply activation_layer_shape|].
  apply (Sequential_forward_cons _ _ _ [B; 512]);
    [exact (linear_layer_shape l2 512 512 [B] B2)|].
  apply (Sequential_forward_cons _ _ _ [B; 512]); [apply activation_layer_shape|].
  apply (Sequential_forward_cons _ _ _ [B; 512]);
    [exact (linear_layer_shape l3 512 512 [B] B3)|].
  apply (Sequential_forward_cons _ _ _ [B; 512]); [apply activation_layer_shape|].
  apply (Sequential_forward_cons _ _ _ [B; style_dim]);
    [exact (linear_layer_shape l4 512 style_dim [B] B4)|].
  apply Sequential_forward_nil.
Qed.

Lemma MappingNetwork_forward_wrong_width (m : MappingNetwork.t R) latent_dim
    l0 l1 l2 l3 (z : Tensor R) y pre d :
  MappingNetwork.shared m
  = [LLinear l0; LLinear l1; LActivation ReLU; LLinear l2; LActivation ReLU;
     LLinear l3; LActivation ReLU] ->
  linear_built l0 latent_dim 512 ->
  shape z = pre ++ [d] -> d <> latent_dim ->
  MappingNetwork.forward m z y = Err RuntimeError.
Proof.
  intros Hsh (Hin & _) Hz Hd.
  unfold MappingNetwork.forward; rewrite Hsh.
  unfold Sequential.forward; cbn [foldM Sequential.Layer_forward].
  rewrite (Linear_forward_bad_width l0 z pre d Hz); [reflexivity|].
  rewrite Hin; exact Hd.
Qed.

End MappingParts.

(** ** The widths the pyramids reach *)

Section PyramidWidths.

Context {R : Type} `{Scalar R}.

Lemma down_built_length n : forall d mx (bs : Sequential.t R),
  down_built n d mx bs -> length bs = n.
Proof.
  induction n as [|n IH]; intros d mx bs Hb.
  - simpl in Hb; subst; reflexivity.
  - destruct Hb as (b & bs' & -> & _ & Hb'); simpl; f_equal; exact (IH _ _ _ Hb').
Qed.

Lemma pyramid_built_length n : forall d mx sd (E : list (ResBlock.t R)) D,
  pyramid_built n d mx sd E D -> length E = n /\ length D = n.
Proof.
  induction n as [|n IH]; intros d mx sd E D Hb.
  - destruct Hb as [-> ->]; split; reflexivity.
  - destruct Hb as (e & E' & a & D' & -> & -> & _ & _ & Hb').
    destruct (IH _ _ _ _ _ Hb') as [HE HD].
    rewrite length_app; simpl; split; lia.
Qed.

End PyramidWidths.

Lemma log2_le_14 img : 1 <= img <= 2 ^ 14 -> Z.log2 img <= 14.
Proof.
  intros [Hlo Hhi].
  change 14 with (Z.log2 (2 ^ 14)); apply Z.log2_le_mono; exact Hhi.
Qed.

Lemma bottleneck_width_closed img mx :
  32 <= img <= 2 ^ 14 -> img = 2 ^ Z.log2 img -> 0 <= mx ->
  width_after (Z.to_nat (Z.log2 img - 4)) (2 ^ 14 / img) mx = Z.min 1024 mx.
Proof.
  intros Hr Hpow Hmx.
  assert (5 <= Z.log2 img) by (apply log2_ge; simpl; lia).
  assert (Z.log2 img <= 14) by (apply log2_le_14; lia).
  rewrite width_after_closed by (try apply stem_width_nonneg; lia).
  rewrite pow2_log2 by lia.
  rewrite (stem_times_pow2 img (Z.log2 img) 4) by (try lia; exact Hpow).
  reflexivity.
Qed.

(** ** The discriminator on images larger than its size *)

Lemma unravel_ravel_flat B k c rest :
  0 <= c < numel rest ->
  unravel (B :: rest) (ravel [B; numel rest] [k; c]) = k :: unravel rest c.
Proof.
  intros Hc; cbn [unravel ravel numel fold_right].
  rewrite ?Z.mul_1_r, ?Z.add_0_r.
  fold (numel rest).
  replace (k * numel rest + c) with (c + k * numel rest) by lia.
  rewrite Z.div_add, Z.mod_add by lia.
  rewrite Z.div_small, Z.mod_small by lia.
  reflexivity.
Qed.

Section DiscriminatorLargerImages.

Context {R : Type} `{Scalar R}.

Lemma Discriminator_blocks_floor (d : Discriminator.t R) d0 n num_domains max_conv_dim
    B h w :
  discriminator_built d d0 n num_domains max_conv_dim ->
  4 * pow2 n <= h -> 4 * pow2 n <= w ->
  1 <= d0 -> 1 <= num_domains -> 1 <= max_conv_dim ->
  4 <= h / pow2 n /\ 4 <= w / pow2 n /\
  maps_shape (Sequential.forward (Discriminator.blocks d))
             [B; 3; h; w] [B; num_domains; h / pow2 n - 3; w / pow2 n - 3].
Proof.
  intros (c0 & bs & c1 & c2 & Hbl & B0 & Bbs & B1 & B2) Hh Hw Hd Hnd Hm; rewrite Hbl.
  pose proof (pow2_pos n) as Hp.
  pose proof (width_after_pos n d0 max_conv_dim Hd Hm) as Hb.
  assert (Hh4 : 4 <= h / pow2 n) by (apply Z.div_le_lower_bound; lia).
  assert (Hw4 : 4 <= w / pow2 n) by (apply Z.div_le_lower_bound; lia).
  split; [exact Hh4|]; split; [exact Hw4|].
  eapply Sequential_forward_app.
  { apply (maps_shape_one Sequential.Layer_forward); intros x Hx.
    apply (conv3x3_shape c0 3 d0 true x B _ _ B0 Hx); lia. }
  eapply Sequential_forward_app.
  { apply (down_built_floor max_conv_dim n d0 bs B h w Bbs); lia. }
  eapply Sequential_forward_cons; [apply activation_layer_shape|].
  eapply Sequential_forward_cons.
  { intros x Hx; apply (conv4x4_shape c1 _ _ true x B _ _ B1 Hx); lia. }
  eapply Sequential_forward_cons; [apply activation_layer_shape|].
  eapply Sequential_forward_cons; [|apply Sequential_forward_nil].
  intros x Hx; apply (conv1x1_shape c2 _ num_domains true x B _ _ B2 Hx); lia.
Qed.

Lemma Discriminator_forward_flat_select (d : Discriminator.t R) (x logits : Tensor R)
    y D rows cols :
  Sequential.forward (Discriminator.blocks d) x = Ok logits ->
  shape logits = [Z.of_nat (length y); D; rows; cols] -> (1 <= length y)%nat ->
  (Exists (fun i => ~ (- (D * rows * cols) <= i < D * rows * cols)) y ->
   Discriminator.forward d x y = Err IndexError) /\
  (Forall (fun i => - (D * rows * cols) <= i < D * rows * cols) y ->
   exists out,
     Discriminator.forward d x y = Ok out /\
     shape out = [Z.of_nat (length y)] /\
     forall k, 0 <= k < Z.of_nat (length y) ->
       get out [k]
       = get logits (k :: unravel [D; rows; cols]
                                  (wrap_index (D * rows * cols) (nth (Z.to_nat k) y 0)))).
Proof.
  intros El Hl Hy; unfold Discriminator.forward; rewrite El; cbn [bind].
  unfold size; rewrite Hl; cbn [nth_error bind].
  rewrite (view_flatten logits (Z.of_nat (length y)) [D; rows; cols] Hl) by lia.
  cbn [bind].
  assert (HN : numel [D; rows; cols] = D * rows * cols)
    by (cbn [numel fold_right]; lia).
  set (v := {| shape := [Z.of_nat (length y); numel [D; rows; cols]]; get := _ |}).
  split.
  - intros Hex.
    rewrite (index2_batch_err v (Z.of_nat (length y)) (numel [D; rows; cols]) [] y eq_refl);
      [reflexivity | rewrite HN; exact Hex].
  - intros Hall.
    destruct (index2_batch_ok v (Z.of_nat (length y)) (numel [D; rows; cols]) [] y
                eq_refl ltac:(lia) ltac:(rewrite HN; exact Hall))
      as (out & -> & Hs & Hg).
    cbn [bind]; exists out; split; [reflexivity|]; split; [exact Hs|].
    intros k Hk; rewrite (Hg k [] Hk); unfold v; cbn [get]; rewrite Hl.
    assert (Hw : 0 <= wrap_index (D * rows * cols) (nth (Z.to_nat k) y 0)
                 < D * rows * cols).
    { rewrite Forall_forall in Hall.
      assert (Hin : In (nth (Z.to_nat k) y 0) y) by (apply nth_In; lia).
      specialize (Hall _ Hin); unfold wrap_index.
      destruct (nth (Z.to_nat k) y 0 <? 0) eqn:E;
        [apply Z.ltb_lt in E | apply Z.ltb_ge in E]; lia. }
    rewrite HN.
    rewrite <- HN in Hw at 2.
    rewrite <- HN at 1.
    rewrite (unravel_ravel_flat (Z.of_nat (length y)) k _ [D; rows; cols]);
      [reflexivity|].
    rewrite HN in *; exact Hw.
Qed.

End DiscriminatorLargerImages.

(** ** Style codes of another width, and small images in the style encoder *)

Section StyleWidth.

Context {R : Type} `{Scalar R}.

Lemma AdaResBlock_forward_bad_style (b : AdaResBlock.t R) dim_in dim_out style_dim a up
    (x s : Tensor R) pre d :
  adablock_built b dim_in dim_out style_dim a up ->
  shape s = pre ++ [d] -> d <> style_dim ->
  AdaResBlock.forward b x s = Err RuntimeError.
Proof.
  intros (_ & _ & _ & _ & _ & (_ & (Hin & _)) & _) Hs Hd.
  unfold AdaResBlock.forward, AdaResBlock._residual, AdaptiveInstanceNorm.forward.
  rewrite (Linear_forward_bad_width _ s pre d Hs); [reflexivity|].
  rewrite Hin; exact Hd.
Qed.

Lemma Generator_forward_bad_style (g : Generator.t R) d0 n style_dim max_conv_dim
    (x s : Tensor R) B h w pre d :
  generator_built g d0 n style_dim max_conv_dim ->
  pow2 n <= h -> pow2 n <= w ->
  shape x = [B; 3; h; w] ->
  shape s = pre ++ [d] -> d <> style_dim ->
  1 <= max_conv_dim -> 1 < (h / pow2 n) * (w / pow2 n) ->
  Generator.forward g x s = Err RuntimeError.
Proof.
  intros Bg Hh Hw Hx Hs Hd Hm Hpos.
  destruct (Z_lt_le_dec d0 1) as [Hd0|Hd0].
  { exact (Generator_forward_no_stem g d0 n style_dim max_conv_dim x s B 3 h w Bg Hd0 Hx). }
  destruct Bg as (E & D & e1 & e2 & a1 & a2 & nm & c & Bin & Henc & Hdec & Bp &
                  (Be1 & Be2 & Ba1 & Ba2) & _).
  pose proof (pow2_pos n) as Hp.
  set (b := width_after n d0 max_conv_dim) in *.
  assert (Hb : 1 <= b) by (apply width_after_pos; assumption).
  assert (Hh' : 1 <= h / pow2 n) by (apply Z.div_le_lower_bound; lia).
  assert (Hw' : 1 <= w / pow2 n) by (apply Z.div_le_lower_bound; lia).
  unfold Generator.forward; rewrite Henc, Hdec.
  destruct (conv3x3_shape _ 3 d0 true x B h w Bin Hx ltac:(lia) ltac:(lia) Hd0)
    as (x1 & -> & Hx1).
  cbn [bind].
  assert (Henc_ok : returns_shape (foldM ResBlock.forward (E ++ [e1; e2]) x1)
                                  [B; b; h / pow2 n; w / pow2 n]).
  { refine (maps_shape_app ResBlock.forward E [e1; e2] _
              [B; b; h / pow2 n; w / pow2 n] [B; b; h / pow2 n; w / pow2 n] _ _ x1 Hx1).
    - apply (pyramid_built_encoder_floor max_conv_dim style_dim n d0 E D B h w Bp Hh Hw
               Hd0 Hm Hpos).
    - apply (maps_shape_app ResBlock.forward [e1] [e2] _ [B; b; h / pow2 n; w / pow2 n]);
        apply maps_shape_one; intros t Ht.
      + apply (ResBlock_forward_shape e1 b b _ false true t B _ _ Be1 Ht Hh' Hw');
          try discriminate; try assumption; intros _; exact Hpos.
      + apply (ResBlock_forward_shape e2 b b _ false true t B _ _ Be2 Ht Hh' Hw');
          try discriminate; try assumption; intros _; exact Hpos. }
  destruct Henc_ok as (x2 & -> & _); cbn [bind app foldM].
  rewrite (AdaResBlock_forward_bad_style a2 b b style_dim _ false x2 s pre d Ba2 Hs Hd).
  reflexivity.
Qed.

Lemma StyleEncoder_forward_too_small (m : StyleEncoder.t R) d0 n style_dim num_domains
    max_conv_dim (x : Tensor R) y B h w :
  styleencoder_built m d0 n style_dim num_domains max_conv_dim ->
  1 <= h -> 1 <= w -> h < 4 * pow2 n \/ w < 4 * pow2 n ->
  shape x = [B; 3; h; w] -> 1 <= d0 -> 1 <= max_conv_dim ->
  StyleEncoder.forward m x y = Err RuntimeError.
Proof.
  intros (c0 & bs & c1 & Hsh & B0 & Bbs & B1 & _) Hh Hw Hsmall Hx Hd Hm.
  unfold StyleEncoder.forward; rewrite Hsh.
  rewrite (pyramid_prefix_too_small c0 c1 bs _ d0 n max_conv_dim x B h w
             B0 Bbs B1 Hh Hw Hsmall Hx Hd Hm).
  reflexivity.
Qed.

End StyleWidth.

(** ** The last convolution of the discriminator *)

Section LastConv.

Context {R : Type} `{Scalar R}.
Variable param : nat -> list Z -> R.

Lemma Conv2d_init_params cin cout k s p n c n' :
  Conv2d_init param cin cout k s p true n = Ok (c, n') ->
  get (conv_weight c) = param n /\
  exists bt, conv_bias c = Some bt /\ get bt = param (S n).
Proof.
  unfold Conv2d_init; intros E.
  apply bindM_inv in E; destruct E as (w & n1 & Ew & E).
  apply bindM_inv in E; destruct E as (b & n2 & Eb & E).
  apply ret_inv in E; destruct E as [-> _].
  apply bindM_inv in Eb; destruct Eb as (t & n3 & Et & Eb).
  apply ret_inv in Eb; destruct Eb as [-> _].
  unfold alloc in Ew, Et.
  destruct (existsb _ [cout; cin; k; k]); [discriminate|].
  destruct (existsb _ [cout]); [discriminate|].
  inversion Ew; subst; inversion Et; subst.
  split; [reflexivity|]; eexists; split; reflexivity.
Qed.

Lemma Discriminator_init_last_conv img_size num_domains max_conv_dim st d st' :
  Discriminator.__init__ param img_size num_domains max_conv_dim st = Ok (d, st') ->
  exists front c k bt,
    Discriminator.blocks d = front ++ [LConv2d c] /\
    get (conv_weight c) = param k /\ conv_bias c = Some bt /\ get bt = param (S k).
Proof.
  unfold Discriminator.__init__; intros E.
  apply bindM_inv in E; destruct E as (d0 & n0 & _ & E).
  apply bindM_inv in E; destruct E as (c0 & n1 & _ & E).
  apply bindM_inv in E; destruct E as (lg & n2 & _ & E).
  apply bindM_inv in E; destruct E as ([[di dout] bl] & n3 & _ & E).
  apply bindM_inv in E; destruct E as (b & n4 & _ & E).
  apply bindM_inv in E; destruct E as (c1 & n5 & _ & E).
  apply bindM_inv in E; destruct E as (c2 & n6 & E2 & E).
  apply ret_inv in E; destruct E as [-> _].
  destruct (Conv2d_init_params _ _ _ _ _ _ _ _ E2) as (Hw & bt & Hb & Hbt).
  eexists _, c2, n5, bt; cbn [Discriminator.blocks].
  split; [reflexivity|]; auto.
Qed.

End LastConv.

Lemma ssum_all_zero (l : list Q) :
  Forall (fun q => q == 0)%Q l -> (ssum l == 0)%Q.
Proof.
  unfold ssum; cbn [sadd szero Q_Scalar].
  assert (G : forall a, Forall (fun q => q == 0)%Q l -> (fold_left Qplus l a == a)%Q).
  { induction l as [|q l IH]; intros a Hl; [reflexivity|].
    inversion Hl; subst; cbn [fold_left].
    rewrite IH by assumption.
    match goal with Hq : (q == 0)%Q |- _ => rewrite Hq end; ring. }
  intros Hl; exact (G 0%Q Hl).
Qed.

(** A convolution whose weights are all zero returns its bias. *)
Lemma Conv2d_forward_zero_weights (c : Conv2d Q) (t out bt : Tensor Q) b o i j :
  Conv2d_forward c t = Ok out ->
  (forall o' ci u v, get (conv_weight c) [o'; ci; u; v] = 0%Q) ->
  conv_bias c = Some bt ->
  (get out [b; o; i; j] == get bt [o])%Q.
Proof.
  unfold Conv2d_forward; intros E Hw Hb.
  destruct (shape t) as [|n [|ch [|h [|w [|? ?]]]]]; try discriminate.
  destruct (out_channels c <? 1); [discriminate|].
  destruct (ch =? in_channels c); [|discriminate].
  destruct (conv_out_size h _ _ _) as [h'|]; [|discriminate].
  destruct (conv_out_size w _ _ _) as [w'|]; [|discriminate].
  cbn [bind] in E; inversion E; subst out; clear E.
  cbn [get]; rewrite Hb.
  cbn [sadd Q_Scalar].
  rewrite ssum_all_zero; [ring|].
  apply Forall_forall; intros q Hq; apply in_map_iff in Hq; destruct Hq as (ci & <- & _).
  apply ssum_all_zero.
  apply Forall_forall; intros q Hq; apply in_map_iff in Hq; destruct Hq as (u & <- & _).
  apply ssum_all_zero.
  apply Forall_forall; intros q Hq; apply in_map_iff in Hq; destruct Hq as (v & <- & _).
  rewrite Hw; cbn [smul Q_Scalar]; ring.
Qed.

(* ================================================================== *)
(** * The statements of the specification *)

(** C1.  The default mapping network on one latent vector of 16 entries and
    domain 0: the shared trunk produces its 512 features, then the loop over
    the heads reads the name [unshared], which is bound nowhere; the call
    raises [NameError] instead of returning a (1, 64) tensor, and no call
    returns at all. *)
Theorem MappingNetwork_forward_raises_NameError :
  forall (R : Type) (S : Scalar R) (param : nat -> list Z -> R) (st : nat)
         (z : Tensor R),
    shape z = [1; 16] ->
    exists m st' h,
      MappingNetwork.__init__ param default_latent_dim default_style_dim
                              default_num_domains st = Ok (m, st') /\
      Sequential.forward (MappingNetwork.shared m) z = Ok h /\
      shape h = [1; 512] /\
      MappingNetwork.forward m z [0] = Err (NameError "unshared") /\
      forall z' y', is_ok (MappingNetwork.forward m z' y') = false.
Proof.
  intros R S param st z Hz.
  unfold default_latent_dim, default_style_dim, default_num_domains.
  pose proof (MappingNetwork_init_ok param 16 64 2 st ltac:(lia) ltac:(lia)) as Hok.
  destruct (MappingNetwork.__init__ param 16 64 2 st) as [[m st']|e] eqn:Einit;
    [|discriminate].
  destruct (MappingNetwork_init_shared param 16 64 2 st m st' Einit ltac:(lia))
    as (l0 & l1 & l2 & l3 & Hsh & B0 & B1 & B2 & B3).
  destruct (MappingNetwork_shared_shape m 16 l0 l1 l2 l3 1 Hsh B0 B1 B2 B3 z Hz)
    as (h & Eh & Hh).
  exists m, st', h; split; [reflexivity|]; split; [exact Eh|]; split; [exact Hh|].
  split.
  - unfold MappingNetwork.forward; rewrite Eh; reflexivity.
  - intros z' y'; unfold MappingNetwork.forward.
    destruct (Sequential.forward _ z'); reflexivity.
Qed.

Lemma MappingNetwork_forward_raises_NameError_witness :
  exists m st' h,
    MappingNetwork.__init__ zero_params default_latent_dim default_style_dim
                            default_num_domains 0%nat = Ok (m, st') /\
    Sequential.forward (MappingNetwork.shared m) (full [1; 16] 0%Q) = Ok h /\
    shape h = [1; 512] /\
    MappingNetwork.forward m (full [1; 16] 0%Q) [0] = Err (NameError "unshared") /\
    forall z' y', is_ok (MappingNetwork.forward m z' y') = false.
Proof.
  apply (MappingNetwork_forward_raises_NameError Q Q_Scalar zero_params 0%nat
           (full [1; 16] 0%Q)).
  reflexivity.
Defined.

(** C2.  The default style encoder on one 256 x 256 image and domain 0:
    the pyramid produces its 512 features, then the first head, a linear
    layer of 512 inputs, is called on the image, whose rows have 256 entries:
    the call raises instead of returning a (1, 64) tensor. *)
Theorem StyleEncoder_forward_default_raises :
  forall (R : Type) (S : Scalar R) (param : nat -> list Z -> R) (st : nat)
         (x : Tensor R),
    shape x = [1; 3; 256; 256] ->
    exists m st' h,
      StyleEncoder.__init__ param default_img_size default_style_dim
                            default_num_domains default_max_conv_dim st = Ok (m, st') /\
      Sequential.forward (StyleEncoder.shared m) x = Ok h /\
      shape h = [1; 512; 1; 1] /\
      StyleEncoder.forward m x [0] = Err RuntimeError.
Proof.
  intros R S param st x Hx.
  unfold default_img_size, default_style_dim, default_num_domains, default_max_conv_dim.
  destruct (StyleEncoder_init_ok param 256 64 2 512 st
              ltac:(lia) ltac:(simpl; lia) ltac:(lia) ltac:(lia) ltac:(lia))
    as (m & st' & Einit & Bm).
  destruct (StyleEncoder_shared_shape m _ _ 64 2 512 1 Bm (stem_width_pos 256 ltac:(simpl; lia)) ltac:(lia)
              x Hx) as (h & Eh & Hh).
  change (width_after (Z.to_nat (Z.log2 256 - 2)) (2 ^ 14 / 256) 512) with 512 in Hh.
  exists m, st', h; repeat split; try assumption.
  destruct Bm as (c0 & bs & c1 & _ & _ & _ & _ & Hlen & Hall).
  change (width_after (Z.to_nat (Z.log2 256 - 2)) (2 ^ 14 / 256) 512) with 512 in Hall.
  unfold StyleEncoder.forward; rewrite Eh; cbn [bind].
  unfold size; rewrite Hh; cbn [nth_error bind].
  rewrite (view_flatten h 1 [512; 1; 1] Hh ltac:(lia)); cbn [bind].
  destruct (StyleEncoder.unshared m) as [|l ls]; [discriminate Hlen|].
  inversion Hall as [|? ? Hl _]; subst.
  rewrite (mapM_first_err _ l ls RuntimeError); [reflexivity|].
  apply (Linear_forward_bad_width l x [1; 3; 256] 256 Hx).
  destruct Hl as [-> _]; lia.
Qed.

Lemma StyleEncoder_forward_default_raises_witness :
  exists m st' h,
    StyleEncoder.__init__ zero_params default_img_size default_style_dim
                          default_num_domains default_max_conv_dim 0%nat = Ok (m, st') /\
    Sequential.forward (StyleEncoder.shared m) (full [1; 3; 256; 256] 0%Q) = Ok h /\
    shape h = [1; 512; 1; 1] /\
    StyleEncoder.forward m (full [1; 3; 256; 256] 0%Q) [0] = Err RuntimeError.
Proof.
  apply (StyleEncoder_forward_default_raises Q Q_Scalar zero_params 0%nat
           (full [1; 3; 256; 256] 0%Q)).
  reflexivity.
Defined.

(** What the heads would return on the flattened feature: the (1, 64) style
    vector of the selected domain. *)
Lemma StyleEncoder_heads_on_shared_feature :
  forall (R : Type) (S : Scalar R) (param : nat -> list Z -> R) (st : nat)
         (h' : Tensor R),
    shape h' = [1; 512] ->
    exists m st',
      StyleEncoder.__init__ param default_img_size default_style_dim
                            default_num_domains default_max_conv_dim st = Ok (m, st') /\
      returns_shape (heads_on (StyleEncoder.unshared m) h' [0]) [1; 64].
Proof.
  intros R S param st h' Hh.
  unfold default_img_size, default_style_dim, default_num_domains, default_max_conv_dim.
  destruct (StyleEncoder_init_ok param 256 64 2 512 st
              ltac:(lia) ltac:(simpl; lia) ltac:(lia) ltac:(lia) ltac:(lia))
    as (m & st' & Einit & Bm).
  exists m, st'; split; [exact Einit|].
  destruct Bm as (c0 & bs & c1 & _ & _ & _ & _ & Hlen & Hall).
  change (width_after (Z.to_nat (Z.log2 256 - 2)) (2 ^ 14 / 256) 512) with 512 in Hall.
  destruct (StyleEncoder.unshared m) as [|l1 [|l2 [|l3 ls]]]; try discriminate Hlen.
  inversion Hall as [|? ? H1 Hall']; subst.
  inversion Hall' as [|? ? H2 _]; subst.
  destruct (Linear_forward_shape l1 512 64 h' [1] H1 Hh) as (o1 & E1 & S1).
  destruct (Linear_forward_shape l2 512 64 h' [1] H2 Hh) as (o2 & E2 & S2).
  unfold heads_on; cbn [mapM]; rewrite E1, E2; cbn [bind].
  unfold stack_dim1; rewrite S1; cbn [app].
  cbn [forallb]; rewrite S1, S2.
  destruct (list_eq_dec Z.eq_dec [1; 64] [1; 64]) as [_|Hne]; [|contradiction].
  cbn [andb bind].
  eexists; split; [reflexivity|]; reflexivity.
Qed.



(** C4, as amended.  The selection [out[indx, y]] follows the indexing rule
    of the tensor runtime: an index is accepted when it lies in
    [-num_domains, num_domains), a negative one counting from the last
    domain.  For a discriminator built for a power-of-two image size between
    8 and 2^14, with at least one domain and a channel cap of at least 1, on
    a batch of its images, and for a style encoder with [num_domains] heads
    on an input on which a call with as many indices succeeds: an index
    outside [-num_domains, num_domains) makes the call fail with
    [IndexError]; with every index inside, the call succeeds, the
    discriminator returns for example [k] the logit of domain [y[k]], or of
    domain [y[k] + num_domains] when [y[k]] is negative, and the style
    encoder returns for example [k] what the head of that domain computes
    for example [k]. *)
Theorem domain_index_outside_range_fails :
  forall (R : Type) (S : Scalar R) (param : nat -> list Z -> R)
         (img_size num_domains max_conv_dim : Z) (st : nat)
         (x : Tensor R) (y : list Z)
         (m : StyleEncoder.t R) (xs : Tensor R) (y0 : list Z),
    pyramid_size img_size -> 1 <= num_domains -> 1 <= max_conv_dim ->
    (1 <= length y)%nat ->
    shape x = [Z.of_nat (length y); 3; img_size; img_size] ->
    Z.of_nat (length (StyleEncoder.unshared m)) = num_domains ->
    length y0 = length y ->
    is_ok (StyleEncoder.forward m xs y0) = true ->
    exists d st' logits heads_out,
      Discriminator.__init__ param img_size num_domains max_conv_dim st = Ok (d, st') /\
      Sequential.forward (Discriminator.blocks d) x = Ok logits /\
      shape logits = [Z.of_nat (length y); num_domains; 1; 1] /\
      mapM (fun head => Linear_forward head xs) (StyleEncoder.unshared m) = Ok heads_out /\
      (Exists (fun i => ~ (- num_domains <= i < num_domains)) y ->
       Discriminator.forward d x y = Err IndexError /\
       StyleEncoder.forward m xs y = Err IndexError) /\
      (Forall (fun i => - num_domains <= i < num_domains) y ->
       (exists out,
          Discriminator.forward d x y = Ok out /\
          shape out = [Z.of_nat (length y)] /\
          forall k, 0 <= k < Z.of_nat (length y) ->
            get out [k]
            = get logits [k; wrap_index num_domains (nth (Z.to_nat k) y 0); 0; 0]) /\
       (exists out,
          StyleEncoder.forward m xs y = Ok out /\
          Forall (fun o => shape out = Z.of_nat (length y) :: tl (shape o)) heads_out /\
          forall k r, 0 <= k < Z.of_nat (length y) ->
            exists o,
              nth_error heads_out
                (Z.to_nat (wrap_index num_domains (nth (Z.to_nat k) y 0))) = Some o /\
              get out (k :: r) = get o (k :: r))).
Proof.
  intros R S param img nd mx st x y m xs y0 Hsz Hnd Hmx Hy Hx Hm Hlen E0.
  destruct (pyramid_size_facts img Hsz) as (Hi & Hn & Himg).
  destruct (Discriminator_init_ok param img nd mx st Hi Hn ltac:(lia) ltac:(lia))
    as (d & st' & Einit & Bd).
  assert (Hx' : shape x = [Z.of_nat (length y); 3;
                            4 * pow2 (Z.to_nat (Z.log2 img - 2));
                            4 * pow2 (Z.to_nat (Z.log2 img - 2))])
    by (rewrite <- Himg; exact Hx).
  destruct (Discriminator_blocks_shape d _ _ nd mx (Z.of_nat (length y)) Bd
              (pyramid_size_stem img Hsz) ltac:(lia) ltac:(lia) x Hx')
    as (logits & El & Hl).
  destruct (Discriminator_forward_select d x logits y nd El Hl Hy) as [Derr Dok].
  destruct (StyleEncoder_forward_select_heads m xs y0 E0 ltac:(lia))
    as (outs & Eouts & Hlo & Hsel).
  destruct (Hsel y (eq_sym Hlen)) as [Serr Sok].
  rewrite Hlo, Hm in Serr, Sok.
  exists d, st', logits, outs.
  split; [exact Einit|]; split; [exact El|]; split; [exact Hl|]; split; [exact Eouts|].
  split.
  - intros Hex; split; [exact (Derr Hex) | exact (Serr Hex)].
  - intros Hall; split; [exact (Dok Hall) | exact (Sok Hall)].
Qed.

Lemma domain_index_outside_range_fails_witness :
  exists d st' logits heads_out,
    Discriminator.__init__ zero_params 512 2 512 0%nat = Ok (d, st') /\
    Sequential.forward (Discriminator.blocks d) (full [1; 3; 512; 512] 0%Q) = Ok logits /\
    shape logits = [Z.of_nat (length [-1]); 2; 1; 1] /\
    mapM (fun head => Linear_forward head (full [1; 3; 512; 512] 0%Q))
         (StyleEncoder.unshared style_encoder_512) = Ok heads_out /\
    (Exists (fun i => ~ (- 2 <= i < 2)) [-1] ->
     Discriminator.forward d (full [1; 3; 512; 512] 0%Q) [-1] = Err IndexError /\
     StyleEncoder.forward style_encoder_512 (full [1; 3; 512; 512] 0%Q) [-1]
     = Err IndexError) /\
    (Forall (fun i => - 2 <= i < 2) [-1] ->
     (exists out,
        Discriminator.forward d (full [1; 3; 512; 512] 0%Q) [-1] = Ok out /\
        shape out = [Z.of_nat (length [-1])] /\
        forall k, 0 <= k < Z.of_nat (length [-1]) ->
          get out [k] = get logits [k; wrap_index 2 (nth (Z.to_nat k) [-1] 0); 0; 0]) /\
     (exists out,
        StyleEncoder.forward style_encoder_512 (full [1; 3; 512; 512] 0%Q) [-1] = Ok out /\
        Forall (fun o => shape out = Z.of_nat (length [-1]) :: tl (shape o)) heads_out /\
        forall k r, 0 <= k < Z.of_nat (length [-1]) ->
          exists o,
            nth_error heads_out (Z.to_nat (wrap_index 2 (nth (Z.to_nat k) [-1] 0)))
            = Some o /\
            get out (k :: r) = get o (k :: r))).
Proof.
  apply (domain_index_outside_range_fails Q Q_Scalar zero_params 512 2 512 0%nat
           (full [1; 3; 512; 512] 0%Q) [-1]
           style_encoder_512 (full [1; 3; 512; 512] 0%Q) [0]).
  - split; [lia | reflexivity].
  - lia.
  - lia.
  - simpl; lia.
  - reflexivity.
  - vm_compute; reflexivity.
  - reflexivity.
  - vm_compute; reflexivity.
Defined.

(** C4, counterexample.  The default discriminator, one 256 x 256 image and
    the domain index -1, which is not in [0, 2): the call does not fail; it
    returns the logit of domain 1. *)
Lemma negative_domain_index_selects_last_domain :
  exists d st' logits out,
    Discriminator.__init__ zero_params default_img_size default_num_domains
                           default_max_conv_dim 0%nat = Ok (d, st') /\
    ~ (0 <= -1 < default_num_domains) /\
    Sequential.forward (Discriminator.blocks d) (full [1; 3; 256; 256] 0%Q) = Ok logits /\
    Discriminator.forward d (full [1; 3; 256; 256] 0%Q) [-1] = Ok out /\
    Discriminator.forward d (full [1; 3; 256; 256] 0%Q) [-1] <> Err IndexError /\
    shape out = [1] /\
    get out [0] = get logits [0; 1; 0; 0].
Proof.
  unfold default_img_size, default_num_domains, default_max_conv_dim.
  destruct (Discriminator_init_ok zero_params 256 2 512 0%nat
              ltac:(lia) ltac:(simpl; lia) ltac:(lia) ltac:(lia))
    as (d & st' & Einit & Bd).
  destruct (Discriminator_blocks_shape d _ _ 2 512 1 Bd
              (stem_width_pos 256 ltac:(simpl; lia)) ltac:(lia) ltac:(lia)
              (full [1; 3; 256; 256] 0%Q)
              eq_refl) as (logits & El & Hl).
  destruct (Discriminator_forward_select d (full [1; 3; 256; 256] 0%Q) logits [-1] 2
              El Hl ltac:(simpl; lia)) as [_ Dok].
  destruct (Dok ltac:(repeat constructor; lia)) as (out & Eo & Hs & Hg).
  exists d, st', logits, out; repeat split; try assumption; try lia.
  - rewrite Eo; discriminate.
  - rewrite (Hg 0 ltac:(simpl; lia)); reflexivity.
Qed.

(** C5.  For an image size between 32 and 2^14 that the power of two
    2^(int(log2(img_size)) - 4) divides (every power of two in that range),
    a style dimension and a channel cap of at least 1, a batch of images of
    that size and one style vector per image: [Generator.forward] returns a
    tensor of the shape of its input, three channels and the same height and
    width. *)
Theorem Generator_forward_keeps_image_shape :
  forall (R : Type) (S : Scalar R) (param : nat -> list Z -> R)
         (img_size style_dim max_conv_dim : Z) (st : nat)
         (x s : Tensor R) (batch : Z),
    generator_size img_size -> 1 <= style_dim -> 1 <= max_conv_dim ->
    1 <= batch ->
    shape x = [batch; 3; img_size; img_size] ->
    shape s = [batch; style_dim] ->
    exists g st',
      Generator.__init__ param img_size style_dim max_conv_dim st = Ok (g, st') /\
      returns_shape (Generator.forward g x s) [batch; 3; img_size; img_size].
Proof.
  intros R S param img sd mx st x s B Hsz Hsd Hmx HB Hx Hs.
  destruct (generator_size_facts img Hsz) as (Hi & Hn & m & Hm & Himg).
  destruct (Generator_init_ok param img sd mx st Hi Hn ltac:(lia) ltac:(lia))
    as (g & st' & Einit & Bg).
  exists g, st'; split; [exact Einit|].
  set (n := Z.to_nat (Z.log2 img - 4)) in *.
  assert (Hx' : shape x = [B; 3; m * pow2 n; m * pow2 n])
    by (rewrite <- Himg; exact Hx).
  pose proof (generator_size_side img m Hsz Himg) as Hside.
  pose proof (Generator_forward_shape g _ n sd mx x s B m m Bg
                (stem_width_pos img ltac:(destruct Hsz; lia)) Hmx ltac:(lia) Hm Hm
                ltac:(nia) Hx' Hs) as P.
  rewrite <- Himg in P; exact P.
Qed.

Lemma Generator_forward_keeps_image_shape_witness :
  exists g st',
    Generator.__init__ zero_params 256 64 512 0%nat = Ok (g, st') /\
    returns_shape (Generator.forward g (full [1; 3; 256; 256] 0%Q) (full [1; 64] 0%Q))
                  [1; 3; 256; 256].
Proof.
  apply (Generator_forward_keeps_image_shape Q Q_Scalar zero_params 256 64 512 0%nat
           (full [1; 3; 256; 256] 0%Q) (full [1; 64] 0%Q) 1).
  - split; [lia | exists 16; reflexivity].
  - lia.
  - lia.
  - lia.
  - reflexivity.
  - reflexivity.
Defined.

(** Without the divisibility the generator still runs but returns a smaller
    image: 33 is halved to 16 and doubled to 32. *)
Example Generator_forward_33 :
  shape_of (Generator.forward generator_33 (full [1; 3; 33; 33] 0%Q) (full [1; 64] 0%Q))
  = Some [1; 3; 32; 32].
Proof. vm_compute; reflexivity. Qed.

(** C6.  For an image size between 32 and 2^14 (the sizes for which the
    stem has at least one channel), a style dimension and a channel cap of at
    least 1: the encoder is the pyramid the specification describes (widths
    doubled and capped at each downsampling stage, then two blocks at the
    bottleneck); the decoder, read in the order of the forward pass, is its
    mirror image: block for block it consumes what the encoder block emits,
    emits what that one consumes, and upsamples exactly where that one
    downsamples; from the stem to the output layers every block consumes the
    width the one before it emits. *)
Theorem Generator_widths_are_mirrored :
  forall (R : Type) (S : Scalar R) (param : nat -> list Z -> R)
         (img_size style_dim max_conv_dim : Z) (st : nat),
    32 <= img_size <= 2 ^ 14 -> 1 <= style_dim -> 1 <= max_conv_dim ->
    exists g st',
      Generator.__init__ param img_size style_dim max_conv_dim st = Ok (g, st') /\
      let n := Z.to_nat (Z.log2 img_size - 4) in
      let d0 := 2 ^ 14 / img_size in
      map res_sig (Generator.encoder g) = encoder_stages n d0 max_conv_dim /\
      map ada_sig (Generator.decoder g)
      = rev (map mirror (map res_sig (Generator.encoder g))) /\
      Forall2 (mirrored style_dim) (Generator.encoder g) (rev (Generator.decoder g)) /\
      out_channels (Generator.conv_in g) = d0 /\
      chain_ok d0 (map res_sig (Generator.encoder g) ++
                   map ada_sig (Generator.decoder g)) d0 /\
      exists nm c act,
        Generator.conv_out g = [LInstanceNorm2d nm; act; LConv2d c] /\
        num_features nm = d0 /\ in_channels c = d0 /\ out_channels c = 3.
Proof.
  intros R S param img sd mx st [Hi _] Hs%pos_nonneg Hm%pos_nonneg.
  assert (5 <= Z.log2 img) by (apply log2_ge; simpl; lia).
  destruct (Generator_init_ok param img sd mx st ltac:(lia) ltac:(lia) Hs Hm)
    as (g & st' & Einit & Bg).
  exists g, st'; split; [exact Einit|]; cbv zeta.
  destruct Bg as (E & D & e1 & e2 & a1 & a2 & nm & c & Bin & Henc & Hdec & Bp &
                  (Be1 & Be2 & Ba1 & Ba2) & Hout & Bnm & Bc).
  destruct (pyramid_built_sigs mx sd _ _ E D Bp) as (HE & HD & HM).
  set (n := Z.to_nat (Z.log2 img - 4)) in *.
  set (d0 := 2 ^ 14 / img) in *.
  set (b := width_after n d0 mx) in *.
  assert (Hes : map res_sig (Generator.encoder g) = encoder_stages n d0 mx).
  { rewrite Henc, map_app, HE; unfold encoder_stages; fold b; cbn [map].
    rewrite (res_sig_built e1 _ _ _ _ _ Be1), (res_sig_built e2 _ _ _ _ _ Be2).
    reflexivity. }
  assert (Hds : map ada_sig (Generator.decoder g)
                = rev (map mirror (encoder_stages n d0 mx))).
  { rewrite Hdec, map_app, HD; unfold encoder_stages; fold b; cbn [map].
    rewrite (ada_sig_built a1 _ _ _ _ _ Ba1), (ada_sig_built a2 _ _ _ _ _ Ba2).
    rewrite map_app, rev_app_distr; reflexivity. }
  split; [exact Hes|]; split; [rewrite Hes; exact Hds|]; split; [|split; [|split]].
  - rewrite Henc, Hdec, rev_app_distr; apply Forall2_app; [assumption|].
    cbn [rev app]; repeat constructor.
    + exists b, b, false; auto.
    + exists b, b, false; auto.
  - destruct Bin as (_ & Ho & _); exact Ho.
  - rewrite Hes, Hds; unfold encoder_stages; fold b.
    rewrite map_app, rev_app_distr; cbn [map rev app mirror].
    apply (chain_ok_app d0 _ _ b d0).
    + apply (chain_ok_app d0 _ _ b b); [apply chain_ok_down | simpl; auto].
    + simpl; repeat split; apply chain_ok_up.
  - exists nm, c, (LActivation (LeakyReLU 0.2%Q)); split; [exact Hout|].
    destruct Bnm as (Hnf & _); destruct Bc as (Hci & Hco & _); auto.
Qed.

Lemma Generator_widths_are_mirrored_witness :
  exists g st',
    Generator.__init__ zero_params 256 64 512 0%nat = Ok (g, st') /\
    let n := Z.to_nat (Z.log2 256 - 4) in
    let d0 := 2 ^ 14 / 256 in
    map res_sig (Generator.encoder g) = encoder_stages n d0 512 /\
    map ada_sig (Generator.decoder g)
    = rev (map mirror (map res_sig (Generator.encoder g))) /\
    Forall2 (mirrored 64) (Generator.encoder g) (rev (Generator.decoder g)) /\
    out_channels (Generator.conv_in g) = d0 /\
    chain_ok d0 (map res_sig (Generator.encoder g) ++
                 map ada_sig (Generator.decoder g)) d0 /\
    exists nm c act,
      Generator.conv_out g = [LInstanceNorm2d nm; act; LConv2d c] /\
      num_features nm = d0 /\ in_channels c = d0 /\ out_channels c = 3.
Proof.
  apply (Generator_widths_are_mirrored Q Q_Scalar zero_params 256 64 512 0%nat).
  - simpl; lia.
  - lia.
  - lia.
Defined.

(** C7, as amended.  For a discriminator built for a power-of-two image size
    between 8 and 2^14 with a channel cap of at least 1, and a batch of
    images of that size, with one domain index in [0, num_domains) per
    example: the pyramid computes a logit for every domain of every
    example, and [Discriminator.forward] returns a one-dimensional tensor with
    one entry per example, entry [k] being the logit of domain [y[k]] of
    example [k]. *)
Theorem Discriminator_forward_own_domain_logit :
  forall (R : Type) (S : Scalar R) (param : nat -> list Z -> R)
         (img_size num_domains max_conv_dim : Z) (st : nat)
         (x : Tensor R) (y : list Z),
    pyramid_size img_size -> 1 <= max_conv_dim ->
    (1 <= length y)%nat ->
    shape x = [Z.of_nat (length y); 3; img_size; img_size] ->
    Forall (fun i => 0 <= i < num_domains) y ->
    exists d st' logits out,
      Discriminator.__init__ param img_size num_domains max_conv_dim st = Ok (d, st') /\
      Sequential.forward (Discriminator.blocks d) x = Ok logits /\
      shape logits = [Z.of_nat (length y); num_domains; 1; 1] /\
      Discriminator.forward d x y = Ok out /\
      shape out = [Z.of_nat (length y)] /\
      forall k, 0 <= k < Z.of_nat (length y) ->
        get out [k] = get logits [k; nth (Z.to_nat k) y 0; 0; 0].
Proof.
  intros R S param img nd mx st x y Hsz Hmx Hy Hx Hall.
  destruct (pyramid_size_facts img Hsz) as (Hi & Hn & Himg).
  assert (Hnd : 1 <= nd).
  { destruct y as [|i y']; [simpl in Hy; lia|].
    inversion Hall; subst; lia. }
  destruct (Discriminator_init_ok param img nd mx st Hi Hn ltac:(lia) ltac:(lia))
    as (d & st' & Einit & Bd).
  assert (Hx' : shape x = [Z.of_nat (length y); 3;
                            4 * pow2 (Z.to_nat (Z.log2 img - 2));
                            4 * pow2 (Z.to_nat (Z.log2 img - 2))])
    by (rewrite <- Himg; exact Hx).
  destruct (Discriminator_blocks_shape d _ _ nd mx (Z.of_nat (length y)) Bd
              (pyramid_size_stem img Hsz) ltac:(lia) ltac:(lia) x Hx')
    as (logits & El & Hl).
  assert (Hall' : Forall (fun i => - nd <= i < nd) y).
  { eapply Forall_impl; [|exact Hall]; simpl; intros; lia. }
  destruct (Discriminator_forward_select d x logits y nd El Hl Hy) as [_ Hok].
  destruct (Hok Hall') as (out & Eo & Hs & Hg).
  exists d, st', logits, out; repeat split; try assumption.
  intros k Hk; rewrite (Hg k Hk), wrap_index_nonneg; [reflexivity|].
  rewrite Forall_forall in Hall.
  assert (Hin : In (nth (Z.to_nat k) y 0) y) by (apply nth_In; lia).
  apply Hall in Hin; lia.
Qed.

Lemma Discriminator_forward_own_domain_logit_witness :
  exists d st' logits out,
    Discriminator.__init__ zero_params 256 2 512 0%nat = Ok (d, st') /\
    Sequential.forward (Discriminator.blocks d) (full [2; 3; 256; 256] 0%Q) = Ok logits /\
    shape logits = [2; 2; 1; 1] /\
    Discriminator.forward d (full [2; 3; 256; 256] 0%Q) [1; 0] = Ok out /\
    shape out = [2] /\
    forall k, 0 <= k < 2 ->
      get out [k] = get logits [k; nth (Z.to_nat k) [1; 0] 0; 0; 0].
Proof.
  apply (Discriminator_forward_own_domain_logit Q Q_Scalar zero_params 256 2 512 0%nat
           (full [2; 3; 256; 256] 0%Q) [1; 0]).
  - split; [lia | reflexivity].
  - lia.
  - simpl; lia.
  - reflexivity.
  - repeat constructor; lia.
Defined.

(** C7, counterexample.  The default discriminator, with every weight zero
    and every bias equal to its own index, so that every logit of domain 0
    is 0 and every logit of domain 1 is 1.  On a 128 x 128 image the call
    raises; on a 512 x 512 image and the domain index 1 it returns the
    entry at flat position 1 of the 2 x 5 x 5 logits of the example, which
    belongs to domain 0: the value returned is 0, not a logit of domain 1. *)
Lemma Discriminator_forward_on_other_image_sizes :
  exists d st',
    Discriminator.__init__ index_bias_params default_img_size default_num_domains
                           default_max_conv_dim 0%nat = Ok (d, st') /\
    Discriminator.forward d (full [1; 3; 128; 128] 0%Q) [1] = Err RuntimeError /\
    exists logits out,
      Sequential.forward (Discriminator.blocks d) (full [1; 3; 512; 512] 0%Q) = Ok logits /\
      shape logits = [1; 2; 5; 5] /\
      Discriminator.forward d (full [1; 3; 512; 512] 0%Q) [1] = Ok out /\
      shape out = [1] /\
      get out [0] = get logits [0; 0; 0; 1] /\
      forall i j, 0 <= i < 5 -> 0 <= j < 5 ->
        ~ Qeq (get out [0]) (get logits [0; 1; i; j]).
Proof.
  unfold default_img_size, default_num_domains, default_max_conv_dim.
  destruct (Discriminator_init_ok index_bias_params 256 2 512 0%nat
              ltac:(lia) ltac:(simpl; lia) ltac:(lia) ltac:(lia))
    as (d & st' & Einit & Bd).
  exists d, st'; split; [exact Einit|]; split.
  { apply (Discriminator_forward_too_small d _ _ 2 512 (full [1; 3; 128; 128] 0%Q) [1]
             1 128 128 Bd); try lia;
      [left; simpl; lia | reflexivity | apply stem_width_pos; simpl; lia]. }
  destruct (Discriminator_blocks_floor d _ _ 2 512 1 512 512 Bd
              ltac:(simpl; lia) ltac:(simpl; lia)
              (stem_width_pos 256 ltac:(simpl; lia)) ltac:(lia) ltac:(lia))
    as (_ & _ & Hmaps).
  destruct (Hmaps (full [1; 3; 512; 512] 0%Q) eq_refl) as (logits & El & Hl).
  change (512 / pow2 (Z.to_nat (Z.log2 256 - 2)) - 3) with 5 in Hl.
  destruct (Discriminator_forward_flat_select d (full [1; 3; 512; 512] 0%Q) logits [1]
              2 5 5 El Hl ltac:(simpl; lia)) as [_ Hok].
  destruct (Hok ltac:(repeat constructor; lia)) as (out & Eo & Hs & Hg).
  specialize (Hg 0 ltac:(simpl; lia)).
  change (get out [0] = get logits [0; 0; 0; 1]) in Hg.
  exists logits, out.
  split; [exact El|]; split; [exact Hl|]; split; [exact Eo|]; split; [exact Hs|].
  split; [exact Hg|].
  intros i j _ _; rewrite Hg.
  destruct (Discriminator_init_last_conv index_bias_params 256 2 512 0%nat d st' Einit)
    as (front & c & k & bt & Hbl & Hw & Hb & Hbt).
  rewrite Hbl in El; unfold Sequential.forward in El; rewrite foldM_app in El.
  apply bind_inv in El; destruct El as (t & _ & Ec).
  cbn [foldM Sequential.Layer_forward] in Ec.
  apply bind_inv in Ec; destruct Ec as (lg & Ec & Elg).
  inversion Elg; subst lg; clear Elg.
  assert (Hz : forall o' ci u v, get (conv_weight c) [o'; ci; u; v] = 0%Q)
    by (intros; rewrite Hw; reflexivity).
  rewrite (Conv2d_forward_zero_weights c t logits bt 0 0 0 1 Ec Hz Hb).
  rewrite (Conv2d_forward_zero_weights c t logits bt 0 1 i j Ec Hz Hb).
  rewrite Hbt; cbn [index_bias_params]; intros Habs; discriminate Habs.
Qed.

(** On images larger than the size it was built for, the pyramid of the
    discriminator leaves more than one position per domain, and the flattened
    tensor no longer has one column per domain. *)
Example Discriminator_blocks_on_larger_image :
  shape_of (Sequential.forward (Discriminator.blocks discriminator_256)
                               (full [1; 3; 512; 512] 0%Q))
  = Some [1; 2; 5; 5].
Proof. vm_compute; reflexivity. Qed.

(** C8.  A block built by [ResBlock(dim_in, dim_out, downsample, normalize)]
    with the default activation computes, on every input and failures
    included, what the description computes: (residual + shortcut) / sqrt(2),
    the shortcut being the bias-free 1x1 projection when the widths differ
    followed by the pooling when downsampling, the residual being
    norm, LeakyReLU(0.2), 3x3 convolution at [dim_in], pooling, norm,
    LeakyReLU(0.2), 3x3 convolution to [dim_out], norms and pooling present
    only when asked for. *)
Theorem ResBlock_forward_is_as_described :
  forall (R : Type) (S : Scalar R) (param : nat -> list Z -> R)
         (dim_in dim_out style_dim : Z) (down nm : bool) (st : nat),
    0 <= dim_in -> 0 <= dim_out ->
    exists b st',
      ResBlock.__init__ param dim_in dim_out style_dim default_activ down nm st
      = Ok (b, st') /\
      forall x, ResBlock.forward b x = spec_forward dim_in dim_out down nm b x.
Proof.
  intros R S param dim_in dim_out style_dim down nm st Hi Ho.
  destruct (ResBlock_init_ok param dim_in dim_out style_dim default_activ down nm st
              Hi Ho) as (b & st' & Einit & Bb).
  exists b, st'; split; [exact Einit|].
  apply ResBlock_forward_spec; exact Bb.
Qed.

Lemma ResBlock_forward_is_as_described_witness :
  exists b st',
    ResBlock.__init__ zero_params 64 128 64 default_activ true true 0%nat = Ok (b, st') /\
    forall x, ResBlock.forward b x = spec_forward 64 128 true true b x.
Proof.
  apply (ResBlock_forward_is_as_described Q Q_Scalar zero_params 64 128 64 true true
           0%nat); lia.
Defined.

(** C9, as amended.  For an [AdaptiveInstanceNorm(style_dim, num_features)],
    a feature map of [num_features] channels with more than one spatial
    position (the maps over which the normalisation has statistics to
    compute) and one style vector of [style_dim] entries per example: with
    [h = fc(s)], the result has the shape of [x] and its entry at example
    [b], channel [c], position [(i, j)] is
    (1 + h[b, c]) * normalized(x)[b, c, i, j] + h[b, num_features + c],
    where [normalized] is the plain instance normalisation of [x]: gamma is
    the first half of [h] along the channel axis, beta the second, the same
    for all positions. *)
Theorem AdaptiveInstanceNorm_forward_formula :
  forall (R : Type) (S : Scalar R) (param : nat -> list Z -> R)
         (style_dim num_features : Z) (st : nat)
         (x s : Tensor R) (n h w : Z),
    1 <= style_dim -> 1 <= num_features -> 1 <= n ->
    shape x = [n; num_features; h; w] -> 1 <= h -> 1 <= w -> 1 < h * w ->
    shape s = [n; style_dim] ->
    exists m st' hfc out,
      AdaptiveInstanceNorm.__init__ param style_dim num_features st = Ok (m, st') /\
      Linear_forward (AdaptiveInstanceNorm.fc m) s = Ok hfc /\
      shape hfc = [n; num_features * 2] /\
      norm_affine (AdaptiveInstanceNorm.norm m) = None /\
      AdaptiveInstanceNorm.forward m x s = Ok out /\
      shape out = shape x /\
      forall b c i j,
        0 <= b < n -> 0 <= c < num_features -> 0 <= i < h -> 0 <= j < w ->
        get out [b; c; i; j]
        = sadd (smul (sadd (of_Z 1) (get hfc [b; c]))
                     (instance_normalize 1e-5%Q x h w [b; c; i; j]))
               (get hfc [b; c + num_features]).
Proof.
  intros R S param sd c st x s n h w Hsd%pos_nonneg Hc Hn%pos_nonneg Hx Hh Hw Hhw Hs.
  destruct (AdaptiveInstanceNorm_init_ok param sd c st Hsd ltac:(lia))
    as (m & st' & Einit & Bm).
  destruct (AdaptiveInstanceNorm_forward_spec m sd c x s n h w Bm Hn ltac:(lia) Hx Hs Hhw)
    as (hfc & out & Efc & Shfc & Eout & Sout & Hget).
  exists m, st', hfc, out; repeat split; try assumption.
  - destruct Bm as ((_ & _ & Haff) & _); exact Haff.
  - rewrite Hx; exact Sout.
Qed.

Lemma AdaptiveInstanceNorm_forward_formula_witness :
  exists m st' hfc out,
    AdaptiveInstanceNorm.__init__ zero_params 64 512 0%nat = Ok (m, st') /\
    Linear_forward (AdaptiveInstanceNorm.fc m) (full [1; 64] 0%Q) = Ok hfc /\
    shape hfc = [1; 512 * 2] /\
    norm_affine (AdaptiveInstanceNorm.norm m) = None /\
    AdaptiveInstanceNorm.forward m (full [1; 512; 16; 16] 0%Q) (full [1; 64] 0%Q) = Ok out /\
    shape out = shape (full [1; 512; 16; 16] 0%Q) /\
    forall b c i j,
      0 <= b < 1 -> 0 <= c < 512 -> 0 <= i < 16 -> 0 <= j < 16 ->
      get out [b; c; i; j]
      = sadd (smul (sadd (of_Z 1) (get hfc [b; c]))
                   (instance_normalize 1e-5%Q (full [1; 512; 16; 16] 0%Q) 16 16
                                       [b; c; i; j]))
             (get hfc [b; c + 512]).
Proof.
  apply (AdaptiveInstanceNorm_forward_formula Q Q_Scalar zero_params 64 512 0%nat
           (full [1; 512; 16; 16] 0%Q) (full [1; 64] 0%Q) 1 16 16); try lia;
    reflexivity.
Defined.

(** C9, counterexample.  On a feature map with a single spatial position the
    instance normalisation has no statistics to compute: the style is
    projected, the normalisation raises, and the call returns no tensor. *)
Lemma AdaptiveInstanceNorm_forward_on_a_single_position :
  exists m st' hfc,
    AdaptiveInstanceNorm.__init__ zero_params 64 512 0%nat = Ok (m, st') /\
    Linear_forward (AdaptiveInstanceNorm.fc m) (full [1; 64] 0%Q) = Ok hfc /\
    shape hfc = [1; 512 * 2] /\
    AdaptiveInstanceNorm.forward m (full [1; 512; 1; 1] 0%Q) (full [1; 64] 0%Q)
    = Err ValueError.
Proof.
  destruct (AdaptiveInstanceNorm_init_ok zero_params 64 512 0%nat ltac:(lia) ltac:(lia))
    as (m & st' & Einit & Bm).
  destruct (AdaptiveInstanceNorm_style_part m 64 512 (full [1; 512; 1; 1] 0%Q)
              (full [1; 64] 0%Q) 1 Bm ltac:(lia) ltac:(lia) eq_refl)
    as (hfc & Efc & Shfc & _).
  exists m, st', hfc.
  split; [exact Einit|]; split; [exact Efc|]; split; [exact Shfc|].
  exact (AdaptiveInstanceNorm_forward_one_position m 64 512
           (full [1; 512; 1; 1] 0%Q) (full [1; 64] 0%Q) 1 512 1 1 Bm
           ltac:(lia) ltac:(lia) eq_refl eq_refl eq_refl).
Qed.

(** C10.  The three constructors need at least one turn of their
    downsampling loop.  For a positive image size with
    int(log2(img_size)) - 4 < 1, that is below 32, [Generator] reads
    [dim_out] before any assignment and raises; so do [Discriminator] and
    [StyleEncoder] when int(log2(img_size)) - 2 < 1, that is below 8.  A
    constructor that returns had an image size of at least 32, respectively
    8. *)
Theorem constructors_need_one_downsampling_stage :
  forall (R : Type) (S : Scalar R) (param : nat -> list Z -> R)
         (img_size style_dim num_domains max_conv_dim : Z) (st : nat),
    (1 <= img_size -> Z.log2 img_size - 4 < 1 ->
     Generator.__init__ param img_size style_dim max_conv_dim st
     = Err (UnboundLocalError "dim_out")) /\
    (1 <= img_size -> Z.log2 img_size - 2 < 1 ->
     Discriminator.__init__ param img_size num_domains max_conv_dim st
     = Err (UnboundLocalError "dim_out") /\
     StyleEncoder.__init__ param img_size style_dim num_domains max_conv_dim st
     = Err (UnboundLocalError "dim_out")) /\
    (is_ok (Generator.__init__ param img_size style_dim max_conv_dim st) = true ->
     1 <= Z.log2 img_size - 4 /\ 32 <= img_size) /\
    (is_ok (Discriminator.__init__ param img_size num_domains max_conv_dim st) = true ->
     1 <= Z.log2 img_size - 2 /\ 8 <= img_size) /\
    (is_ok (StyleEncoder.__init__ param img_size style_dim num_domains max_conv_dim st)
     = true ->
     1 <= Z.log2 img_size - 2 /\ 8 <= img_size).
Proof.
  intros R S param img sd nd mx st.
  assert (Hlog : forall k, 0 <= k -> 1 <= img -> k <= Z.log2 img -> 2 ^ k <= img)
    by (intros k Hk Hi Hl; apply Z.log2_le_pow2; lia).
  split; [|split; [|split; [|split]]].
  - intros Hi Hn; apply Generator_init_unbound; assumption.
  - intros Hi Hn; split;
      [apply Discriminator_init_unbound | apply StyleEncoder_init_unbound]; assumption.
  - intros Hok.
    destruct (Z_le_gt_dec img 0) as [Hle|Hgt].
    { rewrite Generator_init_nonpositive in Hok by assumption; discriminate. }
    destruct (Z_lt_le_dec (Z.log2 img - 4) 1) as [Hlt|Hge].
    { rewrite Generator_init_unbound in Hok by lia; discriminate. }
    split; [assumption|]; apply (Hlog 5); lia.
  - intros Hok.
    destruct (Z_le_gt_dec img 0) as [Hle|Hgt].
    { rewrite Discriminator_init_nonpositive in Hok by assumption; discriminate. }
    destruct (Z_lt_le_dec (Z.log2 img - 2) 1) as [Hlt|Hge].
    { rewrite Discriminator_init_unbound in Hok by lia; discriminate. }
    split; [assumption|]; apply (Hlog 3); lia.
  - intros Hok.
    destruct (Z_le_gt_dec img 0) as [Hle|Hgt].
    { rewrite StyleEncoder_init_nonpositive in Hok by assumption; discriminate. }
    destruct (Z_lt_le_dec (Z.log2 img - 2) 1) as [Hlt|Hge].
    { rewrite StyleEncoder_init_unbound in Hok by lia; discriminate. }
    split; [assumption|]; apply (Hlog 3); lia.
Qed.

Lemma constructors_need_one_downsampling_stage_witness :
  Generator.__init__ zero_params 16 64 512 0%nat = Err (UnboundLocalError "dim_out") /\
  Discriminator.__init__ zero_params 4 2 512 0%nat = Err (UnboundLocalError "dim_out") /\
  StyleEncoder.__init__ zero_params 4 64 2 512 0%nat = Err (UnboundLocalError "dim_out") /\
  (1 <= Z.log2 256 - 4 /\ 32 <= 256) /\
  (1 <= Z.log2 256 - 2 /\ 8 <= 256).
Proof.
  pose proof (constructors_need_one_downsampling_stage Q Q_Scalar zero_params
                16 64 2 512 0%nat) as (G16 & _).
  pose proof (constructors_need_one_downsampling_stage Q Q_Scalar zero_params
                4 64 2 512 0%nat) as (_ & D4 & _).
  pose proof (constructors_need_one_downsampling_stage Q Q_Scalar zero_params
                256 64 2 512 0%nat) as (_ & _ & G256 & D256 & _).
  split; [apply G16; [lia | reflexivity]|].
  split; [apply D4; [lia | reflexivity]|].
  split; [apply D4; [lia | reflexivity]|].
  split; [apply G256 | apply D256]; vm_compute; reflexivity.
Defined.

(* ================================================================== *)
(** * Further properties of the blocks and the networks *)

(** ** Statements about the blocks *)

(** X1.  A residual block built for [dim_in] input and [dim_out] output
    channels maps a [n x dim_in x h x w] tensor to [n x dim_out x h x w], or
    to [n x dim_out x h/2 x w/2], the halves rounded down, when it
    downsamples (then both sides have to be at least 2); normalisation and
    the choice of activation do not change the shape.  For a normalising
    block the map is taken to keep more than one position up to the second
    normalisation, which computes statistics over the positions. *)
Theorem ResBlock_forward_shape_of_result :
  forall (R : Type) (S : Scalar R) (param : nat -> list Z -> R)
         (dim_in dim_out style_dim : Z) (a : Activation) (down nm : bool) (st : nat)
         (x : Tensor R) (n h w : Z),
    1 <= dim_in -> 1 <= dim_out -> 1 <= n ->
    shape x = [n; dim_in; h; w] -> 1 <= h -> 1 <= w ->
    (down = true -> 2 <= h /\ 2 <= w) ->
    (nm = true -> 1 < (if down then h / 2 else h) * (if down then w / 2 else w)) ->
    exists b st',
      ResBlock.__init__ param dim_in dim_out style_dim a down nm st = Ok (b, st') /\
      returns_shape (ResBlock.forward b x)
                    [n; dim_out; if down then h / 2 else h; if down then w / 2 else w].
Proof.
  intros R S param dim_in dim_out style_dim a down nm st x n h w Hi Ho _ Hx Hh Hw Hd Hp.
  destruct (ResBlock_init_ok param dim_in dim_out style_dim a down nm st
              ltac:(lia) ltac:(lia)) as (b & st' & Einit & Bb).
  exists b, st'; split; [exact Einit|].
  exact (ResBlock_forward_shape b _ _ _ _ _ x n h w Bb Hx Hh Hw Hd Hi Ho Hp).
Qed.

Lemma ResBlock_forward_shape_of_result_witness :
  exists b st',
    ResBlock.__init__ zero_params 64 128 64 default_activ true true 0%nat = Ok (b, st') /\
    returns_shape (ResBlock.forward b (full [1; 64; 33; 7] 0%Q))
                  [1; 128; if true then 33 / 2 else 33; if true then 7 / 2 else 7].
Proof.
  apply (ResBlock_forward_shape_of_result Q Q_Scalar zero_params 64 128 64
           default_activ true true 0%nat (full [1; 64; 33; 7] 0%Q) 1 33 7).
  - lia.
  - lia.
  - lia.
  - reflexivity.
  - lia.
  - lia.
  - intros _; lia.
  - intros _; reflexivity.
Defined.

(** X2.  A downsampling residual block raises on a map that has a side of a
    single pixel: the pooling of the residual path is reached and has no
    2 x 2 window to average.  (For a normalising block the map is taken to
    have more than one position, so that the first normalisation has
    statistics to compute.) *)
Theorem ResBlock_downsample_needs_two_pixels :
  forall (R : Type) (S : Scalar R) (param : nat -> list Z -> R)
         (dim_in dim_out style_dim : Z) (a : Activation) (nm : bool) (st : nat)
         (x : Tensor R) (n h w : Z),
    1 <= dim_in -> 1 <= dim_out -> 1 <= n ->
    shape x = [n; dim_in; h; w] -> 1 <= h -> 1 <= w -> h < 2 \/ w < 2 ->
    (nm = true -> 1 < h * w) ->
    exists b st',
      ResBlock.__init__ param dim_in dim_out style_dim a true nm st = Ok (b, st') /\
      ResBlock.forward b x = Err RuntimeError.
Proof.
  intros R S param dim_in dim_out style_dim a nm st x n h w Hi Ho _ Hx Hh Hw Hs Hp.
  destruct (ResBlock_init_ok param dim_in dim_out style_dim a true nm st
              ltac:(lia) ltac:(lia)) as (b & st' & Einit & Bb).
  exists b, st'; split; [exact Einit|].
  exact (ResBlock_forward_too_small b _ _ _ _ x n h w Bb Hx Hh Hw Hs Hi Hp).
Qed.

Lemma ResBlock_downsample_needs_two_pixels_witness :
  exists b st',
    ResBlock.__init__ zero_params 512 512 64 default_activ true true 0%nat = Ok (b, st') /\
    ResBlock.forward b (full [1; 512; 1; 4] 0%Q) = Err RuntimeError.
Proof.
  apply (ResBlock_downsample_needs_two_pixels Q Q_Scalar zero_params 512 512 64
           default_activ true 0%nat (full [1; 512; 1; 4] 0%Q) 1 1 4).
  - lia.
  - lia.
  - lia.
  - reflexivity.
  - lia.
  - lia.
  - left; lia.
  - intros _; lia.
Defined.

(** X3.  A residual block raises on a rank-4 tensor whose channel count is
    not the [dim_in] it was built for, with or without normalisation;
    without normalisation it is the first convolution that raises, with a
    shape error. *)
Theorem ResBlock_rejects_other_channel_counts :
  forall (R : Type) (S : Scalar R) (param : nat -> list Z -> R)
         (dim_in dim_out style_dim : Z) (a : Activation) (down nm : bool) (st : nat)
         (x : Tensor R) (n c h w : Z),
    1 <= dim_in -> 1 <= dim_out -> 1 <= n ->
    shape x = [n; c; h; w] -> c <> dim_in ->
    exists b st' e,
      ResBlock.__init__ param dim_in dim_out style_dim a down nm st = Ok (b, st') /\
      ResBlock.forward b x = Err e /\
      (nm = false -> e = RuntimeError).
Proof.
  intros R S param dim_in dim_out style_dim a down nm st x n c h w Hi%pos_nonneg Ho%pos_nonneg _ Hx Hc.
  destruct (ResBlock_init_ok param dim_in dim_out style_dim a down nm st Hi Ho)
    as (b & st' & Einit & Bb).
  exists b, st', (if nm then ValueError else RuntimeError).
  split; [exact Einit|]; split; [|intros ->; reflexivity].
  exact (ResBlock_forward_wrong_channels b _ _ _ _ _ x n c h w Bb Hx Hc).
Qed.

Lemma ResBlock_rejects_other_channel_counts_witness :
  exists b st' e,
    ResBlock.__init__ zero_params 64 128 64 default_activ false false 0%nat = Ok (b, st') /\
    ResBlock.forward b (full [1; 3; 8; 8] 0%Q) = Err e /\
    (false = false -> e = RuntimeError).
Proof.
  apply (ResBlock_rejects_other_channel_counts Q Q_Scalar zero_params 64 128 64
           default_activ false false 0%nat (full [1; 3; 8; 8] 0%Q) 1 3 8 8).
  - lia.
  - lia.
  - lia.
  - reflexivity.
  - lia.
Defined.

(** X4.  An adaptive residual block built for [dim_in] input channels,
    [dim_out] output channels and style codes of [style_dim] entries maps a
    [n x dim_in x h x w] tensor and one style code per example to
    [n x dim_out x h x w], or to [n x dim_out x 2h x 2w] when it upsamples.
    The map is taken to have more than one position: the normalisation
    computes statistics over the positions. *)
Theorem AdaResBlock_forward_shape_of_result :
  forall (R : Type) (S : Scalar R) (param : nat -> list Z -> R)
         (dim_in dim_out style_dim : Z) (a : Activation) (up : bool) (st : nat)
         (x s : Tensor R) (n h w : Z),
    1 <= dim_in -> 1 <= dim_out -> 1 <= style_dim -> 1 <= n ->
    shape x = [n; dim_in; h; w] -> shape s = [n; style_dim] ->
    1 <= h -> 1 <= w -> 1 < h * w ->
    exists b st',
      AdaResBlock.__init__ param dim_in dim_out style_dim a up st = Ok (b, st') /\
      returns_shape (AdaResBlock.forward b x s)
                    [n; dim_out; if up then h * 2 else h; if up then w * 2 else w].
Proof.
  intros R S param dim_in dim_out style_dim a up st x s n h w Hi Ho Hsd%pos_nonneg Hn%pos_nonneg Hx Hs Hh Hw Hp.
  destruct (AdaResBlock_init_ok param dim_in dim_out style_dim a up st
              ltac:(lia) ltac:(lia) Hsd) as (b & st' & Einit & Bb).
  exists b, st'; split; [exact Einit|].
  exact (AdaResBlock_forward_shape b _ _ _ _ _ x s n h w Bb Hn Hi Ho Hx Hs Hh Hw Hp).
Qed.

Lemma AdaResBlock_forward_shape_of_result_witness :
  exists b st',
    AdaResBlock.__init__ zero_params 512 256 64 default_activ true 0%nat = Ok (b, st') /\
    returns_shape (AdaResBlock.forward b (full [2; 512; 16; 16] 0%Q) (full [2; 64] 0%Q))
                  [2; 256; if true then 16 * 2 else 16; if true then 16 * 2 else 16].
Proof.
  apply (AdaResBlock_forward_shape_of_result Q Q_Scalar zero_params 512 256 64
           default_activ true 0%nat (full [2; 512; 16; 16] 0%Q) (full [2; 64] 0%Q)
           2 16 16).
  - lia.
  - lia.
  - lia.
  - lia.
  - reflexivity.
  - reflexivity.
  - lia.
  - lia.
  - lia.
Defined.

(** ** Adaptive instance normalisation on inputs it was not built for *)

(** X5.  [AdaptiveInstanceNorm.forward] raises when the style tensor's last
    axis is not [style_dim] wide: the linear projection is the first thing it
    runs, whatever the feature map. *)
Theorem AdaptiveInstanceNorm_rejects_other_style_widths :
  forall (R : Type) (S : Scalar R) (param : nat -> list Z -> R)
         (style_dim num_features : Z) (st : nat)
         (x s : Tensor R) (pre : list Z) (d : Z),
    1 <= style_dim -> 1 <= num_features ->
    shape s = pre ++ [d] -> d <> style_dim ->
    exists m st',
      AdaptiveInstanceNorm.__init__ param style_dim num_features st = Ok (m, st') /\
      AdaptiveInstanceNorm.forward m x s = Err RuntimeError.
Proof.
  intros R S param sd c st x s pre d Hsd%pos_nonneg Hc%pos_nonneg Hs Hd.
  destruct (AdaptiveInstanceNorm_init_ok param sd c st Hsd Hc)
    as (m & st' & Einit & ((_ & _ & _) & (Hin & _))).
  exists m, st'; split; [exact Einit|].
  unfold AdaptiveInstanceNorm.forward.
  rewrite (Linear_forward_bad_width (AdaptiveInstanceNorm.fc m) s pre d Hs);
    [reflexivity | rewrite Hin; exact Hd].
Qed.

Lemma AdaptiveInstanceNorm_rejects_other_style_widths_witness :
  exists m st',
    AdaptiveInstanceNorm.__init__ zero_params 64 512 0%nat = Ok (m, st') /\
    AdaptiveInstanceNorm.forward m (full [1; 512; 16; 16] 0%Q) (full [1; 16] 0%Q)
    = Err RuntimeError.
Proof.
  apply (AdaptiveInstanceNorm_rejects_other_style_widths Q Q_Scalar zero_params 64 512
           0%nat (full [1; 512; 16; 16] 0%Q) (full [1; 16] 0%Q) [1] 16);
    try lia; reflexivity.
Defined.

(** X6.  [AdaptiveInstanceNorm.forward] raises on a feature map whose
    channel count differs from [num_features] when neither count is 1: the
    normalisation itself accepts the map (of more than one position), the
    product with (1 + gamma) cannot be broadcast. *)
Theorem AdaptiveInstanceNorm_rejects_other_channel_counts :
  forall (R : Type) (S : Scalar R) (param : nat -> list Z -> R)
         (style_dim num_features : Z) (st : nat)
         (x s : Tensor R) (n c h w : Z),
    1 <= style_dim -> 1 <= num_features -> 1 <= n ->
    shape x = [n; c; h; w] -> shape s = [n; style_dim] -> 1 < h * w ->
    c <> num_features -> c <> 1 -> num_features <> 1 ->
    exists m st' nx,
      AdaptiveInstanceNorm.__init__ param style_dim num_features st = Ok (m, st') /\
      InstanceNorm2d_forward (AdaptiveInstanceNorm.norm m) x = Ok nx /\
      AdaptiveInstanceNorm.forward m x s = Err RuntimeError.
Proof.
  intros R S param sd nf st x s n c h w Hsd%pos_nonneg Hnf%pos_nonneg Hn%pos_nonneg Hx Hs Hp Hc Hc1 Hnf1.
  destruct (AdaptiveInstanceNorm_init_ok param sd nf st Hsd Hnf)
    as (m & st' & Einit & Bm).
  destruct (AdaptiveInstanceNorm_style_part m sd nf x s n Bm Hn Hnf Hs)
    as (hfc & _ & _ & Efwd).
  destruct Bm as ((_ & _ & Haff) & _).
  assert (Enx : InstanceNorm2d_forward (AdaptiveInstanceNorm.norm m) x
                = Ok {| shape := [n; c; h; w];
                        get := instance_normalize
                                 (norm_eps (AdaptiveInstanceNorm.norm m)) x h w |})
    by (unfold InstanceNorm2d_forward;
        rewrite Hx, Haff, (several_positions h w Hp); reflexivity).
  eexists m, st', _; split; [exact Einit|]; split; [exact Enx|].
  rewrite Efwd; cbv zeta; rewrite Enx; cbn [bind].
  unfold tmul, tbinop, add_scalar, tmap; cbn [shape].
  rewrite broadcast_shapes_channel_mismatch by auto; reflexivity.
Qed.

Lemma AdaptiveInstanceNorm_rejects_other_channel_counts_witness :
  exists m st' nx,
    AdaptiveInstanceNorm.__init__ zero_params 64 512 0%nat = Ok (m, st') /\
    InstanceNorm2d_forward (AdaptiveInstanceNorm.norm m) (full [1; 256; 16; 16] 0%Q)
    = Ok nx /\
    AdaptiveInstanceNorm.forward m (full [1; 256; 16; 16] 0%Q) (full [1; 64] 0%Q)
    = Err RuntimeError.
Proof.
  apply (AdaptiveInstanceNorm_rejects_other_channel_counts Q Q_Scalar zero_params 64 512
           0%nat (full [1; 256; 16; 16] 0%Q) (full [1; 64] 0%Q) 1 256 16 16);
    try lia; reflexivity.
Defined.

(** X7.  [AdaptiveInstanceNorm.forward] does not reject a feature map with a
    single channel (and more than one position): the normalised channel is
    broadcast against gamma and beta, and the result has [num_features]
    channels, channel [c] being (1 + gamma[c]) * normalized(x) + beta[c]. *)
Theorem AdaptiveInstanceNorm_broadcasts_a_single_channel :
  forall (R : Type) (S : Scalar R) (param : nat -> list Z -> R)
         (style_dim num_features : Z) (st : nat)
         (x s : Tensor R) (n h w : Z),
    1 <= style_dim -> 1 <= num_features -> 1 <= n ->
    shape x = [n; 1; h; w] -> shape s = [n; style_dim] -> 1 < h * w ->
    exists m st' hfc out,
      AdaptiveInstanceNorm.__init__ param style_dim num_features st = Ok (m, st') /\
      Linear_forward (AdaptiveInstanceNorm.fc m) s = Ok hfc /\
      AdaptiveInstanceNorm.forward m x s = Ok out /\
      shape out = [n; num_features; h; w] /\
      forall b c i j,
        0 <= b < n -> 0 <= c < num_features -> 0 <= i < h -> 0 <= j < w ->
        get out [b; c; i; j]
        = sadd (smul (sadd (of_Z 1) (get hfc [b; c]))
                     (instance_normalize 1e-5%Q x h w [b; 0; i; j]))
               (get hfc [b; c + num_features]).
Proof.
  intros R S param sd nf st x s n h w Hsd%pos_nonneg Hnf Hn%pos_nonneg Hx Hs Hp.
  destruct (AdaptiveInstanceNorm_init_ok param sd nf st Hsd ltac:(lia))
    as (m & st' & Einit & Bm).
  destruct (AdaptiveInstanceNorm_style_part m sd nf x s n Bm Hn ltac:(lia) Hs)
    as (hfc & Efc & Shfc & Efwd).
  destruct Bm as ((_ & Heps & Haff) & _).
  exists m, st', hfc; rewrite Efwd; cbv zeta.
  unfold InstanceNorm2d_forward.
  rewrite Hx, Haff, Heps, (several_positions h w Hp); cbn [bind].
  unfold tmul, tbinop, add_scalar, tmap; cbn [shape].
  rewrite broadcast_shapes_one_channel; cbn [bind].
  unfold tadd, tbinop; cbn [shape]; rewrite broadcast_shapes_spatial_r; cbn [bind].
  eexists; split; [exact Einit|]; split; [exact Efc|]; split; [reflexivity|].
  split; [reflexivity|].
  intros b c i j Hb Hc Hi Hj; cbn [get].
  rewrite (bindex_full n nf h w) by assumption.
  rewrite (bindex_spatial n nf) by assumption.
  rewrite (bindex_one_channel n h w) by assumption.
  cbn [get]; rewrite Shfc.
  rewrite (unravel_ravel_4_2 n (nf * 2) b c) by lia.
  rewrite (unravel_ravel_4_2 n (nf * 2) b (c + nf)) by lia.
  reflexivity.
Qed.

Lemma AdaptiveInstanceNorm_broadcasts_a_single_channel_witness :
  exists m st' hfc out,
    AdaptiveInstanceNorm.__init__ zero_params 64 512 0%nat = Ok (m, st') /\
    Linear_forward (AdaptiveInstanceNorm.fc m) (full [1; 64] 0%Q) = Ok hfc /\
    AdaptiveInstanceNorm.forward m (full [1; 1; 16; 16] 0%Q) (full [1; 64] 0%Q) = Ok out /\
    shape out = [1; 512; 16; 16] /\
    forall b c i j,
      0 <= b < 1 -> 0 <= c < 512 -> 0 <= i < 16 -> 0 <= j < 16 ->
      get out [b; c; i; j]
      = sadd (smul (sadd (of_Z 1) (get hfc [b; c]))
                   (instance_normalize 1e-5%Q (full [1; 1; 16; 16] 0%Q) 16 16
                                       [b; 0; i; j]))
             (get hfc [b; c + 512]).
Proof.
  apply (AdaptiveInstanceNorm_broadcasts_a_single_channel Q Q_Scalar zero_params 64 512
           0%nat (full [1; 1; 16; 16] 0%Q) (full [1; 64] 0%Q) 1 16 16);
    try lia; reflexivity.
Defined.

(** ** The generator on images of any size *)

(** X8.  The generator is not tied to the image size it was built for: for
    an image size between 32 and 2^14 and with
    [p] = 2^(int(log2(img_size)) - 4), it accepts every batch of 3-channel
    images whose sides are at least [p], one of them at least 2 [p], and
    returns images whose sides are those of the input rounded down to a
    multiple of [p] (the input's own sides when they are multiples of [p]).
    The side of 2 [p] leaves the normalisations at the bottleneck more than
    one position to compute statistics over. *)
Theorem Generator_forward_rounds_sides_down :
  forall (R : Type) (S : Scalar R) (param : nat -> list Z -> R)
         (img_size style_dim max_conv_dim : Z) (st : nat)
         (x s : Tensor R) (batch h w : Z),
    32 <= img_size <= 2 ^ 14 ->
    1 <= style_dim -> 1 <= max_conv_dim -> 1 <= batch ->
    2 ^ (Z.log2 img_size - 4) <= h -> 2 ^ (Z.log2 img_size - 4) <= w ->
    2 * 2 ^ (Z.log2 img_size - 4) <= h \/ 2 * 2 ^ (Z.log2 img_size - 4) <= w ->
    shape x = [batch; 3; h; w] -> shape s = [batch; style_dim] ->
    exists g st',
      Generator.__init__ param img_size style_dim max_conv_dim st = Ok (g, st') /\
      returns_shape (Generator.forward g x s)
                    [batch; 3;
                     round_down h (2 ^ (Z.log2 img_size - 4));
                     round_down w (2 ^ (Z.log2 img_size - 4))] /\
      ((2 ^ (Z.log2 img_size - 4) | h) -> (2 ^ (Z.log2 img_size - 4) | w) ->
       returns_shape (Generator.forward g x s) [batch; 3; h; w]).
Proof.
  intros R S param img sd mx st x s B h w Himg Hsd%pos_nonneg Hmx
         HB Hh Hw Hbig Hx Hs.
  assert (Hl : 5 <= Z.log2 img) by (apply log2_ge; simpl; lia).
  destruct (Generator_init_ok param img sd mx st ltac:(lia) ltac:(lia) Hsd ltac:(lia))
    as (g & st' & Einit & Bg).
  exists g, st'; split; [exact Einit|].
  rewrite <- (pow2_log2 img 4) in * by lia.
  pose proof (Generator_forward_floor g _ _ sd mx x s B h w Bg
                (stem_width_pos img ltac:(lia)) Hmx ltac:(lia) Hh Hw
                (floor_positions _ h w (pow2_pos _) Hh Hw Hbig) Hx Hs) as P.
  split; [exact P|].
  intros (qh & Eh) (qw & Ew).
  pose proof (pow2_pos (Z.to_nat (Z.log2 img - 4))).
  unfold round_down in P.
  rewrite Eh, Ew, !Z.div_mul in P by lia.
  rewrite Eh, Ew; exact P.
Qed.

Lemma Generator_forward_rounds_sides_down_witness :
  exists g st',
    Generator.__init__ zero_params 256 64 512 0%nat = Ok (g, st') /\
    returns_shape (Generator.forward g (full [1; 3; 100; 48] 0%Q) (full [1; 64] 0%Q))
                  [1; 3; round_down 100 (2 ^ (Z.log2 256 - 4));
                   round_down 48 (2 ^ (Z.log2 256 - 4))] /\
    ((2 ^ (Z.log2 256 - 4) | 100) -> (2 ^ (Z.log2 256 - 4) | 48) ->
     returns_shape (Generator.forward g (full [1; 3; 100; 48] 0%Q) (full [1; 64] 0%Q))
                   [1; 3; 100; 48]).
Proof.
  apply (Generator_forward_rounds_sides_down Q Q_Scalar zero_params 256 64 512 0%nat
           (full [1; 3; 100; 48] 0%Q) (full [1; 64] 0%Q) 1 100 48).
  - simpl; lia.
  - lia.
  - lia.
  - lia.
  - simpl; lia.
  - simpl; lia.
  - left; simpl; lia.
  - reflexivity.
  - reflexivity.
Defined.

(** X9.  The generator raises on a batch of 3-channel images with a side
    smaller than [p] = 2^(int(log2(img_size)) - 4): one of the downsampling
    blocks of the encoder meets a side of one pixel.  Where the other side is
    at least 2 [p] it is the pooling of that block that raises, with a shape
    error. *)
Theorem Generator_forward_rejects_small_images :
  forall (R : Type) (S : Scalar R) (param : nat -> list Z -> R)
         (img_size style_dim max_conv_dim : Z) (st : nat)
         (x s : Tensor R) (batch h w : Z),
    32 <= img_size -> 1 <= style_dim -> 1 <= max_conv_dim -> 1 <= batch ->
    1 <= h -> 1 <= w ->
    h < 2 ^ (Z.log2 img_size - 4) \/ w < 2 ^ (Z.log2 img_size - 4) ->
    shape x = [batch; 3; h; w] ->
    exists g st' e,
      Generator.__init__ param img_size style_dim max_conv_dim st = Ok (g, st') /\
      Generator.forward g x s = Err e /\
      (2 * 2 ^ (Z.log2 img_size - 4) <= h \/ 2 * 2 ^ (Z.log2 img_size - 4) <= w ->
       e = RuntimeError).
Proof.
  intros R S param img sd mx st x s B h w Hi Hsd%pos_nonneg Hmx _ Hh Hw Hsmall Hx.
  assert (Hl : 5 <= Z.log2 img) by (apply log2_ge; simpl; lia).
  destruct (Generator_init_ok param img sd mx st ltac:(lia) ltac:(lia) Hsd ltac:(lia))
    as (g & st' & Einit & Bg).
  rewrite <- (pow2_log2 img 4) in * by lia.
  destruct (Generator_forward_too_small_raises g _ _ sd mx x s B h w Bg Hh Hw Hsmall Hx Hmx)
    as (e & He).
  exists g, st', e; split; [exact Einit|]; split; [exact He|].
  intros Hbig.
  pose proof (Generator_forward_too_small g _ _ sd mx x s B h w Bg Hh Hw Hsmall Hbig Hx Hmx)
    as Hr.
  rewrite He in Hr; injection Hr as ->; reflexivity.
Qed.

Lemma Generator_forward_rejects_small_images_witness :
  exists g st' e,
    Generator.__init__ zero_params 256 64 512 0%nat = Ok (g, st') /\
    Generator.forward g (full [1; 3; 8; 64] 0%Q) (full [1; 64] 0%Q) = Err e /\
    (2 * 2 ^ (Z.log2 256 - 4) <= 8 \/ 2 * 2 ^ (Z.log2 256 - 4) <= 64 ->
     e = RuntimeError).
Proof.
  apply (Generator_forward_rejects_small_images Q Q_Scalar zero_params 256 64 512 0%nat
           (full [1; 3; 8; 64] 0%Q) (full [1; 64] 0%Q) 1 8 64).
  - lia.
  - lia.
  - lia.
  - lia.
  - lia.
  - lia.
  - left; simpl; lia.
  - reflexivity.
Defined.

(** ** The discriminator on images and index vectors of other sizes *)

(** X10.  A discriminator built for a power-of-two image size raises on
    every batch of 3-channel images with a side smaller than that size:
    either a downsampling block meets a side of one pixel, or the map that
    reaches the 4 x 4 convolution is smaller than its kernel. *)
Theorem Discriminator_forward_rejects_small_images :
  forall (R : Type) (S : Scalar R) (param : nat -> list Z -> R)
         (img_size num_domains max_conv_dim : Z) (st : nat)
         (x : Tensor R) (y : list Z) (batch h w : Z),
    pyramid_size img_size -> 1 <= num_domains -> 1 <= max_conv_dim -> 1 <= batch ->
    1 <= h -> 1 <= w -> h < img_size \/ w < img_size ->
    shape x = [batch; 3; h; w] ->
    exists d st',
      Discriminator.__init__ param img_size num_domains max_conv_dim st = Ok (d, st') /\
      Discriminator.forward d x y = Err RuntimeError.
Proof.
  intros R S param img nd mx st x y B h w Hsz Hnd Hmx _ Hh Hw Hsmall Hx.
  destruct (pyramid_size_facts img Hsz) as (Hi & Hn & Himg).
  destruct (Discriminator_init_ok param img nd mx st Hi Hn ltac:(lia) ltac:(lia))
    as (d & st' & Einit & Bd).
  exists d, st'; split; [exact Einit|].
  rewrite Himg in Hsmall.
  exact (Discriminator_forward_too_small d _ _ nd mx x y B h w Bd Hh Hw Hsmall Hx
           (pyramid_size_stem img Hsz) Hmx).
Qed.

Lemma Discriminator_forward_rejects_small_images_witness :
  exists d st',
    Discriminator.__init__ zero_params 256 2 512 0%nat = Ok (d, st') /\
    Discriminator.forward d (full [1; 3; 128; 128] 0%Q) [0] = Err RuntimeError.
Proof.
  apply (Discriminator_forward_rejects_small_images Q Q_Scalar zero_params 256 2 512
           0%nat (full [1; 3; 128; 128] 0%Q) [0] 1 128 128); try lia; try reflexivity.
  split; [lia | reflexivity].
Defined.

(** X11.  The discriminator does not compare the number of domain indices
    with the batch size.  On a batch of B images of its size and indices
    within range: with at most B indices it returns one logit per index, for
    the first examples of the batch and silently ignoring the others; with
    more than B indices it raises [IndexError]. *)
Theorem Discriminator_forward_index_count :
  forall (R : Type) (S : Scalar R) (param : nat -> list Z -> R)
         (img_size num_domains max_conv_dim : Z) (st : nat)
         (x : Tensor R) (y : list Z) (batch : Z),
    pyramid_size img_size -> 1 <= num_domains -> 1 <= max_conv_dim -> 1 <= batch ->
    shape x = [batch; 3; img_size; img_size] ->
    Forall (fun i => - num_domains <= i < num_domains) y ->
    exists d st' logits,
      Discriminator.__init__ param img_size num_domains max_conv_dim st = Ok (d, st') /\
      Sequential.forward (Discriminator.blocks d) x = Ok logits /\
      (Z.of_nat (length y) <= batch ->
       exists out,
         Discriminator.forward d x y = Ok out /\
         shape out = [Z.of_nat (length y)] /\
         forall k, 0 <= k < Z.of_nat (length y) ->
           get out [k]
           = get logits [k; wrap_index num_domains (nth (Z.to_nat k) y 0); 0; 0]) /\
      (batch < Z.of_nat (length y) -> Discriminator.forward d x y = Err IndexError).
Proof.
  intros R S param img nd mx st x y B Hsz Hnd Hmx HB Hx Hall.
  destruct (pyramid_size_facts img Hsz) as (Hi & Hn & Himg).
  destruct (Discriminator_init_ok param img nd mx st Hi Hn ltac:(lia) ltac:(lia))
    as (d & st' & Einit & Bd).
  assert (Hx' : shape x = [B; 3; 4 * pow2 (Z.to_nat (Z.log2 img - 2));
                            4 * pow2 (Z.to_nat (Z.log2 img - 2))])
    by (rewrite <- Himg; exact Hx).
  destruct (Discriminator_blocks_shape d _ _ nd mx B Bd
              (pyramid_size_stem img Hsz) ltac:(lia) ltac:(lia) x Hx')
    as (logits & El & Hl).
  exists d, st', logits; split; [exact Einit|]; split; [exact El|].
  exact (Discriminator_forward_lengths d x logits y B nd El Hl HB Hall).
Qed.

Lemma Discriminator_forward_index_count_witness :
  exists d st' logits,
    Discriminator.__init__ zero_params 256 2 512 0%nat = Ok (d, st') /\
    Sequential.forward (Discriminator.blocks d) (full [3; 3; 256; 256] 0%Q) = Ok logits /\
    (Z.of_nat (length [1; 0]) <= 3 ->
     exists out,
       Discriminator.forward d (full [3; 3; 256; 256] 0%Q) [1; 0] = Ok out /\
       shape out = [Z.of_nat (length [1; 0])] /\
       forall k, 0 <= k < Z.of_nat (length [1; 0]) ->
         get out [k] = get logits [k; wrap_index 2 (nth (Z.to_nat k) [1; 0] 0); 0; 0]) /\
    (3 < Z.of_nat (length [1; 0]) ->
     Discriminator.forward d (full [3; 3; 256; 256] 0%Q) [1; 0] = Err IndexError).
Proof.
  apply (Discriminator_forward_index_count Q Q_Scalar zero_params 256 2 512 0%nat
           (full [3; 3; 256; 256] 0%Q) [1; 0] 3); try lia; try reflexivity.
  - split; [lia | reflexivity].
  - repeat constructor; lia.
Defined.

(** ** The style encoder on images *)

(** X12.  A style encoder built for a power-of-two image size never returns
    one style code per example on a batch of its images.  Its heads read
    rows of the image, [img_size] wide, and are declared for
    min(4096, max_conv_dim) features: unless the two coincide the call
    raises; where they do, the result has the shape
    (batch, 3, img_size, style_dim). *)
Theorem StyleEncoder_forward_on_its_images :
  forall (R : Type) (S : Scalar R) (param : nat -> list Z -> R)
         (img_size style_dim num_domains max_conv_dim : Z) (st : nat)
         (x : Tensor R) (y : list Z),
    pyramid_size img_size -> 1 <= style_dim -> 1 <= num_domains ->
    1 <= max_conv_dim -> (1 <= length y)%nat ->
    shape x = [Z.of_nat (length y); 3; img_size; img_size] ->
    Forall (fun i => - num_domains <= i < num_domains) y ->
    exists m st',
      StyleEncoder.__init__ param img_size style_dim num_domains max_conv_dim st
      = Ok (m, st') /\
      Forall (fun head => in_features head = Z.min 4096 max_conv_dim)
             (StyleEncoder.unshared m) /\
      (Z.min 4096 max_conv_dim <> img_size ->
       StyleEncoder.forward m x y = Err RuntimeError) /\
      (Z.min 4096 max_conv_dim = img_size ->
       returns_shape (StyleEncoder.forward m x y)
                     [Z.of_nat (length y); 3; img_size; style_dim]).
Proof.
  intros R S param img sd nd mx st x y Hsz Hsd%pos_nonneg Hnd Hmx1 Hy Hx Hall.
  pose proof (pos_nonneg _ Hmx1) as Hmx.
  destruct (pyramid_size_facts img Hsz) as (Hi & Hn & Himg).
  destruct (StyleEncoder_init_ok param img sd nd mx st Hi Hn Hsd ltac:(lia) Hmx)
    as (m & st' & Einit & Bm).
  exists m, st'; split; [exact Einit|].
  pose proof (StyleEncoder_forward_on_image m _ _ sd nd mx x y img Bm Hnd Hy Himg Hx Hall
                (pyramid_size_stem img Hsz) Hmx1) as P.
  rewrite (pyramid_width_closed img mx Hsz Hmx) in P.
  split; [|exact P].
  destruct Bm as (c0 & bs & c1 & _ & _ & _ & _ & _ & Hheads).
  rewrite (pyramid_width_closed img mx Hsz Hmx) in Hheads.
  eapply Forall_impl; [|exact Hheads]; intros l (Hin & _); exact Hin.
Qed.

Lemma StyleEncoder_forward_on_its_images_witness :
  exists m st',
    StyleEncoder.__init__ zero_params 512 64 2 512 0%nat = Ok (m, st') /\
    Forall (fun head => in_features head = Z.min 4096 512) (StyleEncoder.unshared m) /\
    (Z.min 4096 512 <> 512 ->
     StyleEncoder.forward m (full [1; 3; 512; 512] 0%Q) [1] = Err RuntimeError) /\
    (Z.min 4096 512 = 512 ->
     returns_shape (StyleEncoder.forward m (full [1; 3; 512; 512] 0%Q) [1])
                   [1; 3; 512; 64]).
Proof.
  apply (StyleEncoder_forward_on_its_images Q Q_Scalar zero_params 512 64 2 512 0%nat
           (full [1; 3; 512; 512] 0%Q) [1]).
  - split; [lia | reflexivity].
  - lia.
  - lia.
  - lia.
  - simpl; lia.
  - reflexivity.
  - repeat constructor; lia.
Defined.

(** ** The mapping network's parts *)

(** X13.  The parts that [MappingNetwork.__init__] builds fit together: there
    is one head per domain, the trunk takes a batch of latent codes to 512
    features, and every head in [self.unshared] takes those features to a
    style code of [style_dim] entries per example. *)
Theorem MappingNetwork_parts_fit_together :
  forall (R : Type) (S : Scalar R) (param : nat -> list Z -> R)
         (latent_dim style_dim num_domains : Z) (st : nat),
    1 <= latent_dim -> 1 <= style_dim ->
    exists m st',
      MappingNetwork.__init__ param latent_dim style_dim num_domains st = Ok (m, st') /\
      length (MappingNetwork.unshared m) = Z.to_nat num_domains /\
      forall (B : Z) (z : Tensor R),
        1 <= B -> shape z = [B; latent_dim] ->
        exists h,
          Sequential.forward (MappingNetwork.shared m) z = Ok h /\
          shape h = [B; 512] /\
          Forall (fun head => returns_shape (Sequential.forward head h) [B; style_dim])
                 (MappingNetwork.unshared m).
Proof.
  intros R S param latent sd nd st Hl%pos_nonneg Hs%pos_nonneg.
  destruct (MappingNetwork_init_built param latent sd nd st Hl Hs)
    as (m & st' & Einit & Hlen & Hheads).
  exists m, st'; split; [exact Einit|]; split; [exact Hlen|].
  intros B z _ Hz.
  destruct (MappingNetwork_init_shared param latent sd nd st m st' Einit Hl)
    as (l0 & l1 & l2 & l3 & Hsh & B0 & B1 & B2 & B3).
  destruct (MappingNetwork_shared_shape m latent l0 l1 l2 l3 B Hsh B0 B1 B2 B3 z Hz)
    as (h & Eh & Hh).
  exists h; split; [exact Eh|]; split; [exact Hh|].
  eapply Forall_impl; [|exact Hheads].
  intros head Bh; exact (mapping_head_shape head sd B Bh h Hh).
Qed.

Lemma MappingNetwork_parts_fit_together_witness :
  exists m st',
    MappingNetwork.__init__ zero_params 16 64 2 0%nat = Ok (m, st') /\
    length (MappingNetwork.unshared m) = Z.to_nat 2 /\
    forall (B : Z) (z : Tensor Q),
      1 <= B -> shape z = [B; 16] ->
      exists h,
        Sequential.forward (MappingNetwork.shared m) z = Ok h /\
        shape h = [B; 512] /\
        Forall (fun head => returns_shape (Sequential.forward head h) [B; 64])
               (MappingNetwork.unshared m).
Proof.
  apply (MappingNetwork_parts_fit_together Q Q_Scalar zero_params 16 64 2 0%nat); lia.
Defined.

(** X14.  A latent batch whose last axis does not have [latent_dim] entries is
    rejected by the first linear layer of the trunk: [MappingNetwork.forward]
    raises a shape error before it reaches the loop over the heads.  (The
    call in the script at the end of the file passes the 64-entry style code
    to a network built for 16 latent entries.) *)
Theorem MappingNetwork_forward_rejects_other_latent_widths :
  forall (R : Type) (S : Scalar R) (param : nat -> list Z -> R)
         (latent_dim style_dim num_domains : Z) (st : nat)
         (z : Tensor R) (y : list Z) (pre : list Z) (d : Z),
    1 <= latent_dim -> 1 <= style_dim ->
    shape z = pre ++ [d] -> d <> latent_dim ->
    exists m st',
      MappingNetwork.__init__ param latent_dim style_dim num_domains st = Ok (m, st') /\
      MappingNetwork.forward m z y = Err RuntimeError.
Proof.
  intros R S param latent sd nd st z y pre d Hl%pos_nonneg Hs%pos_nonneg Hz Hd.
  destruct (MappingNetwork_init_built param latent sd nd st Hl Hs)
    as (m & st' & Einit & _).
  exists m, st'; split; [exact Einit|].
  destruct (MappingNetwork_init_shared param latent sd nd st m st' Einit Hl)
    as (l0 & l1 & l2 & l3 & Hsh & B0 & _).
  exact (MappingNetwork_forward_wrong_width m latent l0 l1 l2 l3 z y pre d Hsh B0 Hz Hd).
Qed.

Lemma MappingNetwork_forward_rejects_other_latent_widths_witness :
  exists m st',
    MappingNetwork.__init__ zero_params 16 64 2 0%nat = Ok (m, st') /\
    MappingNetwork.forward m (full [1; 64] 0%Q) [0] = Err RuntimeError.
Proof.
  apply (MappingNetwork_forward_rejects_other_latent_widths Q Q_Scalar zero_params
           16 64 2 0%nat (full [1; 64] 0%Q) [0] [1] 64).
  - lia.
  - lia.
  - reflexivity.
  - lia.
Defined.

(** ** Images with another number of channels *)

(** X15.  The three image networks are built for 3-channel images: on a
    batch with any other number of channels the first convolution of
    [Generator.forward], [Discriminator.forward] and [StyleEncoder.forward]
    raises a shape error, whatever the image size. *)
Theorem image_networks_reject_other_channel_counts :
  forall (R : Type) (S : Scalar R) (param : nat -> list Z -> R)
         (img_size style_dim num_domains max_conv_dim : Z) (st : nat)
         (x s : Tensor R) (y : list Z) (B c h w : Z),
    32 <= img_size -> 1 <= style_dim -> 1 <= num_domains -> 1 <= max_conv_dim ->
    1 <= B -> shape x = [B; c; h; w] -> c <> 3 ->
    exists g d e st1 st2 st3,
      Generator.__init__ param img_size style_dim max_conv_dim st = Ok (g, st1) /\
      Discriminator.__init__ param img_size num_domains max_conv_dim st = Ok (d, st2) /\
      StyleEncoder.__init__ param img_size style_dim num_domains max_conv_dim st
      = Ok (e, st3) /\
      Generator.forward g x s = Err RuntimeError /\
      Discriminator.forward d x y = Err RuntimeError /\
      StyleEncoder.forward e x y = Err RuntimeError.
Proof.
  intros R S param img sd nd mx st x s y B c h w Hi Hsd%pos_nonneg Hnd%pos_nonneg Hmx%pos_nonneg _ Hx Hc.
  assert (5 <= Z.log2 img) by (apply log2_ge; simpl; lia).
  destruct (Generator_init_ok param img sd mx st ltac:(lia) ltac:(lia) Hsd Hmx)
    as (g & st1 & Eg & Bg).
  destruct (Discriminator_init_ok param img nd mx st ltac:(lia) ltac:(lia) Hnd Hmx)
    as (d & st2 & Ed & Bd).
  destruct (StyleEncoder_init_ok param img sd nd mx st ltac:(lia) ltac:(lia) Hsd Hnd Hmx)
    as (e & st3 & Ee & Be).
  exists g, d, e, st1, st2, st3.
  split; [exact Eg|]; split; [exact Ed|]; split; [exact Ee|].
  split; [|split].
  - exact (Generator_forward_wrong_channels g _ _ sd mx x s B c h w Bg Hx Hc).
  - exact (Discriminator_forward_wrong_channels d _ _ nd mx x y B c h w Bd Hx Hc).
  - exact (StyleEncoder_forward_wrong_channels e _ _ sd nd mx x y B c h w Be Hx Hc).
Qed.

Lemma image_networks_reject_other_channel_counts_witness :
  exists g d e st1 st2 st3,
    Generator.__init__ zero_params 256 64 512 0%nat = Ok (g, st1) /\
    Discriminator.__init__ zero_params 256 2 512 0%nat = Ok (d, st2) /\
    StyleEncoder.__init__ zero_params 256 64 2 512 0%nat = Ok (e, st3) /\
    Generator.forward g (full [1; 1; 256; 256] 0%Q) (full [1; 64] 0%Q)
    = Err RuntimeError /\
    Discriminator.forward d (full [1; 1; 256; 256] 0%Q) [0] = Err RuntimeError /\
    StyleEncoder.forward e (full [1; 1; 256; 256] 0%Q) [0] = Err RuntimeError.
Proof.
  apply (image_networks_reject_other_channel_counts Q Q_Scalar zero_params
           256 64 2 512 0%nat (full [1; 1; 256; 256] 0%Q) (full [1; 64] 0%Q) [0]
           1 1 256 256).
  - lia.
  - lia.
  - lia.
  - lia.
  - lia.
  - reflexivity.
  - lia.
Defined.

(** ** The widths the pyramids reach *)

(** X16.  For a power-of-two image size the discriminator has
    log2(img_size) - 2 downsampling blocks after its first convolution, and
    the layers that follow them work on min(4096, max_conv_dim) channels,
    whatever the image size: the 4x4 convolution keeps that width and the
    1x1 convolution takes it to [num_domains] logits.  A [max_conv_dim]
    above 4096 changes nothing. *)
Theorem Discriminator_final_width :
  forall (R : Type) (S : Scalar R) (param : nat -> list Z -> R)
         (img_size num_domains max_conv_dim : Z) (st : nat),
    pyramid_size img_size -> 1 <= num_domains -> 1 <= max_conv_dim ->
    exists d st' c0 bs c1 c2,
      Discriminator.__init__ param img_size num_domains max_conv_dim st = Ok (d, st') /\
      Discriminator.blocks d
      = [LConv2d c0] ++ bs ++
        [LActivation (LeakyReLU 0.2%Q); LConv2d c1;
         LActivation (LeakyReLU 0.2%Q); LConv2d c2] /\
      length bs = Z.to_nat (Z.log2 img_size - 2) /\
      conv_built c1 (Z.min 4096 max_conv_dim) (Z.min 4096 max_conv_dim) 4 1 0 true /\
      conv_built c2 (Z.min 4096 max_conv_dim) num_domains 1 1 0 true.
Proof.
  intros R S param img nd mx st Hsz Hnd%pos_nonneg Hmx%pos_nonneg.
  destruct (pyramid_size_facts img Hsz) as (Hi & Hn & _).
  destruct (Discriminator_init_ok param img nd mx st Hi Hn Hnd Hmx)
    as (d & st' & Einit & (c0 & bs & c1 & c2 & Hbl & _ & Hbs & B1 & B2)).
  rewrite (pyramid_width_closed img mx Hsz Hmx) in B1, B2.
  exists d, st', c0, bs, c1, c2.
  split; [exact Einit|]; split; [exact Hbl|]; split; [|split; assumption].
  exact (down_built_length _ _ _ bs Hbs).
Qed.

Lemma Discriminator_final_width_witness :
  exists d st' c0 bs c1 c2,
    Discriminator.__init__ zero_params 256 2 512 0%nat = Ok (d, st') /\
    Discriminator.blocks d
    = [LConv2d c0] ++ bs ++
      [LActivation (LeakyReLU 0.2%Q); LConv2d c1;
       LActivation (LeakyReLU 0.2%Q); LConv2d c2] /\
    length bs = Z.to_nat (Z.log2 256 - 2) /\
    conv_built c1 (Z.min 4096 512) (Z.min 4096 512) 4 1 0 true /\
    conv_built c2 (Z.min 4096 512) 2 1 1 0 true.
Proof.
  apply (Discriminator_final_width Q Q_Scalar zero_params 256 2 512 0%nat).
  - split; [lia | reflexivity].
  - lia.
  - lia.
Defined.

(** X17.  For a power-of-two image size between 32 and 2^14 the generator's
    encoder has log2(img_size) - 4 downsampling blocks followed by two
    blocks that keep the size, and these two work on min(1024, max_conv_dim)
    channels, whatever the image size; the decoder starts with two blocks of
    the same width and has as many upsampling blocks after them. *)
Theorem Generator_bottleneck_width :
  forall (R : Type) (S : Scalar R) (param : nat -> list Z -> R)
         (img_size style_dim max_conv_dim : Z) (st : nat),
    32 <= img_size <= 2 ^ 14 -> img_size = 2 ^ Z.log2 img_size ->
    1 <= style_dim -> 1 <= max_conv_dim ->
    exists g st' E e1 e2 a2 a1 D,
      Generator.__init__ param img_size style_dim max_conv_dim st = Ok (g, st') /\
      Generator.encoder g = E ++ [e1; e2] /\
      Generator.decoder g = [a2; a1] ++ D /\
      length E = Z.to_nat (Z.log2 img_size - 4) /\
      length D = Z.to_nat (Z.log2 img_size - 4) /\
      let b := Z.min 1024 max_conv_dim in
      res_sig e1 = (b, b, false) /\ res_sig e2 = (b, b, false) /\
      ada_sig a2 = (b, b, false) /\ ada_sig a1 = (b, b, false).
Proof.
  intros R S param img sd mx st Hr Hpow Hsd%pos_nonneg Hmx%pos_nonneg.
  assert (5 <= Z.log2 img) by (apply log2_ge; simpl; lia).
  destruct (Generator_init_ok param img sd mx st ltac:(lia) ltac:(lia) Hsd Hmx)
    as (g & st' & Einit & Bg).
  destruct Bg as (E & D & e1 & e2 & a1 & a2 & nm & c & _ & Henc & Hdec & Bp &
                  (Be1 & Be2 & Ba1 & Ba2) & _).
  rewrite (bottleneck_width_closed img mx Hr Hpow Hmx) in Be1, Be2, Ba1, Ba2.
  destruct (pyramid_built_length _ _ _ _ E D Bp) as [HE HD].
  exists g, st', E, e1, e2, a2, a1, D.
  split; [exact Einit|]; split; [exact Henc|]; split; [exact Hdec|].
  split; [exact HE|]; split; [exact HD|]; cbv zeta.
  rewrite (res_sig_built e1 _ _ _ _ _ Be1), (res_sig_built e2 _ _ _ _ _ Be2).
  rewrite (ada_sig_built a1 _ _ _ _ _ Ba1), (ada_sig_built a2 _ _ _ _ _ Ba2).
  auto.
Qed.

Lemma Generator_bottleneck_width_witness :
  exists g st' E e1 e2 a2 a1 D,
    Generator.__init__ zero_params 64 64 2048 0%nat = Ok (g, st') /\
    Generator.encoder g = E ++ [e1; e2] /\
    Generator.decoder g = [a2; a1] ++ D /\
    length E = Z.to_nat (Z.log2 64 - 4) /\
    length D = Z.to_nat (Z.log2 64 - 4) /\
    let b := Z.min 1024 2048 in
    res_sig e1 = (b, b, false) /\ res_sig e2 = (b, b, false) /\
    ada_sig a2 = (b, b, false) /\ ada_sig a1 = (b, b, false).
Proof.
  apply (Generator_bottleneck_width Q Q_Scalar zero_params 64 64 2048 0%nat).
  - lia.
  - reflexivity.
  - lia.
  - lia.
Defined.

(** ** The discriminator on images larger than its size *)

(** X18.  The discriminator also accepts images larger than the size it was
    built for.  With p = img_size / 4 = 2^(log2(img_size) - 2), a batch of
    h x w images (h, w >= img_size) leaves h//p - 3 rows and w//p - 3
    columns of logits per domain; [forward] flattens them together with the
    domain axis and uses y as a position in that flattened row, so that any
    index between -N and N - 1, N = num_domains * rows * columns, is
    accepted and selects the logit at that flat position. *)
Theorem Discriminator_forward_on_larger_images :
  forall (R : Type) (S : Scalar R) (param : nat -> list Z -> R)
         (img_size num_domains max_conv_dim : Z) (st : nat)
         (x : Tensor R) (y : list Z) (h w : Z),
    pyramid_size img_size -> 1 <= num_domains -> 1 <= max_conv_dim ->
    (1 <= length y)%nat -> img_size <= h -> img_size <= w ->
    shape x = [Z.of_nat (length y); 3; h; w] ->
    let p := 2 ^ (Z.log2 img_size - 2) in
    let rows := h / p - 3 in
    let cols := w / p - 3 in
    let N := num_domains * rows * cols in
    exists d st' logits,
      Discriminator.__init__ param img_size num_domains max_conv_dim st = Ok (d, st') /\
      Sequential.forward (Discriminator.blocks d) x = Ok logits /\
      shape logits = [Z.of_nat (length y); num_domains; rows; cols] /\
      1 <= rows /\ 1 <= cols /\
      (Exists (fun i => ~ (- N <= i < N)) y ->
       Discriminator.forward d x y = Err IndexError) /\
      (Forall (fun i => - N <= i < N) y ->
       exists out,
         Discriminator.forward d x y = Ok out /\
         shape out = [Z.of_nat (length y)] /\
         forall k, 0 <= k < Z.of_nat (length y) ->
           get out [k]
           = get logits (k :: unravel [num_domains; rows; cols]
                                      (wrap_index N (nth (Z.to_nat k) y 0)))).
Proof.
  intros R S param img nd mx st x y h w Hsz Hnd Hmx Hy Hh Hw Hx; cbv zeta.
  destruct (pyramid_size_facts img Hsz) as (Hi & Hn & Himg).
  destruct (Discriminator_init_ok param img nd mx st Hi Hn ltac:(lia) ltac:(lia))
    as (d & st' & Einit & Bd).
  rewrite <- (pow2_log2 img 2) by lia.
  set (n := Z.to_nat (Z.log2 img - 2)) in *.
  destruct (Discriminator_blocks_floor d _ n nd mx (Z.of_nat (length y)) h w Bd
              ltac:(lia) ltac:(lia) (pyramid_size_stem img Hsz) Hnd Hmx)
    as (Hh4 & Hw4 & Hmaps).
  destruct (Hmaps x Hx) as (logits & El & Hl).
  exists d, st', logits.
  split; [exact Einit|]; split; [exact El|]; split; [exact Hl|].
  split; [lia|]; split; [lia|].
  exact (Discriminator_forward_flat_select d x logits y nd _ _ El Hl Hy).
Qed.

Lemma Discriminator_forward_on_larger_images_witness :
  let p := 2 ^ (Z.log2 256 - 2) in
  let rows := 512 / p - 3 in
  let cols := 512 / p - 3 in
  let N := 2 * rows * cols in
  exists d st' logits,
    Discriminator.__init__ zero_params 256 2 512 0%nat = Ok (d, st') /\
    Sequential.forward (Discriminator.blocks d) (full [1; 3; 512; 512] 0%Q) = Ok logits /\
    shape logits = [1; 2; rows; cols] /\
    1 <= rows /\ 1 <= cols /\
    (Exists (fun i => ~ (- N <= i < N)) [7] ->
     Discriminator.forward d (full [1; 3; 512; 512] 0%Q) [7] = Err IndexError) /\
    (Forall (fun i => - N <= i < N) [7] ->
     exists out,
       Discriminator.forward d (full [1; 3; 512; 512] 0%Q) [7] = Ok out /\
       shape out = [1] /\
       forall k, 0 <= k < 1 ->
         get out [k]
         = get logits (k :: unravel [2; rows; cols]
                                    (wrap_index N (nth (Z.to_nat k) [7] 0)))).
Proof.
  apply (Discriminator_forward_on_larger_images Q Q_Scalar zero_params 256 2 512 0%nat
           (full [1; 3; 512; 512] 0%Q) [7] 512 512).
  - split; [lia | reflexivity].
  - lia.
  - lia.
  - simpl; lia.
  - lia.
  - lia.
  - reflexivity.
Defined.

(** ** Style codes of another width, and small images in the style encoder *)

(** X19.  [Generator.forward] raises a shape error when the style tensor's
    last axis is not [style_dim] wide: a batch of images that the encoder
    accepts (sides at least [p] = 2^(int(log2(img_size)) - 4), one of them at
    least 2 [p]) passes the encoder, and the projection of the style code in
    the first decoder block fails. *)
Theorem Generator_forward_rejects_other_style_widths :
  forall (R : Type) (S : Scalar R) (param : nat -> list Z -> R)
         (img_size style_dim max_conv_dim : Z) (st : nat)
         (x s : Tensor R) (batch h w : Z) (pre : list Z) (d : Z),
    32 <= img_size -> 1 <= style_dim -> 1 <= max_conv_dim -> 1 <= batch ->
    2 ^ (Z.log2 img_size - 4) <= h -> 2 ^ (Z.log2 img_size - 4) <= w ->
    2 * 2 ^ (Z.log2 img_size - 4) <= h \/ 2 * 2 ^ (Z.log2 img_size - 4) <= w ->
    shape x = [batch; 3; h; w] ->
    shape s = pre ++ [d] -> d <> style_dim ->
    exists g st',
      Generator.__init__ param img_size style_dim max_conv_dim st = Ok (g, st') /\
      Generator.forward g x s = Err RuntimeError.
Proof.
  intros R S param img sd mx st x s B h w pre d Hi Hsd%pos_nonneg Hmx _ Hh Hw Hbig Hx Hs Hd.
  assert (5 <= Z.log2 img) by (apply log2_ge; simpl; lia).
  destruct (Generator_init_ok param img sd mx st ltac:(lia) ltac:(lia) Hsd ltac:(lia))
    as (g & st' & Einit & Bg).
  exists g, st'; split; [exact Einit|].
  rewrite <- (pow2_log2 img 4) in Hh, Hw, Hbig by lia.
  exact (Generator_forward_bad_style g _ _ sd mx x s B h w pre d Bg Hh Hw Hx Hs Hd Hmx
           (floor_positions _ h w (pow2_pos _) Hh Hw Hbig)).
Qed.

Lemma Generator_forward_rejects_other_style_widths_witness :
  exists g st',
    Generator.__init__ zero_params 256 64 512 0%nat = Ok (g, st') /\
    Generator.forward g (full [1; 3; 256; 256] 0%Q) (full [1; 16] 0%Q)
    = Err RuntimeError.
Proof.
  apply (Generator_forward_rejects_other_style_widths Q Q_Scalar zero_params 256 64 512
           0%nat (full [1; 3; 256; 256] 0%Q) (full [1; 16] 0%Q) 1 256 256 [1] 16).
  - lia.
  - lia.
  - lia.
  - lia.
  - simpl; lia.
  - simpl; lia.
  - left; simpl; lia.
  - reflexivity.
  - reflexivity.
  - lia.
Defined.

(** X20.  A style encoder built for a power-of-two image size raises a shape
    error on every batch of 3-channel images with a side below that size:
    the 4x4 convolution at the end of the shared pyramid, or a pooling step
    before it, has too little left to work on.  The heads are not reached. *)
Theorem StyleEncoder_forward_rejects_small_images :
  forall (R : Type) (S : Scalar R) (param : nat -> list Z -> R)
         (img_size style_dim num_domains max_conv_dim : Z) (st : nat)
         (x : Tensor R) (y : list Z) (batch h w : Z),
    pyramid_size img_size -> 1 <= style_dim -> 1 <= num_domains -> 1 <= max_conv_dim ->
    1 <= batch ->
    1 <= h -> 1 <= w -> h < img_size \/ w < img_size ->
    shape x = [batch; 3; h; w] ->
    exists m st',
      StyleEncoder.__init__ param img_size style_dim num_domains max_conv_dim st
      = Ok (m, st') /\
      StyleEncoder.forward m x y = Err RuntimeError.
Proof.
  intros R S param img sd nd mx st x y B h w Hsz Hsd%pos_nonneg Hnd%pos_nonneg Hmx _ Hh Hw Hsmall Hx.
  destruct (pyramid_size_facts img Hsz) as (Hi & Hn & Himg).
  destruct (StyleEncoder_init_ok param img sd nd mx st Hi Hn Hsd Hnd ltac:(lia))
    as (m & st' & Einit & Bm).
  exists m, st'; split; [exact Einit|].
  apply (StyleEncoder_forward_too_small m _ _ sd nd mx x y B h w Bm Hh Hw);
    [rewrite <- Himg; exact Hsmall | exact Hx | exact (pyramid_size_stem img Hsz)
    | exact Hmx].
Qed.

Lemma StyleEncoder_forward_rejects_small_images_witness :
  exists m st',
    StyleEncoder.__init__ zero_params 256 64 2 512 0%nat = Ok (m, st') /\
    StyleEncoder.forward m (full [1; 3; 128; 512] 0%Q) [0] = Err RuntimeError.
Proof.
  apply (StyleEncoder_forward_rejects_small_images Q Q_Scalar zero_params 256 64 2 512
           0%nat (full [1; 3; 128; 512] 0%Q) [0] 1 128 512).
  - split; [lia | reflexivity].
  - lia.
  - lia.
  - lia.
  - lia.
  - lia.
  - lia.
  - left; lia.
  - reflexivity.
Defined.
